(** * The live-detection polling engine: client, resolver and sweep

    A shallow embedding of [app/youtube_client.py], of the part of
    [app/storage.py] the polling loop uses, and of [notifier_loop] in
    [main.py], followed by the properties of the specification.

    Conventions.
    - A Python [str] is a Rocq [string] holding its UTF-8 encoding.
    - Effects are explicit: every function that touches the network, the
      clock, the store or the delivery transport takes a state in and gives
      a state back; what the outside world answers is read from an oracle
      indexed by how many questions have been asked so far.
    - A Python call either returns or raises: [outcome]. *)

From Stdlib Require Import ZArith QArith Ascii String.
From stdpp Require Import base gmap strings list sorting.

Set Warnings "-register-all".
Local Open Scope string_scope.
Local Open Scope Z_scope.
Local Open Scope list_scope.

(** ** Python values and exceptions *)

(** The exception classes the code tells apart; everything else is
    [OtherError], carrying the class name. *)
Inductive exn :=
| ConnectError
| ReadTimeout
| WriteTimeout
| HTTPStatusError
| OtherError (cls : string).

(** A call returns, raises, or leaves the types its annotations declare
    ([Untyped]: the service sent a non-string where the code's annotation
    says [str]; such a run is not followed further). *)
Inductive outcome (A : Type) : Type :=
| Ret (a : A)
| Raise (e : exn)
| Untyped.
Arguments Ret {A} a.
Arguments Raise {A} e.
Arguments Untyped {A}.

Definition and_then {A B} (o : outcome A) (k : A -> outcome B) : outcome B :=
  match o with
  | Ret a => k a
  | Raise e => Raise e
  | Untyped => Untyped
  end.

Notation "'let!' x ':=' o 'in' k" := (and_then o (fun x => k))
  (at level 10, x name, o at level 100, k at level 200).

Module Json.

(** What [r.json()] yields. An object is an association list; the first
    binding of a key is the one [get] and [[]] see. A number that is not an
    integer goes the way of the integers in all the code does with a number,
    which is to take its truth value or to fail on it. *)
Inductive json :=
| JNull
| JBool (b : bool)
| JNum (z : Z)
| JStr (s : string)
| JArr (l : list json)
| JObj (kv : list (string * json)).

Fixpoint assoc (k : string) (kv : list (string * json)) : option json :=
  match kv with
  | [] => None
  | (k', v) :: rest => if String.eqb k k' then Some v else assoc k rest
  end.

(** [bool(v)] *)
Definition truthy (v : json) : bool :=
  match v with
  | JNull => false
  | JBool b => b
  | JNum z => negb (z =? 0)
  | JStr s => negb (String.eqb s "")
  | JArr l => match l with [] => false | _ => true end
  | JObj kv => match kv with [] => false | _ => true end
  end.

(** [d.get(k, default)]: only a dict has [get]. *)
Definition get (d : json) (k : string) (default : json) : outcome json :=
  match d with
  | JObj kv => Ret (match assoc k kv with Some v => v | None => default end)
  | _ => Raise (OtherError "AttributeError")
  end.

(** [d[k]] for a string [k]. *)
Definition getitem (d : json) (k : string) : outcome json :=
  match d with
  | JObj kv =>
      match assoc k kv with
      | Some v => Ret v
      | None => Raise (OtherError "KeyError")
      end
  | _ => Raise (OtherError "TypeError")
  end.

(** [d[0]]: the first element of a list, the first character of a string;
    a JSON object has string keys only, so [0] is never one of them. *)
Definition getitem0 (d : json) : outcome json :=
  match d with
  | JArr (x :: _) => Ret x
  | JArr [] => Raise (OtherError "IndexError")
  | JStr (String a _) => Ret (JStr (String a EmptyString))
  | JStr EmptyString => Raise (OtherError "IndexError")
  | JObj _ => Raise (OtherError "KeyError")
  | _ => Raise (OtherError "TypeError")
  end.

(** [a or b] *)
Definition or_else (a b : json) : json := if truthy a then a else b.

(** The values a field annotated [str], or [Optional[str]], may hold. *)
Definition as_str (v : json) : option string :=
  match v with JStr s => Some s | _ => None end.

Definition as_opt_str (v : json) : option (option string) :=
  match v with
  | JNull => Some None
  | JStr s => Some (Some s)
  | _ => None
  end.

End Json.
Import Json.

(** ** Python strings held as UTF-8 *)

Module PyStr.

Definition bytes (l : list nat) : string :=
  fold_right (fun n s => String (ascii_of_nat n) s) EmptyString l.

(** The code points [str.isspace] accepts, hence the ones [str.strip]
    removes, in UTF-8. *)
Definition whitespace : list string :=
  [ bytes [9%nat]; bytes [10%nat]; bytes [11%nat]; bytes [12%nat]; bytes [13%nat];
    bytes [28%nat]; bytes [29%nat]; bytes [30%nat]; bytes [31%nat]; bytes [32%nat];
    bytes [194; 133]%nat; bytes [194; 160]%nat; bytes [225; 154; 128]%nat;
    bytes [226; 128; 128]%nat; bytes [226; 128; 129]%nat; bytes [226; 128; 130]%nat;
    bytes [226; 128; 131]%nat; bytes [226; 128; 132]%nat; bytes [226; 128; 133]%nat;
    bytes [226; 128; 134]%nat; bytes [226; 128; 135]%nat; bytes [226; 128; 136]%nat;
    bytes [226; 128; 137]%nat; bytes [226; 128; 138]%nat; bytes [226; 128; 168]%nat;
    bytes [226; 128; 169]%nat; bytes [226; 128; 175]%nat; bytes [226; 129; 159]%nat;
    bytes [227; 128; 128]%nat ].

Fixpoint drop (n : nat) (s : string) : string :=
  match n, s with
  | O, _ => s
  | S n', String _ s' => drop n' s'
  | S _, EmptyString => EmptyString
  end.

(** [s.startswith(p)] *)
Definition startswith (p s : string) : bool := String.prefix p s.

Definition strip_prefix (p s : string) : option string :=
  if startswith p s then Some (drop (String.length p) s) else None.

Fixpoint lstrip_from (codes : list string) (fuel : nat) (s : string) : string :=
  match fuel with
  | O => s
  | S fuel' =>
      match List.find (fun w => startswith w s) codes with
      | Some w => lstrip_from codes fuel' (drop (String.length w) s)
      | None => s
      end
  end.

Definition lstrip (s : string) : string :=
  lstrip_from whitespace (String.length s) s.

Definition rstrip (s : string) : string :=
  String.rev (lstrip_from (List.map String.rev whitespace) (String.length s) (String.rev s)).

(** [s.strip()] *)
Definition strip (s : string) : string := rstrip (lstrip s).

(** [len(s)]: the number of code points, that is of bytes that are not
    continuation bytes [10xxxxxx]. *)
Fixpoint len (s : string) : Z :=
  match s with
  | EmptyString => 0
  | String a s' =>
      let n := nat_of_ascii a in
      (if (128 <=? n)%nat && (n <? 192)%nat then 0 else 1) + len s'
  end.

(** [html.escape(s)] with its default [quote=True]. *)
Fixpoint html_escape (s : string) : string :=
  match s with
  | EmptyString => EmptyString
  | String a s' =>
      let rest := html_escape s' in
      if Ascii.eqb a "&"%char then "&amp;" +:+ rest
      else if Ascii.eqb a "<"%char then "&lt;" +:+ rest
      else if Ascii.eqb a ">"%char then "&gt;" +:+ rest
      else if Ascii.eqb a "034"%char then "&quot;" +:+ rest
      else if Ascii.eqb a "'"%char then "&#x27;" +:+ rest
      else String a rest
  end.

(** [s.replace(old, new)] for an [old] and a [new] of one ASCII character
    each. *)
Fixpoint replace (old new : ascii) (s : string) : string :=
  match s with
  | EmptyString => EmptyString
  | String a s' => String (if Ascii.eqb a old then new else a) (replace old new s')
  end.

(** [s.split(sep)] for a [sep] of one ASCII character: the pieces between
    the separators, empty ones included; there is always one piece. *)
Fixpoint split (sep : ascii) (s : string) : list string :=
  match s with
  | EmptyString => [EmptyString]
  | String a s' =>
      if Ascii.eqb a sep then EmptyString :: split sep s'
      else match split sep s' with
           | piece :: pieces => String a piece :: pieces
           | [] => [String a EmptyString]
           end
  end.

End PyStr.

(** ** [app/youtube_client.py] *)

Module YouTubeClient.

(** *** The transport: requests, responses, what the service answers *)

(** A query parameter is a string or an integer ([maxResults]). *)
Inductive param := PStr (s : string) | PInt (z : Z).

Record Request := { url : string; params : gmap string param }.

(** An [httpx.Response] as far as the code looks at it: its status and the
    value of [r.json()], [None] when the body does not decode. *)
Record Response := { status_code : Z; body : option json }.

(** [await self._client.get(...)] returns a response or raises. *)
Inductive reply := Got (r : Response) | Fails (e : exn).

(** The service: what the [n]-th request of the client's life is answered
    with, given the request. *)
Definition Http := nat -> Request -> reply.

(** Everything observable the client does, oldest first. *)
Inductive event :=
| EvGet (req : Request)
| EvSleep (delay : Q)
| EvRotate (index : nat) (count : nat).

(** The client object, [_keys] and [_key_index], with the number of requests
    it has issued and what it has done so far. *)
Record client := {
  _keys : list string;
  _key_index : nat;
  sent : nat;
  log : list event
}.

Definition record (e : event) (c : client) : client :=
  {| _keys := _keys c; _key_index := _key_index c; sent := sent c; log := log c ++ [e] |}.

(** [YouTubeClient(api_keys)] for a list: empty keys are dropped, and no key
    at all is a [ValueError]. *)
Definition init (api_keys : list string) : outcome client :=
  let keys := List.filter (fun k => negb (String.eqb k "")) api_keys in
  match keys with
  | [] => Raise (OtherError "ValueError")
  | _ => Ret {| _keys := keys; _key_index := 0; sent := 0; log := [] |}
  end.

(** [self.api_key] *)
Definition api_key (c : client) : outcome string :=
  match _keys c !! _key_index c with
  | Some k => Ret k
  | None => Raise (OtherError "IndexError")
  end.

(** [self._advance_key()]: the [print] is the rotation event. *)
Definition _advance_key (c : client) : client :=
  if (1 <? length (_keys c))%nat then
    let i := ((_key_index c + 1) mod length (_keys c))%nat in
    record (EvRotate (i + 1) (length (_keys c)))
      {| _keys := _keys c; _key_index := i; sent := sent c; log := log c |}
  else c.

(** [await self._client.get(url, params=...)]: the request is logged and
    counted; the answer is the service's. *)
Definition send (http : Http) (req : Request) (c : client) : reply * client :=
  (http (sent c) req,
   {| _keys := _keys c; _key_index := _key_index c; sent := S (sent c);
      log := log c ++ [EvGet req] |}).

(** *** The quota test of [_get] *)

Definition quota_reasons : list string :=
  ["quotaExceeded"; "dailyLimitExceeded"; "rateLimitExceeded"; "keyInvalid"].

(** [for e in errors]: a list gives its elements, a dict its keys and a
    string its characters; nothing else can be iterated. *)
Definition iterate (errors : json) : option (list json) :=
  match errors with
  | JArr l => Some l
  | JObj kv => Some (List.map (fun p => JStr (fst p)) kv)
  | JStr s => Some (List.map (fun a => JStr (String a EmptyString)) (list_ascii_of_string s))
  | _ => None
  end.

(** [{e.get("reason") for e in errors if isinstance(e, dict)}]: [None] when
    building the set raises (a reason that is a list or a dict cannot be
    hashed). *)
Fixpoint collect_reasons (errors : list json) : option (list json) :=
  match errors with
  | [] => Some []
  | JObj kv :: rest =>
      match (match assoc "reason" kv with Some v => v | None => JNull end) with
      | JArr _ | JObj _ => None
      | v => match collect_reasons rest with
             | Some vs => Some (v :: vs)
             | None => None
             end
      end
  | _ :: rest => collect_reasons rest
  end.

(** The [try] around [r.json()] and the comprehension: any exception leaves
    [reasons = set()]. *)
Definition reasons (r : Response) : list json :=
  match body r with
  | None => []
  | Some data =>
      match get data "error" (JObj []) with
      | Ret err =>
          match get err "errors" (JArr []) with
          | Ret errors =>
              match iterate errors with
              | Some l => match collect_reasons l with Some vs => vs | None => [] end
              | None => []
              end
          | _ => []
          end
      | _ => []
      end
  end.

(** [reasons & quota_reasons] is not empty. *)
Definition names_quota_reason (vs : list json) : bool :=
  existsb (fun v => match v with
                    | JStr s => existsb (String.eqb s) quota_reasons
                    | _ => false
                    end) vs.

Definition quota_rejected (r : Response) : bool :=
  (status_code r =? 403) && names_quota_reason (reasons r).

(** Modelled from the spec: [httpx.Response.raise_for_status], which is not
    part of this repository, raises [HTTPStatusError] on every status that is
    not 2xx ("any other non-2xx status is treated as a hard, non-retryable
    failure"). *)
Definition is_success (r : Response) : bool :=
  (200 <=? status_code r) && (status_code r <=? 299).

(** *** [_get] *)

(** How the [for attempt in range(retries)] loop ends. *)
Inductive flow :=
| Return (r : option Response)
| Break
| Exhausted
| Propagate (e : exn).

(** [range(retries)] *)
Definition range (retries : Z) : list Z :=
  List.map Z.of_nat (seq 0 (Z.to_nat retries)).

(** The inner loop over the attempts that are left, for one credential. The
    delay is a Python float; every value it takes is [0.5] times a power of
    two, which a float holds exactly below its overflow, so [Q] is exact. *)
Fixpoint attempts (http : Http) (req : Request) (retries : Z) (todo : list Z)
    (delay : Q) (c : client) : flow * Q * client :=
  match todo with
  | [] => (Exhausted, delay, c)
  | attempt :: rest =>
      let '(answer, c1) := send http req c in
      match answer with
      | Got r =>
          if quota_rejected r then (Break, delay, _advance_key c1)
          else if is_success r then (Return (Some r), delay, c1)
          else (Return None, delay, c1)
      | Fails ConnectError | Fails ReadTimeout | Fails WriteTimeout =>
          if attempt =? retries - 1 then (Return None, delay, c1)
          else attempts http req retries rest (Qred (delay * 2)) (record (EvSleep delay) c1)
      | Fails HTTPStatusError => (Return None, delay, c1)
      | Fails (OtherError cls) => (Propagate (OtherError cls), delay, c1)
      end
  end.

(** The [while keys_tried < len(self._keys)] loop. [left] is
    [len(self._keys) - keys_tried]: the loop test is [left > 0], and
    [keys_tried += 1] before the [break] is the step to [left - 1]. *)
Fixpoint key_loop (http : Http) (url : string) (params : gmap string param)
    (retries : Z) (left : nat) (delay : Q) (c : client)
    : outcome (option Response) * client :=
  match left with
  | O => (Ret None, c)
  | S left' =>
      match api_key c with
      | Ret key =>
          let req := {| url := url; params := <["key" := PStr key]> params |} in
          match attempts http req retries (range retries) delay c with
          | (Return r, _, c') => (Ret r, c')
          | (Break, delay', c') => key_loop http url params retries left' delay' c'
          | (Exhausted, _, c') => (Ret None, c')
          | (Propagate e, _, c') => (Raise e, c')
          end
      | Raise e => (Raise e, c)
      | Untyped => (Untyped, c)
      end
  end.

Definition _get (http : Http) (url : string) (params : gmap string param)
    (retries : Z) (c : client) : outcome (option Response) * client :=
  key_loop http url params retries (length (_keys c)) (1 # 2) c.

(** *** The resolver *)

(** A small state-and-exception monad for the methods built on [_get]. *)
Definition M (A : Type) : Type := client -> outcome A * client.

Definition ret {A} (a : A) : M A := fun c => (Ret a, c).

Definition bind {A B} (m : M A) (k : A -> M B) : M B :=
  fun c =>
    match m c with
    | (Ret a, c') => k a c'
    | (Raise e, c') => (Raise e, c')
    | (Untyped, c') => (Untyped, c')
    end.

(** A pure Python expression that may raise. *)
Definition lift {A} (o : outcome A) : M A := fun c => (o, c).

(** A value stored where the annotation says [str] or [Optional[str]]. *)
Definition typed {A} (o : option A) : M A :=
  fun c => (match o with Some a => Ret a | None => Untyped end, c).

Notation "'let*' x ':=' m 'in' k" := (bind m (fun x => k))
  (at level 10, x name, m at level 100, k at level 200).

(** [self.api_key], read inside a method. *)
Definition current_key : M string := fun c => (api_key c, c).

(** [r.json()] *)
Definition json_of (r : Response) : outcome json :=
  match body r with
  | Some v => Ret v
  | None => Raise (OtherError "JSONDecodeError")
  end.

(** [_YT_CHANNEL_URL_RE]:
    [https?://(www\.)?youtube\.com/(channel/|@)([A-Za-z0-9_\-\.]+)]. *)
Definition hint_char (a : ascii) : bool :=
  let n := nat_of_ascii a in
  ((65 <=? n) && (n <=? 90) || (97 <=? n) && (n <=? 122) || (48 <=? n) && (n <=? 57)
   || (n =? 95) || (n =? 45) || (n =? 46))%nat.

Fixpoint take_while (p : ascii -> bool) (s : string) : string :=
  match s with
  | String a s' => if p a then String a (take_while p s') else EmptyString
  | EmptyString => EmptyString
  end.

(** An optional literal of the pattern: taken when it is there. Where the
    pattern uses [?], what must follow cannot start the way the optional
    part does, so taking it whenever possible loses no match. *)
Definition optional (p s : string) : string :=
  match PyStr.strip_prefix p s with Some s' => s' | None => s end.

(** The pattern matched at the start of [s]: group 3 when it matches. *)
Definition match_here (s : string) : option string :=
  s1 ← PyStr.strip_prefix "http" s;
  s2 ← PyStr.strip_prefix "://" (optional "s" s1);
  s3 ← PyStr.strip_prefix "youtube.com/" (optional "www." s2);
  s4 ← match PyStr.strip_prefix "channel/" s3 with
       | Some t => Some t
       | None => PyStr.strip_prefix "@" s3
       end;
  match take_while hint_char s4 with
  | EmptyString => None
  | g => Some g
  end.

(** [_YT_CHANNEL_URL_RE.search(s)], then [group(3)]: the leftmost match. *)
Fixpoint search (s : string) : option string :=
  match match_here s with
  | Some g => Some g
  | None => match s with
            | String _ s' => search s'
            | EmptyString => None
            end
  end.

Definition extract_channel_hint (text : string) : option string :=
  search (PyStr.strip text).

Definition search_url : string := "https://www.googleapis.com/youtube/v3/search".
Definition channels_url : string := "https://www.googleapis.com/youtube/v3/channels".
Definition videos_url : string := "https://www.googleapis.com/youtube/v3/videos".

(** The [params] dictionaries of the four queries. *)
Definition channel_search_params (hint key : string) : gmap string param :=
  <["part" := PStr "snippet"]> (<["q" := PStr hint]> (<["type" := PStr "channel"]>
  (<["maxResults" := PInt 1]> (<["key" := PStr key]> ∅)))).

Definition channel_params (channel_id key : string) : gmap string param :=
  <["part" := PStr "snippet"]> (<["id" := PStr channel_id]> (<["key" := PStr key]> ∅)).

Definition live_search_params (channel_id key : string) : gmap string param :=
  <["part" := PStr "snippet"]> (<["channelId" := PStr channel_id]>
  (<["eventType" := PStr "live"]> (<["type" := PStr "video"]>
  (<["maxResults" := PInt 1]> (<["order" := PStr "date"]> (<["key" := PStr key]> ∅)))))).

Definition video_params (video_id key : string) : gmap string param :=
  <["part" := PStr "snippet,liveStreamingDetails"]>
  (<["id" := PStr video_id]> (<["key" := PStr key]> ∅)).

(** The [hint] of [resolve_channel_id]: the group is never empty, so
    [extract_channel_hint(x) or x.strip()] takes it whenever there is one. *)
Definition hint_of (identifier_or_url : string) : string :=
  match extract_channel_hint identifier_or_url with
  | Some g => g
  | None => PyStr.strip identifier_or_url
  end.

Definition resolve_channel_id (http : Http) (identifier_or_url : string)
    : M (option string) :=
  let hint := hint_of identifier_or_url in
  if PyStr.startswith "UC" hint && (20 <=? PyStr.len hint) then ret (Some hint)
  else
    let* key := current_key in
    let* r := _get http search_url (channel_search_params hint key) 3 in
    match r with
    | None => ret None
    | Some r =>
        let* data := lift (json_of r) in
        let* items := lift (get data "items" (JArr [])) in
        if negb (truthy items) then ret None
        else
          let* item := lift (getitem0 items) in
          let* snippet := lift (getitem item "snippet") in
          let* cid := lift (getitem snippet "channelId") in
          let* cid := typed (as_str cid) in
          ret (Some cid)
    end.

Definition get_channel_title (http : Http) (channel_id : string)
    : M (option string) :=
  let* key := current_key in
  let* r := _get http channels_url (channel_params channel_id key) 3 in
  match r with
  | None => ret None
  | Some r =>
      let* data := lift (json_of r) in
      let* items := lift (get data "items" (JArr [])) in
      if negb (truthy items) then ret None
      else
        let* item := lift (getitem0 items) in
        let* snippet := lift (getitem item "snippet") in
        let* title := lift (get snippet "title" JNull) in
        typed (as_opt_str title)
  end.

Record LiveInfo := {
  channel_id : string;
  channel_title : option string;
  video_id : string;
  video_title : option string;
  scheduled_start_time : option string
}.

(** The [if vitems:] block of [get_live_now]: title and start time. *)
Definition video_details (vitems : json) : outcome (json * json) :=
  if truthy vitems then
    let! v := getitem0 vitems in
    let! s := get v "snippet" (JObj []) in
    let! title := get s "title" JNull in
    let! lsd := get v "liveStreamingDetails" (JObj []) in
    let! scheduled := get lsd "scheduledStartTime" JNull in
    let! actual := get lsd "actualStartTime" JNull in
    Ret (title, or_else scheduled actual)
  else Ret (JNull, JNull).

(** [get_live_now] from the details lookup on, the broadcast id in hand. *)
Definition describe (http : Http) (channel_id video_id : string) : M (option LiveInfo) :=
  let* key := current_key in
  let* r2 := _get http videos_url (video_params video_id key) 3 in
  let* vitems := match r2 with
                 | Some r2 =>
                     let* d2 := lift (json_of r2) in lift (get d2 "items" (JArr []))
                 | None => ret (JArr [])
                 end in
  let* details := lift (video_details vitems) in
  let* chan_title := get_channel_title http channel_id in
  let* title := typed (as_opt_str (fst details)) in
  let* sched := typed (as_opt_str (snd details)) in
  ret (Some {| channel_id := channel_id; channel_title := chan_title;
               video_id := video_id; video_title := title;
               scheduled_start_time := sched |}).

Definition get_live_now (http : Http) (channel_id : string) : M (option LiveInfo) :=
  let* key := current_key in
  let* r := _get http search_url (live_search_params channel_id key) 3 in
  match r with
  | None => ret None
  | Some r =>
      let* data := lift (json_of r) in
      let* items := lift (get data "items" (JArr [])) in
      if negb (truthy items) then ret None
      else
        let* item := lift (getitem0 items) in
        let* id := lift (getitem item "id") in
        let* vid := lift (getitem id "videoId") in
        let* vid := typed (as_str vid) in
        describe http channel_id vid
  end.

(** [_YT_VIDEO_URL.format(video_id=video_id)] *)
Definition video_url (video_id : string) : string :=
  "https://www.youtube.com/watch?v=" +:+ video_id.

End YouTubeClient.

(** ** [app/storage.py], as far as the polling loop uses it *)

Module Storage.

(** The JSON document the store keeps on disk; the file is taken to be
    there to read and to write, so that no operation of the store raises.
    Chat ids are written with [str(chat_id)] and read back with
    [int(chat_id)]; the keys are kept as the integers they stand for. A
    section missing from the file reads as the empty map
    ([data.get(..., {})]). *)
Record data := {
  subscriptions : gmap Z (list string);
  last_live : gmap string string;
  last_live_at : gmap string string;
  cooldown_until : gmap string string;
  destinations : gmap string (list Z)
}.

Definition empty : data :=
  {| subscriptions := ∅; last_live := ∅; last_live_at := ∅;
     cooldown_until := ∅; destinations := ∅ |}.

Definition all_subscribers_for (d : data) (channel_id : string) : gset Z :=
  dom (filter (fun kv => channel_id ∈ kv.2) (subscriptions d)).

Definition all_channels (d : data) : gset string :=
  ⋃ (List.map (fun kv => list_to_set kv.2) (map_to_list (subscriptions d)))
  ∪ dom (destinations d).

Definition get_last_live (d : data) (channel_id : string) : option string :=
  last_live d !! channel_id.

Definition set_last_live (channel_id video_id : string) (d : data) : data :=
  {| subscriptions := subscriptions d;
     last_live := <[channel_id := video_id]> (last_live d);
     last_live_at := last_live_at d;
     cooldown_until := cooldown_until d;
     destinations := destinations d |}.

Definition get_last_live_at (d : data) (channel_id : string) : option string :=
  last_live_at d !! channel_id.

Definition set_last_live_at (channel_id iso_ts : string) (d : data) : data :=
  {| subscriptions := subscriptions d;
     last_live := last_live d;
     last_live_at := <[channel_id := iso_ts]> (last_live_at d);
     cooldown_until := cooldown_until d;
     destinations := destinations d |}.

Definition get_cooldown_until (d : data) (channel_id : string) : option string :=
  cooldown_until d !! channel_id.

Definition set_cooldown_until (channel_id iso_ts : string) (d : data) : data :=
  {| subscriptions := subscriptions d;
     last_live := last_live d;
     last_live_at := last_live_at d;
     cooldown_until := <[channel_id := iso_ts]> (cooldown_until d);
     destinations := destinations d |}.

Definition list_destinations (d : data) (channel_id : string) : list Z :=
  default [] (destinations d !! channel_id).

(** [sorted(set(l))]: the elements of [l], each once, in increasing order.
    Python orders strings by code point, which is the order of the bytes of
    their UTF-8 encodings, and integers by value. *)
Definition sorted_set {A} `{EqDecision A} (R : relation A) `{!RelDecision R}
    (l : list A) : list A :=
  merge_sort R (remove_dups l).

Definition list_subscriptions (d : data) (chat_id : Z) : list string :=
  default [] (subscriptions d !! chat_id).

Definition add_subscription (chat_id : Z) (channel_id : string) (d : data) : data :=
  {| subscriptions :=
       <[chat_id := sorted_set String.le (channel_id :: list_subscriptions d chat_id)]>
         (subscriptions d);
     last_live := last_live d;
     last_live_at := last_live_at d;
     cooldown_until := cooldown_until d;
     destinations := destinations d |}.

(** The value returned, and the store after: nothing is written when the
    channel is not among the chat's subscriptions. *)
Definition remove_subscription (chat_id : Z) (channel_id : string) (d : data)
    : bool * data :=
  if decide (channel_id ∈ list_subscriptions d chat_id) then
    (true,
     {| subscriptions :=
          <[chat_id := sorted_set String.le
                         (List.filter (fun c => negb (String.eqb c channel_id))
                            (list_subscriptions d chat_id))]>
            (subscriptions d);
        last_live := last_live d;
        last_live_at := last_live_at d;
        cooldown_until := cooldown_until d;
        destinations := destinations d |})
  else (false, d).

Definition add_destination (channel_id : string) (chat_id : Z) (d : data) : data :=
  {| subscriptions := subscriptions d;
     last_live := last_live d;
     last_live_at := last_live_at d;
     cooldown_until := cooldown_until d;
     destinations :=
       <[channel_id := sorted_set Z.le (chat_id :: list_destinations d channel_id)]>
         (destinations d) |}.

Definition remove_destination (channel_id : string) (chat_id : Z) (d : data)
    : bool * data :=
  if decide (chat_id ∈ list_destinations d channel_id) then
    (true,
     {| subscriptions := subscriptions d;
        last_live := last_live d;
        last_live_at := last_live_at d;
        cooldown_until := cooldown_until d;
        destinations :=
          <[channel_id := sorted_set Z.le
                            (List.filter (fun k => negb (k =? chat_id))
                               (list_destinations d channel_id))]>
            (destinations d) |})
  else (false, d).

(** The key of the channel stays, with the empty list. *)
Definition clear_destinations (channel_id : string) (d : data) : data :=
  match destinations d !! channel_id with
  | Some _ =>
      {| subscriptions := subscriptions d;
         last_live := last_live d;
         last_live_at := last_live_at d;
         cooldown_until := cooldown_until d;
         destinations := <[channel_id := []]> (destinations d) |}
  | None => d
  end.

End Storage.

(** ** [notifier_loop] of [main.py] *)

Module Main.
Import YouTubeClient.

(** [main], lines 70 and 77 to 85: the credentials read from the
    environment. [yt_key] and [yt_keys] are what [os.getenv] finds for
    [YT_API_KEY] and [YT_API_KEYS], [None] when the variable is not set. *)
Definition api_keys (yt_key yt_keys : option string) : outcome (list string) :=
  let yt_keys_env := PyStr.strip (default "" yt_keys) in
  let api_keys :=
    if negb (String.eqb yt_keys_env "") then
      let temp := PyStr.replace "010" "," (PyStr.replace ";" "," yt_keys_env) in
      List.filter (fun k => negb (String.eqb k ""))
        (List.map PyStr.strip (PyStr.split "," temp))
    else
      match yt_key with
      | Some k => if String.eqb k "" then [] else [k]
      | None => []
      end in
  match api_keys with
  | [] => Raise (OtherError "RuntimeError")
  | _ => Ret api_keys
  end.

(** A [datetime]: its instant in microseconds since [datetime.min], the
    start of year 1, and whether it carries a time zone (then the instant is
    in UTC). *)
Record datetime := { instant : Z; tzaware : bool }.

(** [datetime.max], the last microsecond of year 9999: day 3652059 of the
    calendar is its last. *)
Definition max_instant : Z := 3652059 * 86400 * 1000000 - 1.

(** [a < b]: comparing an aware with a naive [datetime] is a [TypeError]. *)
Definition before (a b : datetime) : option bool :=
  if Bool.eqb (tzaware a) (tzaware b) then Some (instant a <? instant b) else None.

(** [isinstance(e, Exception)], what [except Exception] catches. The
    classes below derive from [BaseException] only; cancelling the task
    raises [asyncio.CancelledError] at the [await] the task is at. *)
Definition is_Exception (e : exn) : bool :=
  match e with
  | OtherError cls =>
      negb (existsb (String.eqb cls)
              ["CancelledError"; "KeyboardInterrupt"; "SystemExit"; "GeneratorExit"])
  | _ => true
  end.

(** An awaited call of a collaborator returns or raises. *)
Inductive awaited (A : Type) : Type :=
| Returned (a : A)
| Raised (e : exn).
Arguments Returned {A} a.
Arguments Raised {A} e.

(** What the loop cannot decide itself. The resolver is taken at its
    interface: [live_now n c] is what the [n]-th call of [yt.get_live_now],
    made for channel [c], comes back with; a run of the loop with the
    client above is a run with the answers that client gave. [clock n] is
    the [n]-th reading of the clock, the instant of a [datetime];
    [send_message n] is the exception the [n]-th send raises, [None] when it
    returns, and [asyncio_sleep n] the one the [n]-th sleep of the loop
    raises, which is how a cancelled task leaves it. The two orders are
    those in which Python iterates over the two sets. The parser and the
    printer of time stamps are those of the [datetime] library. *)
Record Env := {
  clock : nat -> Z;
  fromisoformat : string -> option datetime;
  isoformat : datetime -> string;
  live_now : nat -> string -> awaited (option LiveInfo);
  send_message : nat -> Z -> string -> option exn;
  asyncio_sleep : nat -> option exn;
  channel_order : gset string -> list string;
  chat_order : gset Z -> list Z
}.

(** What the loop does, oldest first. A send carries the channel and the
    broadcast it is made for, and whether it returned. *)
Inductive Event :=
| EvGetLiveNow (channel : string)
| EvSetLastLive (channel video : string)
| EvSetLastLiveAt (channel ts : string)
| EvSetCooldownUntil (channel ts : string)
| EvSendMessage (channel video : string) (chat : Z) (text : string) (delivered : bool)
| EvSleep (seconds : Z).

(** The store, how often the clock, the resolver and the transport have
    been asked, and the trace. *)
Record World := {
  store : Storage.data;
  ticks : nat;
  polls : nat;
  sends : nat;
  trace : list Event
}.

(** How often the loop has slept. *)
Definition naps (w : World) : nat :=
  length (List.filter (fun e => match e with EvSleep _ => true | _ => false end) (trace w)).

(** A write to the store, with the event that tells of it. *)
Definition with_store (f : Storage.data -> Storage.data) (e : Event) (w : World) : World :=
  {| store := f (store w); ticks := ticks w; polls := polls w; sends := sends w;
     trace := trace w ++ [e] |}.

(** [await asyncio.sleep(interval)]: the world once the sleep is over or
    has raised. *)
Definition sleep (interval : Z) (w : World) : World :=
  {| store := store w; ticks := ticks w; polls := polls w; sends := sends w;
     trace := trace w ++ [EvSleep interval] |}.

(** [datetime.now(timezone.utc)] *)
Definition now (E : Env) (w : World) : datetime * World :=
  ({| instant := clock E (ticks w); tzaware := true |},
   {| store := store w; ticks := S (ticks w); polls := polls w; sends := sends w;
      trace := trace w |}).

(** [timedelta(seconds=s)] in microseconds: an [OverflowError] when it
    spans more than 999999999 days. *)
Definition timedelta (seconds : Z) : option Z :=
  if Z.abs (seconds / 86400) <=? 999999999 then Some (seconds * 1000000) else None.

(** [d + timedelta(seconds=s)]: an [OverflowError], [None] here, when the
    span is too long or the result is not between [datetime.min] and
    [datetime.max]. *)
Definition plus_seconds (d : datetime) (s : Z) : option datetime :=
  match timedelta s with
  | Some delta =>
      let r := instant d + delta in
      if (0 <=? r) && (r <=? max_instant)
      then Some {| instant := r; tzaware := tzaware d |}
      else None
  | None => None
  end.

(** [await yt.get_live_now(channel_id)] *)
Definition get_live_now (E : Env) (channel_id : string) (w : World)
    : awaited (option LiveInfo) * World :=
  (live_now E (polls w) channel_id,
   {| store := store w; ticks := ticks w; polls := S (polls w); sends := sends w;
      trace := trace w ++ [EvGetLiveNow channel_id] |}).

(** The cooldown check at the head of the loop body: [true] is [continue].
    Its [except Exception] drops the [ValueError] of the parser and the
    [TypeError] of the comparison; nothing is awaited inside. *)
Definition in_cooldown (E : Env) (channel_id : string) (w : World) : bool * World :=
  match Storage.get_cooldown_until (store w) channel_id with
  | Some cd =>
      if String.eqb cd "" then (false, w)
      else
        let '(t, w1) := now E w in
        match fromisoformat E cd with
        | Some until =>
            match before t until with
            | Some b => (b, w1)
            | None => (false, w1)
            end
        | None => (false, w1)
        end
  | None => (false, w)
  end.

(** [x or default] for an [Optional[str]]. *)
Definition or_default (x : option string) (default : string) : string :=
  match x with
  | Some s => if String.eqb s "" then default else s
  | None => default
  end.

Definition live_label : string := "Прямая трансляция".

(** The f-string of the notification. *)
Definition message (channel_id : string) (live : LiveInfo) : string :=
  let url := video_url (video_id live) in
  let title := PyStr.html_escape (or_default (video_title live) live_label) in
  let chan := PyStr.html_escape (or_default (channel_title live) channel_id) in
  chan +:+ " в эфире: " +:+ title +:+ String "010" url.

(** Whether a call returned. *)
Definition returned (r : option exn) : bool :=
  match r with None => true | Some _ => false end.

(** What of an outcome gets past [except Exception: pass]. *)
Definition uncaught (r : option exn) : option exn :=
  match r with
  | Some e => if is_Exception e then None else Some e
  | None => None
  end.

(** [await bot.send_message(chat_id, text)] inside its [try]: an
    [Exception] is dropped, anything else leaves the loop over the chats. *)
Definition send (E : Env) (channel_id video : string) (text : string) (chat_id : Z)
    (w : World) : option exn * World :=
  let r := send_message E (sends w) chat_id text in
  (uncaught r,
   {| store := store w; ticks := ticks w; polls := polls w; sends := S (sends w);
      trace := trace w ++ [EvSendMessage channel_id video chat_id text (returned r)] |}).

Fixpoint for_targets (E : Env) (channel_id video : string) (text : string)
    (targets : list Z) (w : World) : option exn * World :=
  match targets with
  | [] => (None, w)
  | chat_id :: rest =>
      match send E channel_id video text chat_id w with
      | (None, w') => for_targets E channel_id video text rest w'
      | (Some e, w') => (Some e, w')
      end
  end.

(** The writes of a detection. The sum for the cooldown is computed, and
    may overflow, after the clock is read and before the write is made. *)
Definition commit (E : Env) (cooldown_seconds : Z) (channel_id : string)
    (live : LiveInfo) (w : World) : option exn * World :=
  let w1 := with_store (Storage.set_last_live channel_id (video_id live))
              (EvSetLastLive channel_id (video_id live)) w in
  let '(t1, w2) := now E w1 in
  let w3 := with_store (Storage.set_last_live_at channel_id (isoformat E t1))
              (EvSetLastLiveAt channel_id (isoformat E t1)) w2 in
  if 0 <? cooldown_seconds then
    let '(t2, w4) := now E w3 in
    match plus_seconds t2 cooldown_seconds with
    | Some until =>
        let ts := isoformat E until in
        (None,
         with_store (Storage.set_cooldown_until channel_id ts)
           (EvSetCooldownUntil channel_id ts) w4)
    | None => (Some (OtherError "OverflowError"), w4)
    end
  else (None, w3).

(** [set(storage.all_subscribers_for(channel_id)) |
    set(storage.list_destinations(channel_id))] *)
Definition targets (d : Storage.data) (channel_id : string) : gset Z :=
  Storage.all_subscribers_for d channel_id
  ∪ list_to_set (Storage.list_destinations d channel_id).

(** The sends of a detection. *)
Definition notify (E : Env) (channel_id : string) (live : LiveInfo) (w : World)
    : option exn * World :=
  let text := message channel_id live in
  for_targets E channel_id (video_id live) text
    (chat_order E (targets (store w) channel_id)) w.

(** The loop body after the cooldown check. *)
Definition detect (E : Env) (cooldown_seconds : Z) (channel_id : string)
    (w : World) : option exn * World :=
  let '(live, w2) := get_live_now E channel_id w in
  match live with
  | Raised e => (Some e, w2)
  | Returned None => (None, w2)
  | Returned (Some live) =>
      if decide (Storage.get_last_live (store w2) channel_id = Some (video_id live))
      then (None, w2)
      else
        match commit E cooldown_seconds channel_id live w2 with
        | (None, w3) => notify E channel_id live w3
        | (Some e, w3) => (Some e, w3)
        end
  end.

(** The body of [for channel_id in channels]: the exception that leaves it,
    if one does, and the world after. *)
Definition process_channel (E : Env) (cooldown_seconds : Z) (channel_id : string)
    (w : World) : option exn * World :=
  let '(skip, w1) := in_cooldown E channel_id w in
  if skip then (None, w1) else detect E cooldown_seconds channel_id w1.

Fixpoint for_channels (E : Env) (cooldown_seconds : Z) (channels : list string)
    (w : World) : option exn * World :=
  match channels with
  | [] => (None, w)
  | channel_id :: rest =>
      match process_channel E cooldown_seconds channel_id w with
      | (None, w') => for_channels E cooldown_seconds rest w'
      | (Some e, w') => (Some e, w')
      end
  end.

(** One turn of [while True]. The [try] is around the whole [for]; its
    [except Exception: pass] drops an [Exception] the [for] raised and lets
    anything else leave the loop, as does what the sleep raises. The
    exception that leaves the loop, if one does, and the world after. *)
Definition sweep (E : Env) (interval cooldown_seconds : Z) (w : World)
    : option exn * World :=
  let channels := channel_order E (Storage.all_channels (store w)) in
  let '(r, w') := for_channels E cooldown_seconds channels w in
  match uncaught r with
  | Some e => (Some e, w')
  | None => (asyncio_sleep E (naps w'), sleep interval w')
  end.

(** The first [n] turns of the loop, or as many as it makes before an
    exception leaves it. *)
Fixpoint notifier_loop (E : Env) (interval cooldown_seconds : Z) (n : nat)
    (w : World) : option exn * World :=
  match n with
  | O => (None, w)
  | S n' =>
      match sweep E interval cooldown_seconds w with
      | (None, w') => notifier_loop E interval cooldown_seconds n' w'
      | (Some e, w') => (Some e, w')
      end
  end.

End Main.

(** ** [app/bot.py]: what the removal does to the store *)

Module Bot.

(** [remove_picking] from line 237 on, the text being a number: [idx] is
    [int(text)], [subs] the list the dialogue remembered and [chat_id] the
    private chat the message came from. *)
Definition remove_picking (chat_id : Z) (subs : list string) (idx : Z)
    (d : Storage.data) : Storage.data :=
  if (idx <? 1) || (Z.of_nat (length subs) <? idx) then d
  else
    match subs !! Z.to_nat (idx - 1) with
    | Some channel_id =>
        Storage.clear_destinations channel_id
          (Storage.remove_subscription chat_id channel_id d).2
    | None => d
    end.

End Bot.

(** * The vocabulary of the properties *)

Module ClientSpec.
Import YouTubeClient.

(** The requests among some events, and the delays slept. *)
Definition gets (evs : list event) : list Request :=
  omap (fun e => match e with EvGet req => Some req | _ => None end) evs.

Definition sleeps (evs : list event) : list Q :=
  omap (fun e => match e with EvSleep d => Some d | _ => None end) evs.

(** The request [_get] makes with a given credential. *)
Definition with_key (url : string) (params : gmap string param) (key : string) : Request :=
  {| url := url; params := <["key" := PStr key]> params |}.

(** The credential [i] places after the cursor, cyclically. *)
Definition credential (c : client) (i : nat) : string :=
  default "" (_keys c !! ((_key_index c + i) mod length (_keys c))%nat).

(** The three transport failures [_get] retries. *)
Definition is_timeout (a : reply) : bool :=
  match a with
  | Fails ConnectError | Fails ReadTimeout | Fails WriteTimeout => true
  | _ => false
  end.

(** What the service does with a request, whenever it is made. *)
Definition rejects (http : Http) (req : Request) : Prop :=
  forall n, exists r, http n req = Got r /\ quota_rejected r = true.

Definition answers (http : Http) (req : Request) (r : Response) : Prop :=
  is_success r = true /\ forall n, http n req = Got r.

Definition times_out (http : Http) (req : Request) : Prop :=
  forall n, is_timeout (http n req) = true.

(** The delay before the retry that follows the [i]-th timeout of a call:
    [0.5], doubled [i] times. *)
Definition backoff (i : nat) : Q := Nat.iter i (fun d => Qred (d * 2)) (1 # 2).

(** The broadcast id the live search found, if it found one: the path
    [r.json().get("items", [])[0]["id"]["videoId"]] of [get_live_now]. *)
Definition live_item (r : Response) : option string :=
  match json_of r with
  | Ret data =>
      match get data "items" (JArr []) with
      | Ret items =>
          if truthy items then
            match getitem0 items with
            | Ret item =>
                match getitem item "id" with
                | Ret id =>
                    match getitem id "videoId" with
                    | Ret (JStr v) => Some v
                    | _ => None
                    end
                | _ => None
                end
            | _ => None
            end
          else None
      | _ => None
      end
  | _ => None
  end.

(** The characters of a channel id: letters, digits, [_] and [-]. *)
Definition id_char (a : ascii) : bool :=
  let n := nat_of_ascii a in
  ((65 <=? n) && (n <=? 90) || (97 <=? n) && (n <=? 122) || (48 <=? n) && (n <=? 57)
   || (n =? 95) || (n =? 45))%nat.

Fixpoint all_chars (p : ascii -> bool) (s : string) : bool :=
  match s with
  | EmptyString => true
  | String a s' => p a && all_chars p s'
  end.

(** No code of the list starts with a character of a channel id. *)
Definition foreign_to_ids (codes : list string) : bool :=
  forallb (fun w => match w with
                    | String b _ => negb (id_char b)
                    | EmptyString => false
                    end) codes.

(** The cursor is inside the credential list, as [__init__] leaves it and
    [_advance_key] keeps it. *)
Definition well_formed (c : client) : Prop :=
  (_key_index c < length (_keys c))%nat.

(** The client after one more request, and after [m] timeouts each followed
    by its sleep. *)
Definition asked (req : Request) (c : client) : client :=
  {| _keys := _keys c; _key_index := _key_index c; sent := S (sent c);
     log := log c ++ [EvGet req] |}.

Fixpoint slept (req : Request) (m : nat) (delay : Q) (c : client) : Q * client :=
  match m with
  | O => (delay, c)
  | S m' => slept req m' (Qred (delay * 2)) (record (EvSleep delay) (asked req c))
  end.

(** The client after [m] credentials in a row, from the cursor on, were
    each asked once and rejected. *)
Fixpoint rotated (url : string) (params : gmap string param) (m : nat) (c : client)
    : client :=
  match m with
  | O => c
  | S m' =>
      rotated url params m' (_advance_key (asked (with_key url params (credential c 0)) c))
  end.

(** The printable characters of ASCII other than the space. *)
Definition visible (a : ascii) : bool :=
  let n := nat_of_ascii a in ((33 <=? n) && (n <=? 126))%nat.

(** No code of the list starts with a character that satisfies [p]. *)
Definition foreign_to (p : ascii -> bool) (codes : list string) : bool :=
  forallb (fun w => match w with
                    | String b _ => negb (p b)
                    | EmptyString => false
                    end) codes.

(** What comes before the name in the URL of a channel, in the forms the
    pattern accepts. *)
Definition channel_urls : list string :=
  [ "https://www.youtube.com/channel/"; "https://www.youtube.com/@";
    "https://youtube.com/channel/"; "https://youtube.com/@";
    "http://www.youtube.com/channel/"; "http://www.youtube.com/@";
    "http://youtube.com/channel/"; "http://youtube.com/@" ].

(** The credential a request carries in its [key] parameter. *)
Definition key_of (req : Request) : option string :=
  match params req !! "key" with
  | Some (PStr k) => Some k
  | _ => None
  end.

(** How many of the requests carry the credential, and how many times the
    credential is listed ([__init__] keeps a key that is given twice). *)
Definition carrying (key : string) (made : list Request) : nat :=
  length (List.filter (fun req => bool_decide (key_of req = Some key)) made).

Definition listed (key : string) (keys : list string) : nat :=
  length (List.filter (String.eqb key) keys).

(** Requests made credential by credential, from the cursor on: as many
    with the credential [i] places after the cursor as the [i]-th count
    says. *)
Definition blocks (url : string) (params : gmap string param) (c : client)
    (counts : list nat) : list Request :=
  concat (imap (fun i k => replicate k (with_key url params (credential c i))) counts).

(** One client after another: same credentials, cursor inside, and in
    between at most [k] requests for each place a credential has in the
    list: at most [k] times the length of the list in all, and at most [k]
    times the number of its places with any one credential. *)
Definition step (k : nat) (c c' : client) : Prop :=
  _keys c' = _keys c /\ well_formed c'
  /\ (sent c <= sent c' <= sent c + k * length (_keys c))%nat
  /\ exists made,
       gets (log c') = gets (log c) ++ made
       /\ length made = (sent c' - sent c)%nat
       /\ forall key, (carrying key made <= k * listed key (_keys c))%nat.

(** A method that spends at most [k] requests per credential. *)
Definition within {A} (k : nat) (m : M A) (c : client) : Prop := step k c (m c).2.

End ClientSpec.

(** Sample services and clients, for the properties to be tried on. *)
Module Samples.
Import YouTubeClient ClientSpec.

Definition quota_body : json :=
  JObj [("error", JObj [("code", JNum 403);
                        ("errors", JArr [JObj [("domain", JStr "youtube.quota");
                                               ("reason", JStr "quotaExceeded")]])])].

Definition rejection : Response := {| status_code := 403; body := Some quota_body |}.

Definition nothing_live : Response :=
  {| status_code := 200; body := Some (JObj [("items", JArr [])]) |}.

Definition server_error : Response := {| status_code := 500; body := None |}.

Definition one_live : Response :=
  {| status_code := 200;
     body := Some (JObj [("items", JArr [JObj [("id", JObj [("videoId", JStr "v1")])]])]) |}.

(** A service whose search works and whose other endpoints are down. *)
Definition only_search : Http :=
  fun _ req =>
    if String.eqb (url req) search_url then Got one_live else Got server_error.

(** A service whose search finds nothing. *)
Definition nothing_found : Http := fun _ _ => Got nothing_live.

(** A service that answers by the credential of the request alone. *)
Definition by_key (f : string -> reply) : Http :=
  fun _ req =>
    match params req !! "key" with
    | Some (PStr k) => f k
    | _ => Fails (OtherError "InvalidURL")
    end.

Definition first_rejected : Http :=
  by_key (fun k => if String.eqb k "k1" then Got rejection else Got nothing_live).

Definition first_rejected_then_silence : Http :=
  by_key (fun k => if String.eqb k "k1" then Got rejection else Fails ReadTimeout).

Definition all_rejected : Http := by_key (fun _ => Got rejection).

Definition silence : Http := fun _ _ => Fails ReadTimeout.

(** A service that is silent once and answers from then on. *)
Definition flaky : Http :=
  fun n _ => if (n <? 1)%nat then Fails ReadTimeout else Got nothing_live.

(** A service no connection to which is set up in time: [httpx] raises
    [ConnectTimeout], a [TimeoutException] that is no [ConnectError]. *)
Definition connect_timeout : Http := fun _ _ => Fails (OtherError "ConnectTimeout").

Definition two_keys : client :=
  {| _keys := ["k1"; "k2"]; _key_index := 0; sent := 0; log := [] |}.

End Samples.

Module MainSpec.
Import YouTubeClient Main.

(** The characters [html.escape] replaces, and those among them that are
    not the ampersand. *)
Definition special (a : ascii) : bool :=
  Ascii.eqb a "&" || Ascii.eqb a "<" || Ascii.eqb a ">" || Ascii.eqb a "034"
  || Ascii.eqb a "'".

Definition markup (a : ascii) : bool :=
  Ascii.eqb a "<" || Ascii.eqb a ">" || Ascii.eqb a "034" || Ascii.eqb a "'".

(** What separates the credentials in [YT_API_KEYS]. *)
Definition separator (a : ascii) : bool :=
  Ascii.eqb a "," || Ascii.eqb a ";" || Ascii.eqb a "010".

(** The text starts and ends with a visible character. *)
Definition visible_ends (s : string) : bool :=
  match s, String.rev s with
  | String a _, String b _ => ClientSpec.visible a && ClientSpec.visible b
  | _, _ => false
  end.

(** The sends of one fan-out: one per chat of the list, in its order, the
    first being the [n]-th send of the loop's life, up to the first send, if
    there is one, that raises what its [try] does not catch. *)
Fixpoint deliveries (E : Env) (channel video text : string) (chats : list Z) (n : nat)
    : list Event :=
  match chats with
  | [] => []
  | chat :: rest =>
      EvSendMessage channel video chat text (returned (send_message E n chat text))
      :: match uncaught (send_message E n chat text) with
         | Some _ => []
         | None => deliveries E channel video text rest (S n)
         end
  end.

(** The exception that leaves the fan-out, if one does. *)
Fixpoint fanout (E : Env) (text : string) (chats : list Z) (n : nat) : option exn :=
  match chats with
  | [] => None
  | chat :: rest =>
      match uncaught (send_message E n chat text) with
      | Some e => Some e
      | None => fanout E text rest (S n)
      end
  end.

(** No send raises anything but an [Exception]: the task is not cancelled
    while it sends. *)
Definition sends_caught (E : Env) : Prop :=
  forall n chat text, uncaught (send_message E n chat text) = None.

(** The channel an event is about; the sleep is about none. *)
Definition channel_of (e : Event) : option string :=
  match e with
  | EvGetLiveNow c => Some c
  | EvSetLastLive c _ => Some c
  | EvSetLastLiveAt c _ => Some c
  | EvSetCooldownUntil c _ => Some c
  | EvSendMessage c _ _ _ _ => Some c
  | EvSleep _ => None
  end.

(** The events about a channel. *)
Definition about (channel : string) (e : Event) : bool :=
  bool_decide (channel_of e = Some channel).

Definition is_send (e : Event) : bool :=
  match e with EvSendMessage _ _ _ _ _ => true | _ => false end.

Definition is_write (e : Event) : bool :=
  match e with
  | EvSetLastLive _ _ | EvSetLastLiveAt _ _ | EvSetCooldownUntil _ _ => true
  | _ => false
  end.

(** The notifications for a broadcast of a channel that went to one chat,
    and how many of them some events hold. *)
Definition notification_to (channel video : string) (chat : Z) (e : Event) : bool :=
  match e with
  | EvSendMessage c v k _ _ =>
      bool_decide (c = channel) && bool_decide (v = video) && bool_decide (k = chat)
  | _ => false
  end.

Definition sent_to (channel video : string) (chat : Z) (tr : list Event) : nat :=
  length (List.filter (notification_to channel video chat) tr).

(** The sends made for a channel, whatever the broadcast. *)
Definition send_for (channel : string) (e : Event) : bool :=
  match e with
  | EvSendMessage c _ _ _ _ => bool_decide (c = channel)
  | _ => false
  end.

(** The calls of the resolver for a channel. *)
Definition poll_of (channel : string) (e : Event) : bool :=
  match e with
  | EvGetLiveNow c => bool_decide (c = channel)
  | _ => false
  end.

(** The three entries the store keeps for a channel. *)
Definition entry (d : Storage.data) (channel : string)
    : option string * option string * option string :=
  (Storage.last_live d !! channel, Storage.last_live_at d !! channel,
   Storage.cooldown_until d !! channel).

(** Whenever the resolver is asked about the channel and has a broadcast to
    report, it is this one. *)
Definition steady (E : Env) (channel video : string) : Prop :=
  forall n, match live_now E n channel with
            | Returned (Some live) => video_id live = video
            | _ => True
            end.

(** The resolver does not raise. *)
Definition never_raises (E : Env) : Prop :=
  forall n c, match live_now E n c with Raised _ => False | _ => True end.

(** Nothing is raised in the loop body: the resolver does not raise, no
    send raises anything but an [Exception], and the cooldown, when one is
    configured, can be added to every reading of the clock. *)
Definition calm (E : Env) (cooldown_seconds : Z) : Prop :=
  never_raises E
  /\ sends_caught E
  /\ (0 < cooldown_seconds ->
      forall n, plus_seconds {| instant := clock E n; tzaware := true |} cooldown_seconds
                <> None).

(** Iterating over a Python set visits each of its elements once. *)
Definition visits_each_once (E : Env) : Prop :=
  forall X : gset Z, chat_order E X ≡ₚ elements X.

(** The world after the [for] loop when nothing is raised. *)
Fixpoint process_all (E : Env) (cooldown_seconds : Z) (channels : list string)
    (w : World) : World :=
  match channels with
  | [] => w
  | c :: rest => process_all E cooldown_seconds rest (process_channel E cooldown_seconds c w).2
  end.

(** Where the loop can get from a world: by steps of the loop body, for
    whatever channels, and by sleeps. *)
Inductive reaches (E : Env) (cooldown_seconds : Z) : World -> World -> Prop :=
| reaches_here w :
    reaches E cooldown_seconds w w
| reaches_step c w w' :
    reaches E cooldown_seconds (process_channel E cooldown_seconds c w).2 w' ->
    reaches E cooldown_seconds w w'
| reaches_sleep interval w w' :
    reaches E cooldown_seconds (sleep interval w) w' ->
    reaches E cooldown_seconds w w'.

(** The surroundings with a transport that fails every send. *)
Definition silenced (E : Env) : Env :=
  {| clock := clock E; fromisoformat := fromisoformat E; isoformat := isoformat E;
     live_now := live_now E;
     send_message := fun _ _ _ => Some (OtherError "TelegramNetworkError");
     asyncio_sleep := asyncio_sleep E;
     channel_order := channel_order E; chat_order := chat_order E |}.

(** The time stamps a detection writes, from the clock readings it takes,
    the writes of a detection and all it appends to the trace. *)
Definition stamp_at (E : Env) (w : World) : string :=
  isoformat E {| instant := clock E (ticks w); tzaware := true |}.

(** The end of the cooldown a detection computes from its second clock
    reading, when the sum is a [datetime]. *)
Definition cooldown_end (E : Env) (cooldown_seconds : Z) (w : World) : option datetime :=
  plus_seconds {| instant := clock E (S (ticks w)); tzaware := true |} cooldown_seconds.

(** The exception the writes of a detection end with: the [OverflowError]
    of the sum, when a cooldown is configured and the sum is no
    [datetime]. *)
Definition commit_result (E : Env) (cooldown_seconds : Z) (w : World) : option exn :=
  if 0 <? cooldown_seconds then
    match cooldown_end E cooldown_seconds w with
    | Some _ => None
    | None => Some (OtherError "OverflowError")
    end
  else None.

Definition commit_events (E : Env) (cooldown_seconds : Z) (c : string) (live : LiveInfo)
    (w : World) : list Event :=
  EvSetLastLive c (video_id live) :: EvSetLastLiveAt c (stamp_at E w)
  :: (if 0 <? cooldown_seconds then
        match cooldown_end E cooldown_seconds w with
        | Some until => [EvSetCooldownUntil c (isoformat E until)]
        | None => []
        end
      else []).

(** All a detection appends to the trace, and the exception it ends with:
    after an overflow nothing is sent. *)
Definition detection_events (E : Env) (cooldown_seconds : Z) (c : string)
    (live : LiveInfo) (w : World) : list Event :=
  EvGetLiveNow c :: commit_events E cooldown_seconds c live w
  ++ match commit_result E cooldown_seconds w with
     | Some _ => []
     | None => deliveries E c (video_id live) (message c live)
                 (chat_order E (targets (store w) c)) (sends w)
     end.

Definition detection_result (E : Env) (cooldown_seconds : Z) (c : string)
    (live : LiveInfo) (w : World) : option exn :=
  match commit_result E cooldown_seconds w with
  | Some e => Some e
  | None => fanout E (message c live) (chat_order E (targets (store w) c)) (sends w)
  end.

(** The store after the writes of a detection. *)
Definition committed (E : Env) (cooldown_seconds : Z) (c : string) (live : LiveInfo)
    (w : World) : Storage.data :=
  (if 0 <? cooldown_seconds then
     match cooldown_end E cooldown_seconds w with
     | Some until => Storage.set_cooldown_until c (isoformat E until)
     | None => id
     end
   else id)
    (Storage.set_last_live_at c (stamp_at E w)
       (Storage.set_last_live c (video_id live) (store w))).

(** The four ways the loop body after the cooldown check can go. *)
Inductive detected (E : Env) (cooldown_seconds : Z) (c : string) (w : World)
    : option exn * World -> Prop :=
| DetectRaised e w' :
    live_now E (polls w) c = Raised e ->
    store w' = store w -> trace w' = trace w ++ [EvGetLiveNow c] ->
    detected E cooldown_seconds c w (Some e, w')
| DetectNotLive w' :
    live_now E (polls w) c = Returned None ->
    store w' = store w -> trace w' = trace w ++ [EvGetLiveNow c] ->
    detected E cooldown_seconds c w (None, w')
| DetectKnown live w' :
    live_now E (polls w) c = Returned (Some live) ->
    Storage.get_last_live (store w) c = Some (video_id live) ->
    store w' = store w -> trace w' = trace w ++ [EvGetLiveNow c] ->
    detected E cooldown_seconds c w (None, w')
| DetectNew live w' :
    live_now E (polls w) c = Returned (Some live) ->
    Storage.get_last_live (store w) c <> Some (video_id live) ->
    store w' = committed E cooldown_seconds c live w ->
    trace w' = trace w ++ detection_events E cooldown_seconds c live w ->
    detected E cooldown_seconds c w (detection_result E cooldown_seconds c live w, w').

(** The world with one more reading of the clock taken. *)
Definition ticked (w : World) : World :=
  {| store := store w; ticks := S (ticks w); polls := polls w; sends := sends w;
     trace := trace w |}.

(** The ways the whole loop body can go: the channel is skipped after one
    reading of the clock, or the resolver is asked, after at most one
    reading. *)
Inductive processed (E : Env) (cooldown_seconds : Z) (c : string) (w : World)
    : option exn * World -> Prop :=
| Skipped :
    processed E cooldown_seconds c w (None, ticked w)
| Asked w1 r :
    w1 = w \/ w1 = ticked w -> detected E cooldown_seconds c w1 r ->
    processed E cooldown_seconds c w r.

End MainSpec.

(** Sample surroundings of the loop, for the properties to be tried on. *)
Module LoopSamples.
Import YouTubeClient Main MainSpec.

(** Time stamps written as binary numerals, lowest digit first, after a
    letter for the time zone and a sign. *)
Fixpoint digits (p : positive) : string :=
  match p with
  | xH => "1"
  | xO p' => String "0" (digits p')
  | xI p' => String "1" (digits p')
  end.

Fixpoint number (s : string) : option positive :=
  match s with
  | String a EmptyString => if Ascii.eqb a "1" then Some xH else None
  | String a rest =>
      if Ascii.eqb a "0" then xO <$> number rest
      else if Ascii.eqb a "1" then xI <$> number rest
      else None
  | EmptyString => None
  end.

Definition write_stamp (d : datetime) : string :=
  String (if tzaware d then "u" else "n")
    (match instant d with
     | Z0 => "="
     | Zpos p => String "+" (digits p)
     | Zneg p => String "-" (digits p)
     end).

Definition read_stamp (s : string) : option datetime :=
  match s with
  | String zone (String sign rest) =>
      aware ← (if Ascii.eqb zone "u" then Some true
               else if Ascii.eqb zone "n" then Some false else None);
      z ← (if Ascii.eqb sign "=" then (if String.eqb rest "" then Some Z0 else None)
           else if Ascii.eqb sign "+" then Zpos <$> number rest
           else if Ascii.eqb sign "-" then Zneg <$> number rest
           else None);
      Some {| instant := z; tzaware := aware |}
  | _ => None
  end.

Definition live_v1 : LiveInfo :=
  {| channel_id := "UCa"; channel_title := Some "Alpha & Co"; video_id := "v1";
     video_title := None; scheduled_start_time := None |}.

Definition live_v2 : LiveInfo :=
  {| channel_id := "UCa"; channel_title := Some "Alpha & Co"; video_id := "v2";
     video_title := Some "Second"; scheduled_start_time := None |}.

Definition live_b : LiveInfo :=
  {| channel_id := "UCb"; channel_title := None; video_id := "b1";
     video_title := Some "Beta live"; scheduled_start_time := None |}.

(** Surroundings that differ in what the resolver reports only: the clock
    advances by a second per reading, every send fails, no sleep is cut
    short, and sets are visited in the order of [elements]. *)
Definition surroundings (resolver : nat -> string -> awaited (option LiveInfo)) : Env :=
  {| clock := fun n => Z.of_nat n * 1000000;
     fromisoformat := read_stamp;
     isoformat := write_stamp;
     live_now := resolver;
     send_message := fun _ _ _ => Some (OtherError "TelegramNetworkError");
     asyncio_sleep := fun _ => None;
     channel_order := elements;
     chat_order := elements |}.

(** Channel [UCa] is live with [v1] throughout; [UCb] is not live. *)
Definition always_v1 : Env :=
  surroundings (fun _ c => if String.eqb c "UCa" then Returned (Some live_v1)
                           else Returned None).

(** The resolver raises for [UCa]; [UCb] is live with [b1]. *)
Definition a_raises : Env :=
  surroundings (fun _ c => if String.eqb c "UCa" then Raised (OtherError "KeyError")
                           else Returned (Some live_b)).

(** [UCa] is reported live with [v1], then with [v2], then with [v1]
    again. *)
Definition v1_v2_v1 : Env :=
  surroundings (fun n _ => match n with
                           | 1%nat => Returned (Some live_v2)
                           | _ => Returned (Some live_v1)
                           end).

(** The same surroundings with a transport that delivers every send. *)
Definition delivering (E : Env) : Env :=
  {| clock := clock E; fromisoformat := fromisoformat E; isoformat := isoformat E;
     live_now := live_now E; send_message := fun _ _ _ => None;
     asyncio_sleep := asyncio_sleep E;
     channel_order := channel_order E; chat_order := chat_order E |}.

(** The task is cancelled while the resolver is asked about [UCa]. *)
Definition cancelled : Env :=
  surroundings (fun _ c => if String.eqb c "UCa" then Raised (OtherError "CancelledError")
                           else Returned (Some live_b)).

Definition subscribed (channels : list string) : Storage.data :=
  {| Storage.subscriptions := {[ 7 := channels ]};
     Storage.last_live := ∅; Storage.last_live_at := ∅; Storage.cooldown_until := ∅;
     Storage.destinations := {[ "UCa" := [-100] ]} |}.

Definition fresh (d : Storage.data) : World :=
  {| store := d; ticks := 0; polls := 0; sends := 0; trace := [] |}.


(** A store whose cooldown entry for [UCa] is an hour ahead of the first
    clock reading and names no time zone. *)
Definition zoneless : World :=
  fresh (Storage.set_cooldown_until "UCa"
           (write_stamp {| instant := 3601000000; tzaware := false |})
           (subscribed ["UCa"; "UCb"])).

End LoopSamples.

Module StorageSpec.

(** A list as [sorted(set(...))] leaves it: increasing, each element once. *)
Definition normal {A} (R : relation A) (l : list A) : Prop :=
  Sorted R l /\ NoDup l.

(** Every list of the store is as [sorted(set(...))] leaves it: what the
    operations of the store write, and what they keep. *)
Definition tidy (d : Storage.data) : Prop :=
  (forall chat l, Storage.subscriptions d !! chat = Some l -> normal String.le l)
  /\ (forall c l, Storage.destinations d !! c = Some l -> normal Z.le l).

(** The store's section of per-channel state is left alone. *)
Definition same_state (d d' : Storage.data) : Prop :=
  Storage.last_live d' = Storage.last_live d
  /\ Storage.last_live_at d' = Storage.last_live_at d
  /\ Storage.cooldown_until d' = Storage.cooldown_until d.

End StorageSpec.

(** * Properties of the client *)

Section Client.
Import YouTubeClient ClientSpec.

Variable http : Http.
Variable retries : Z.

Lemma range_pos : 0 < retries -> exists rest, range retries = 0 :: rest.
Proof.
  intros H. unfold range.
  destruct (Z.to_nat retries) as [|n] eqn:E; [lia|].
  exists (List.map Z.of_nat (seq 1 n)). reflexivity.
Qed.

Lemma range_seq : range retries = List.map Z.of_nat (seq 0 (Z.to_nat retries)).
Proof. reflexivity. Qed.

Lemma send_asked req c : send http req c = (http (sent c) req, asked req c).
Proof. reflexivity. Qed.

(** One attempt that meets a quota rejection leaves the loop by [break],
    with the cursor advanced. *)
Lemma attempts_rejected req todo attempt d c r :
  http (sent c) req = Got r -> quota_rejected r = true ->
  attempts http req retries (attempt :: todo) d c = (Break, d, _advance_key (asked req c)).
Proof.
  intros Hr Hq. cbn [attempts]. rewrite send_asked, Hr, Hq. reflexivity.
Qed.

Lemma success_not_rejected r : is_success r = true -> quota_rejected r = false.
Proof.
  unfold is_success, quota_rejected. intros H.
  apply andb_true_iff in H as [H1 H2].
  destruct (status_code r =? 403) eqn:E; [|reflexivity].
  apply Z.eqb_eq in E. apply Z.leb_le in H2. lia.
Qed.

(** One attempt that is answered with a 2xx response returns it. *)
Lemma attempts_answered req todo attempt d c r :
  http (sent c) req = Got r -> is_success r = true ->
  attempts http req retries (attempt :: todo) d c = (Return (Some r), d, asked req c).
Proof.
  intros Hr Hs. cbn [attempts]. rewrite send_asked, Hr.
  rewrite (success_not_rejected _ Hs), Hs. reflexivity.
Qed.

Lemma sent_slept req m : forall d c, sent (slept req m d c).2 = (sent c + m)%nat.
Proof.
  induction m as [|m IH]; intros d c; cbn [slept].
  - cbn. lia.
  - rewrite IH. cbn. lia.
Qed.

(** Timeouts that are not the last attempt are slept over. *)
Lemma attempts_slept req m :
  forall a rest d c,
    (forall i, (i < m)%nat -> is_timeout (http (sent c + i)%nat req) = true) ->
    Z.of_nat (a + m) < retries ->
    attempts http req retries (List.map Z.of_nat (seq a m) ++ rest) d c
    = attempts http req retries rest (slept req m d c).1 (slept req m d c).2.
Proof.
  induction m as [|m IH]; intros a rest d c Hto Hlt; [reflexivity|].
  cbn [seq List.map app attempts slept]. rewrite send_asked.
  pose proof (Hto 0%nat ltac:(lia)) as H0. rewrite Nat.add_0_r in H0.
  assert (Hne : (Z.of_nat a =? retries - 1) = false) by (apply Z.eqb_neq; lia).
  assert (Hstep :
    attempts http req retries (List.map Z.of_nat (seq (S a) m) ++ rest)
      (Qred (d * 2)) (record (EvSleep d) (asked req c))
    = attempts http req retries rest
        (slept req m (Qred (d * 2)) (record (EvSleep d) (asked req c))).1
        (slept req m (Qred (d * 2)) (record (EvSleep d) (asked req c))).2).
  { apply IH; [|lia]. intros i Hi. cbn [sent record asked].
    replace (S (sent c) + i)%nat with (sent c + S i)%nat by lia. apply Hto. lia. }
  destruct (http (sent c) req) as [r|[]]; try discriminate H0; rewrite Hne; exact Hstep.
Qed.

(** A timeout on the last attempt ends the call: [return None]. *)
Lemma attempts_last_timeout req rest d c :
  is_timeout (http (sent c) req) = true ->
  attempts http req retries ((retries - 1) :: rest) d c = (Return None, d, asked req c).
Proof.
  intros H0. cbn [attempts]. rewrite send_asked, Z.eqb_refl.
  destruct (http (sent c) req) as [r|[]]; try discriminate H0; reflexivity.
Qed.

Lemma gets_app l1 l2 : gets (l1 ++ l2) = gets l1 ++ gets l2.
Proof. apply omap_app. Qed.

Lemma sleeps_app l1 l2 : sleeps (l1 ++ l2) = sleeps l1 ++ sleeps l2.
Proof. apply omap_app. Qed.

Lemma slept_keys req m : forall d c,
  _keys (slept req m d c).2 = _keys c /\ _key_index (slept req m d c).2 = _key_index c.
Proof.
  induction m as [|m IH]; intros d c; cbn [slept]; [done|].
  destruct (IH (Qred (d * 2)) (record (EvSleep d) (asked req c))) as [-> ->]. done.
Qed.

Lemma slept_gets req m : forall d c,
  gets (log (slept req m d c).2) = gets (log c) ++ replicate m req.
Proof.
  induction m as [|m IH]; intros d c; cbn [slept].
  - cbn. by rewrite app_nil_r.
  - rewrite IH. cbn [log record asked]. rewrite !gets_app. cbn.
    rewrite app_nil_r, <- app_assoc. reflexivity.
Qed.

Lemma iter_backoff i j :
  Nat.iter i (fun d => Qred (d * 2)) (backoff j) = backoff (j + i).
Proof.
  induction i as [|i IH].
  - by rewrite Nat.add_0_r.
  - rewrite Nat.iter_succ, IH. replace (j + S i)%nat with (S (j + i)) by lia.
    unfold backoff. by rewrite Nat.iter_succ.
Qed.

Lemma slept_delay req m : forall j c,
  (slept req m (backoff j) c).1 = backoff (j + m).
Proof.
  induction m as [|m IH]; intros j c; cbn [slept].
  - by rewrite Nat.add_0_r.
  - change (Qred (backoff j * 2)) with (backoff (S j)). rewrite IH. f_equal. lia.
Qed.

Lemma slept_sleeps req m : forall j c,
  sleeps (log (slept req m (backoff j) c).2)
  = sleeps (log c) ++ List.map backoff (seq j m).
Proof.
  induction m as [|m IH]; intros j c; cbn [slept].
  - cbn. by rewrite app_nil_r.
  - change (Qred (backoff j * 2)) with (backoff (S j)). rewrite IH.
    cbn [log record asked]. rewrite !sleeps_app. cbn.
    rewrite app_nil_r, <- app_assoc. reflexivity.
Qed.

(** Under timeouts only, the inner loop makes every attempt it has, one
    request each, and returns [None]. *)
Lemma attempts_timeouts req d c :
  0 < retries ->
  (forall i, (i < Z.to_nat retries)%nat -> is_timeout (http (sent c + i)%nat req) = true) ->
  attempts http req retries (range retries) d c
  = (Return None, (slept req (Z.to_nat retries - 1) d c).1,
     asked req (slept req (Z.to_nat retries - 1) d c).2).
Proof.
  intros Hpos Hto. rewrite range_seq.
  destruct (Z.to_nat retries) as [|n] eqn:En; [lia|].
  replace (S n - 1)%nat with n by lia.
  replace (S n) with (n + 1)%nat by lia.
  rewrite seq_app, map_app. cbn [seq List.map Nat.add].
  rewrite attempts_slept; [|intros i Hi; apply Hto; lia|lia].
  replace (Z.of_nat n) with (retries - 1) by lia.
  apply attempts_last_timeout. rewrite sent_slept. apply Hto. lia.
Qed.

(** With no attempt configured the inner loop is over at once. *)
Lemma attempts_none req d c :
  retries <= 0 -> attempts http req retries (range retries) d c = (Exhausted, d, c).
Proof.
  intros H. rewrite range_seq. replace (Z.to_nat retries) with 0%nat by lia. reflexivity.
Qed.

(** *** The cursor *)

Lemma advance_keys c : _keys (_advance_key c) = _keys c.
Proof. unfold _advance_key. by destruct (1 <? length (_keys c))%nat. Qed.

Lemma advance_sent c : sent (_advance_key c) = sent c.
Proof. unfold _advance_key. by destruct (1 <? length (_keys c))%nat. Qed.

Lemma advance_index c :
  well_formed c ->
  _key_index (_advance_key c) = ((_key_index c + 1) mod length (_keys c))%nat.
Proof.
  unfold well_formed, _advance_key. intros Hwf.
  destruct (1 <? length (_keys c))%nat eqn:E; [reflexivity|].
  apply Nat.ltb_ge in E.
  assert (length (_keys c) = 1%nat) as -> by lia.
  rewrite Nat.mod_1_r. lia.
Qed.

Lemma advance_well_formed c : well_formed c -> well_formed (_advance_key c).
Proof.
  intros Hwf. unfold well_formed. rewrite advance_index, advance_keys by done.
  apply Nat.mod_upper_bound. unfold well_formed in Hwf. lia.
Qed.

Lemma advance_gets c : gets (log (_advance_key c)) = gets (log c).
Proof.
  unfold _advance_key. destruct (1 <? length (_keys c))%nat; [|reflexivity].
  cbn [log record]. rewrite gets_app. cbn. by rewrite app_nil_r.
Qed.

Lemma advance_sleeps c : sleeps (log (_advance_key c)) = sleeps (log c).
Proof.
  unfold _advance_key. destruct (1 <? length (_keys c))%nat; [|reflexivity].
  cbn [log record]. rewrite sleeps_app. cbn. by rewrite app_nil_r.
Qed.

Lemma api_key_credential c : well_formed c -> api_key c = Ret (credential c 0).
Proof.
  unfold well_formed, api_key, credential. intros Hwf.
  rewrite Nat.add_0_r, Nat.mod_small by done.
  destruct (lookup_lt_is_Some_2 _ _ Hwf) as [k ->]. reflexivity.
Qed.

Lemma credential_advance c i :
  well_formed c -> credential (_advance_key c) i = credential c (S i).
Proof.
  intros Hwf. unfold credential. rewrite advance_index, advance_keys by done.
  rewrite Nat.Div0.add_mod_idemp_l.
  do 2 f_equal. f_equal. lia.
Qed.

(** [__init__] leaves the cursor on the first of the credentials it kept. *)
Lemma init_well_formed api_keys c :
  init api_keys = Ret c ->
  well_formed c /\ _key_index c = 0%nat /\ sent c = 0%nat /\ log c = [].
Proof.
  unfold init, well_formed.
  destruct (List.filter _ api_keys) as [|k rest] eqn:E; [discriminate|].
  intros H. injection H as <-. cbn. split_and!; (done || lia).
Qed.

(** *** Whatever the service answers *)

(** The inner loop asks the same request a number of times, at least once
    when it has an attempt, and its sleeps continue the doubling. *)
Lemma attempts_any req todo : forall j c,
  let out := attempts http req retries todo (backoff j) c in
  _keys out.2 = _keys c
  /\ (well_formed c -> well_formed out.2)
  /\ (exists n, (n <= length todo)%nat /\ (todo <> [] -> (1 <= n)%nat)
       /\ gets (log out.2) = gets (log c) ++ replicate n req)
  /\ (exists m, sleeps (log out.2) = sleeps (log c) ++ List.map backoff (seq j m)
       /\ out.1.2 = backoff (j + m)).
Proof.
  induction todo as [|attempt rest IH]; intros j c; cbn zeta.
  - cbn [attempts fst snd]. split_and!; try done.
    + exists 0%nat. split_and!; try done. cbn. by rewrite app_nil_r.
    + exists 0%nat. cbn. by rewrite app_nil_r, Nat.add_0_r.
  - cbn [attempts]. rewrite send_asked.
    assert (Hone : gets (log (asked req c)) = gets (log c) ++ replicate 1 req)
      by (cbn [log asked]; by rewrite gets_app).
    assert (Hnone : sleeps (log (asked req c)) = sleeps (log c) ++ List.map backoff (seq j 0))
      by (cbn [log asked]; rewrite sleeps_app; cbn; by rewrite app_nil_r).
    assert (Hstop : forall f,
      _keys (asked req c) = _keys c
      /\ (well_formed c -> well_formed (asked req c))
      /\ (exists n, (n <= length (attempt :: rest))%nat
           /\ (attempt :: rest <> [] -> (1 <= n)%nat)
           /\ gets (log (asked req c)) = gets (log c) ++ replicate n req)
      /\ (exists m, sleeps (log (asked req c))
                    = sleeps (log c) ++ List.map backoff (seq j m)
           /\ (f : flow, backoff j).2 = backoff (j + m))).
    { intros f. split_and!; try done.
      - exists 1%nat. split_and!; [cbn; lia|done|exact Hone].
      - exists 0%nat. split; [exact Hnone|cbn; by rewrite Nat.add_0_r]. }
    assert (Hretry :
      let out := attempts http req retries rest (Qred (backoff j * 2))
                   (record (EvSleep (backoff j)) (asked req c)) in
      _keys out.2 = _keys c
      /\ (well_formed c -> well_formed out.2)
      /\ (exists n, (n <= length (attempt :: rest))%nat
           /\ (attempt :: rest <> [] -> (1 <= n)%nat)
           /\ gets (log out.2) = gets (log c) ++ replicate n req)
      /\ (exists m, sleeps (log out.2) = sleeps (log c) ++ List.map backoff (seq j m)
           /\ out.1.2 = backoff (j + m))).
    { cbn zeta. change (Qred (backoff j * 2)) with (backoff (S j)).
      destruct (IH (S j) (record (EvSleep (backoff j)) (asked req c)))
        as (Hk & Hw & (n & Hn & _ & Hg) & (m & Hs & Hd)).
      split_and!.
      - by rewrite Hk.
      - intros Hwf. apply Hw. exact Hwf.
      - exists (S n). split_and!; [cbn; lia|lia|].
        rewrite Hg. cbn [log record asked]. rewrite !gets_app. cbn.
        rewrite app_nil_r, <- app_assoc. reflexivity.
      - exists (S m). split.
        + rewrite Hs. cbn [log record asked]. rewrite !sleeps_app. cbn.
          rewrite app_nil_r, <- app_assoc. reflexivity.
        + rewrite Hd. f_equal. lia. }
    destruct (http (sent c) req) as [r|[| | | |cls]].
    + destruct (quota_rejected r).
      * cbn [fst snd]. destruct (Hstop Break) as (Hk & Hw & (n & Hn) & (m & Hm)).
        split_and!.
        -- by rewrite advance_keys.
        -- intros Hwf. apply advance_well_formed, Hw, Hwf.
        -- exists n. by rewrite advance_gets.
        -- exists m. by rewrite advance_sleeps.
      * destruct (is_success r); apply Hstop.
    + destruct (attempt =? retries - 1); [apply Hstop|apply Hretry].
    + destruct (attempt =? retries - 1); [apply Hstop|apply Hretry].
    + destruct (attempt =? retries - 1); [apply Hstop|apply Hretry].
    + apply Hstop.
    + apply Hstop.
Qed.

Section Call.

Variable url : string.
Variable params : gmap string param.

Lemma rotated_spec m : forall c,
  well_formed c ->
  well_formed (rotated url params m c)
  /\ _keys (rotated url params m c) = _keys c
  /\ _key_index (rotated url params m c)
     = ((_key_index c + m) mod length (_keys c))%nat
  /\ sent (rotated url params m c) = (sent c + m)%nat
  /\ gets (log (rotated url params m c))
     = gets (log c)
       ++ List.map (fun i => with_key url params (credential c i)) (seq 0 m)
  /\ sleeps (log (rotated url params m c)) = sleeps (log c)
  /\ forall i, credential (rotated url params m c) i = credential c (m + i).
Proof.
  induction m as [|m IH]; intros c Hwf; cbn [rotated].
  - split_and!; try done.
    + rewrite Nat.add_0_r, Nat.mod_small; done.
    + cbn. by rewrite app_nil_r.
  - set (c1 := _advance_key (asked (with_key url params (credential c 0)) c)).
    assert (Hwf1 : well_formed c1) by (apply advance_well_formed; exact Hwf).
    destruct (IH c1 Hwf1) as (H1 & H2 & H3 & H4 & H5 & H6 & H7).
    assert (Hk : _keys c1 = _keys c) by (unfold c1; by rewrite advance_keys).
    assert (Hi : _key_index c1 = ((_key_index c + 1) mod length (_keys c))%nat)
      by (unfold c1; rewrite advance_index by exact Hwf; reflexivity).
    assert (Hc : forall i, credential c1 i = credential c (S i))
      by (intros i; unfold c1; rewrite credential_advance by exact Hwf; reflexivity).
    split_and!.
    + exact H1.
    + by rewrite H2.
    + rewrite H3, Hk, Hi, Nat.Div0.add_mod_idemp_l.
      f_equal. lia.
    + rewrite H4. unfold c1. rewrite advance_sent. cbn. lia.
    + rewrite H5. unfold c1 at 1. rewrite advance_gets. cbn [log asked].
      rewrite gets_app. cbn [seq List.map]. rewrite <- app_assoc. f_equal. cbn. f_equal.
      rewrite <- seq_shift, List.map_map. apply List.map_ext. intros i. by rewrite Hc.
    + rewrite H6. unfold c1. rewrite advance_sleeps. cbn [log asked].
      rewrite sleeps_app. cbn. by rewrite app_nil_r.
    + intros i. rewrite H7, Hc. f_equal.
Qed.

(** Credentials that are rejected are passed over, one request each. *)
Lemma key_loop_rotated m : forall left d c,
  0 < retries -> well_formed c ->
  (forall i, (i < m)%nat -> rejects http (with_key url params (credential c i))) ->
  key_loop http url params retries (m + left) d c
  = key_loop http url params retries left d (rotated url params m c).
Proof.
  induction m as [|m IH]; intros left d c Hpos Hwf Hrej; [reflexivity|].
  cbn [Nat.add key_loop rotated]. rewrite api_key_credential by exact Hwf.
  destruct (range_pos Hpos) as [rest ->].
  destruct (Hrej 0%nat ltac:(lia) (sent c)) as (r & Hr & Hq).
  fold (with_key url params (credential c 0)).
  rewrite (attempts_rejected _ _ _ _ _ _ Hr Hq).
  apply IH; [exact Hpos|by apply advance_well_formed|].
  intros i Hi. rewrite credential_advance by exact Hwf. apply Hrej. lia.
Qed.

(** Whatever the service answers, the sleeps of a call continue the
    doubling and the cursor stays inside the credential list. *)
Lemma key_loop_any left : forall j c,
  well_formed c ->
  let out := key_loop http url params retries left (backoff j) c in
  _keys out.2 = _keys c
  /\ well_formed out.2
  /\ exists m, sleeps (log out.2) = sleeps (log c) ++ List.map backoff (seq j m).
Proof.
  induction left as [|left IH]; intros j c Hwf; cbn zeta.
  - cbn [key_loop snd]. split_and!; try done. exists 0%nat. cbn. by rewrite app_nil_r.
  - cbn [key_loop]. rewrite api_key_credential by exact Hwf.
    fold (with_key url params (credential c 0)).
    pose proof (attempts_any (with_key url params (credential c 0)) (range retries) j c)
      as Hany. cbn zeta in Hany.
    destruct (attempts http (with_key url params (credential c 0)) retries
                (range retries) (backoff j) c) as [[f d] c1].
    cbn [fst snd] in Hany. destruct Hany as (Hk & Hw & _ & (m & Hs & Hd)).
    destruct f as [r| | |e]; cbn [snd];
      try (split_and!; [exact Hk|by apply Hw|by exists m]).
    subst d. destruct (IH (j + m)%nat c1 (Hw Hwf)) as (Hk' & Hw' & (m' & Hs')).
    split_and!.
    + by rewrite Hk'.
    + exact Hw'.
    + exists (m + m')%nat. rewrite Hs', Hs, <- app_assoc, seq_app, map_app. reflexivity.
Qed.

End Call.

(** *** The backoff *)

Lemma backoff_double i : (backoff (S i) == 2 * backoff i)%Q.
Proof.
  unfold backoff. rewrite Nat.iter_succ, Qred_correct. ring.
Qed.

Lemma backoff_positive i : (0 < backoff i)%Q.
Proof.
  induction i as [|i IH]; [reflexivity|].
  rewrite backoff_double.
  apply (Qmult_lt_0_compat 2); [reflexivity|exact IH].
Qed.

Lemma backoff_step i : (backoff i < backoff (S i))%Q.
Proof.
  rewrite backoff_double. pose proof (backoff_positive i) as H.
  assert (E : (2 * backoff i == backoff i + backoff i)%Q) by ring.
  rewrite E. rewrite <- (Qplus_0_l (backoff i)) at 1.
  apply Qplus_lt_le_compat; [exact H|apply Qle_refl].
Qed.

Lemma backoff_increasing i j : (i < j)%nat -> (backoff i < backoff j)%Q.
Proof.
  induction 1 as [|j Hle IH]; [apply backoff_step|].
  eapply Qlt_trans; [exact IH|apply backoff_step].
Qed.

Lemma backoff_run_increasing j m a b x y :
  (a < b)%nat ->
  List.map backoff (seq j m) !! a = Some x ->
  List.map backoff (seq j m) !! b = Some y ->
  (x < y)%Q.
Proof.
  intros Hab Ha Hb.
  apply list_lookup_fmap_Some in Ha as (ia & -> & Ha).
  apply list_lookup_fmap_Some in Hb as (ib & -> & Hb).
  apply lookup_seq in Ha as [-> _]. apply lookup_seq in Hb as [-> _].
  apply backoff_increasing. lia.
Qed.

End Client.

Section Rotation.
Import YouTubeClient ClientSpec.

Variable http : Http.
Variable url : string.
Variable params : gmap string param.
Variable retries : Z.
Variable c : client.
Hypothesis attempts_configured : 0 < retries.
Hypothesis cursor_inside : well_formed c.

Let req (i : nat) : Request := with_key url params (credential c i).
Let out := _get http url params retries c.

Lemma keys_nonempty : exists n, length (_keys c) = S n.
Proof.
  unfold well_formed in cursor_inside.
  destruct (length (_keys c)) as [|n]; [lia|by exists n].
Qed.

(** Every credential sits some places after the cursor. *)
Lemma credential_reaches key :
  key ∈ _keys c ->
  exists i, (i < length (_keys c))%nat /\ credential c i = key.
Proof.
  intros Hin. apply list_elem_of_lookup in Hin as [idx Hidx].
  pose proof (lookup_lt_Some _ _ _ Hidx) as Hlt.
  set (N := length (_keys c)) in *. set (k := _key_index c).
  assert (Hk : (k < N)%nat) by exact cursor_inside.
  exists ((idx + N - k) mod N)%nat. split; [apply Nat.mod_upper_bound; lia|].
  unfold credential. fold N k. rewrite Nat.Div0.add_mod_idemp_r.
  replace (k + (idx + N - k))%nat with (idx + 1 * N)%nat by lia.
  rewrite Nat.Div0.mod_add, Nat.mod_small by lia. by rewrite Hidx.
Qed.

(** When all but the last credential are rejected, one request goes to each
    of them in turn and at least one to the last. *)
Lemma rotation_reaches_last :
  (forall i, (i < length (_keys c) - 1)%nat -> rejects http (req i)) ->
  exists n, (1 <= n)%nat
    /\ gets (log out.2)
       = gets (log c) ++ List.map req (seq 0 (length (_keys c) - 1))
         ++ replicate n (req (length (_keys c) - 1)).
Proof.
  intros Hrej. destruct keys_nonempty as [N' HN]. subst out. unfold _get.
  rewrite HN in *. replace (S N' - 1)%nat with N' in * by lia.
  replace (S N') with (N' + 1)%nat by lia.
  rewrite key_loop_rotated by done.
  destruct (rotated_spec url params N' c cursor_inside)
    as (Hwf & Hkeys & _ & _ & Hgets & _ & Hcred).
  set (c' := rotated url params N' c) in *.
  cbn [key_loop]. rewrite api_key_credential by exact Hwf.
  rewrite Hcred, Nat.add_0_r. fold (with_key url params (credential c N')).
  fold (req N').
  pose proof (attempts_any http retries (req N') (range retries) 0 c') as Hany.
  cbn zeta in Hany. change (backoff 0) with (1 # 2)%Q in Hany.
  destruct (attempts http (req N') retries (range retries) (1 # 2) c') as [[f d] c1].
  cbn [fst snd] in Hany. destruct Hany as (_ & _ & (n & _ & Hn & Hg) & _).
  exists n. split.
  - apply Hn. destruct (range_pos retries attempts_configured) as [rest ->]. done.
  - assert (Hfinal : gets (log c1)
        = gets (log c) ++ List.map req (seq 0 N') ++ replicate n (req N'))
      by (rewrite Hg, Hgets, <- app_assoc; reflexivity).
    destruct f; exact Hfinal.
Qed.

(** A rejected credential followed by one that answers: the answer is
    returned and the cursor is one further. *)
Lemma rotation_then_answer r :
  rejects http (req 0) -> answers http (req 1) r ->
  out.1 = Ret (Some r)
  /\ _key_index out.2 = ((_key_index c + 1) mod length (_keys c))%nat.
Proof.
  intros Hrej [Hok Hans]. destruct keys_nonempty as [N' HN]. subst out. unfold _get.
  rewrite HN. change (S N') with (1 + N')%nat.
  rewrite key_loop_rotated; [|done|done|intros i Hi; by replace i with 0%nat by lia].
  destruct (rotated_spec url params 1 c cursor_inside)
    as (Hwf & Hkeys & Hidx & _ & _ & _ & Hcred).
  set (c' := rotated url params 1 c) in *.
  destruct N' as [|N''].
  - (* one credential only: it cannot both be rejected and answer *)
    exfalso. assert (E : req 1 = req 0).
    { unfold req, credential. rewrite HN, !Nat.mod_1_r. reflexivity. }
    destruct (Hrej 0%nat) as (r' & Hr' & Hq). rewrite <- E, Hans in Hr'.
    injection Hr' as <-. rewrite (success_not_rejected _ Hok) in Hq. discriminate.
  - cbn [key_loop]. rewrite api_key_credential by exact Hwf.
    rewrite Hcred. cbn [Nat.add]. fold (with_key url params (credential c 1)). fold (req 1).
    destruct (range_pos retries attempts_configured) as [rest ->].
    rewrite (attempts_answered http retries _ _ _ _ _ _ (Hans (sent c')) Hok).
    cbn [fst snd asked _key_index]. split; [reflexivity|]. rewrite Hidx, HN. reflexivity.
Qed.

(** Once every credential has been rejected the call fails, after one
    request to each and no sleep. *)
Lemma rotation_exhausted :
  (forall i, (i < length (_keys c))%nat -> rejects http (req i)) ->
  out.1 = Ret None
  /\ gets (log out.2) = gets (log c) ++ List.map req (seq 0 (length (_keys c)))
  /\ sleeps (log out.2) = sleeps (log c)
  /\ _key_index out.2 = _key_index c.
Proof.
  intros Hrej. subst out. unfold _get.
  pose proof (key_loop_rotated http retries url params (length (_keys c)) 0 (1 # 2) c
                attempts_configured cursor_inside Hrej) as E.
  rewrite Nat.add_0_r in E. rewrite E. cbn [key_loop fst snd].
  destruct (rotated_spec url params (length (_keys c)) c cursor_inside)
    as (_ & _ & Hidx & _ & Hgets & Hsleeps & _).
  split_and!; try done.
  rewrite Hidx. replace (_key_index c + length (_keys c))%nat
    with (_key_index c + 1 * length (_keys c))%nat by lia.
  rewrite Nat.Div0.mod_add. apply Nat.mod_small. exact cursor_inside.
Qed.

Lemma range_split j :
  (j < Z.to_nat retries)%nat ->
  exists rest, range retries = List.map Z.of_nat (seq 0 j) ++ Z.of_nat j :: rest.
Proof.
  intros Hj. unfold range.
  replace (Z.to_nat retries) with (j + S (Z.to_nat retries - S j))%nat by lia.
  rewrite seq_app, map_app. cbn [seq List.map Nat.add]. eauto.
Qed.

(** The attempts spent on a credential before it is rejected, and the
    rejection itself, are not charged to the next credential: it is given
    every configured attempt. *)
Lemma rotation_restarts_attempts j r :
  (j < Z.to_nat retries)%nat ->
  (forall i, (i < j)%nat -> is_timeout (http (sent c + i)%nat (req 0)) = true) ->
  http (sent c + j)%nat (req 0) = Got r -> quota_rejected r = true ->
  times_out http (req 1) ->
  out.1 = Ret None
  /\ gets (log out.2)
     = gets (log c) ++ replicate (S j) (req 0) ++ replicate (Z.to_nat retries) (req 1).
Proof.
  intros Hj Hto Hr Hq Hnext. destruct keys_nonempty as [N' HN]. subst out. unfold _get.
  rewrite HN. cbn [key_loop]. rewrite api_key_credential by exact cursor_inside.
  fold (with_key url params (credential c 0)). fold (req 0).
  destruct (range_split j Hj) as [rest ->].
  rewrite attempts_slept by (done || lia).
  pose proof (sent_slept (req 0) j (1 # 2) c) as Hsent.
  pose proof (slept_gets (req 0) j (1 # 2) c) as Hgets.
  destruct (slept_keys (req 0) j (1 # 2) c) as [Hkeys Hidx].
  set (c1 := (slept (req 0) j (1 # 2) c).2) in *.
  rewrite <- Hsent in Hr.
  rewrite (attempts_rejected http retries _ _ _ _ _ _ Hr Hq).
  assert (Hwf1 : well_formed (asked (req 0) c1))
    by (unfold well_formed; cbn [asked _keys _key_index]; rewrite Hkeys, Hidx; done).
  assert (Hcred : credential (_advance_key (asked (req 0) c1)) 0 = credential c 1).
  { rewrite credential_advance by exact Hwf1. unfold credential.
    cbn [asked _keys _key_index]. by rewrite Hkeys, Hidx. }
  destruct N' as [|N''].
  - exfalso. assert (E : req 1 = req 0).
    { unfold req, credential. rewrite HN, !Nat.mod_1_r. reflexivity. }
    pose proof (Hnext (sent c1)) as Hn. rewrite E, Hr in Hn. discriminate.
  - cbn [key_loop]. rewrite api_key_credential by (by apply advance_well_formed).
    rewrite Hcred. fold (with_key url params (credential c 1)). fold (req 1).
    rewrite attempts_timeouts by (done || intros; apply Hnext).
    cbn [fst snd]. split; [reflexivity|].
    cbn [log asked]. rewrite gets_app, slept_gets, advance_gets.
    cbn [log asked]. rewrite gets_app, Hgets. cbn [gets omap].
    rewrite <- !app_assoc. f_equal.
    replace (S j) with (j + 1)%nat by lia. rewrite replicate_add, <- app_assoc.
    f_equal. cbn [replicate app]. f_equal.
    replace (Z.to_nat retries) with (Z.to_nat retries - 1 + 1)%nat at 2 by lia.
    rewrite replicate_add. reflexivity.
Qed.

End Rotation.

Section ClientClaims.
Import YouTubeClient ClientSpec.

(** C3. With [N] credentials and the cursor on one of them: when all but
    the last credential (counted from the cursor) are rejected, the call
    asks every one of the [N] credentials; when the credential under the
    cursor is rejected and the next one answers, the answer is returned and
    the cursor is on the next credential, modulo [N]; the attempts spent on
    a rejected credential and the rejection itself leave the next credential
    all of its attempts; and when every credential has been asked once and
    rejected, the call fails with no result. *)
Theorem C3_rotation (http : Http) (url : string) (params : gmap string param)
    (retries : Z) (c : client) :
  0 < retries -> well_formed c ->
  let N := length (_keys c) in
  let req := fun i => with_key url params (credential c i) in
  let out := _get http url params retries c in
  ((forall i, (i < N - 1)%nat -> rejects http (req i)) ->
     exists made n,
       gets (log out.2) = gets (log c) ++ made
       /\ (1 <= n)%nat
       /\ made = List.map req (seq 0 (N - 1)) ++ replicate n (req (N - 1)%nat)
       /\ forall key, key ∈ _keys c -> with_key url params key ∈ made)
  /\ (forall r, rejects http (req 0%nat) -> answers http (req 1%nat) r ->
        out.1 = Ret (Some r)
        /\ _key_index out.2 = ((_key_index c + 1) mod N)%nat)
  /\ (forall j r,
        (j < Z.to_nat retries)%nat ->
        (forall i, (i < j)%nat -> is_timeout (http (sent c + i)%nat (req 0%nat)) = true) ->
        http (sent c + j)%nat (req 0%nat) = Got r -> quota_rejected r = true ->
        times_out http (req 1%nat) ->
        out.1 = Ret None
        /\ gets (log out.2)
           = gets (log c) ++ replicate (S j) (req 0%nat)
             ++ replicate (Z.to_nat retries) (req 1%nat))
  /\ ((forall i, (i < N)%nat -> rejects http (req i)) ->
        out.1 = Ret None
        /\ gets (log out.2) = gets (log c) ++ List.map req (seq 0 N)
        /\ sleeps (log out.2) = sleeps (log c)).
Proof.
  intros Hpos Hwf N req out. split_and!.
  - intros Hrej.
    destruct (rotation_reaches_last http url params retries c Hpos Hwf Hrej) as (n & Hn & Hg).
    exists (List.map req (seq 0 (N - 1)) ++ replicate n (req (N - 1)%nat)), n.
    split_and!; try done.
    intros key Hin. destruct (credential_reaches c Hwf key Hin) as (i & Hi & <-).
    fold (req i). apply elem_of_app.
    destruct (decide (i < N - 1)%nat) as [Hlt|Hge].
    + left. apply list_elem_of_fmap. exists i. split; [done|].
      apply elem_of_seq. lia.
    + right. replace i with (N - 1)%nat by (fold N in Hi; lia).
      destruct n as [|n]; [lia|]. cbn. left.
  - intros r. apply rotation_then_answer; done.
  - intros j r. apply rotation_restarts_attempts; done.
  - intros Hrej.
    destruct (rotation_exhausted http url params retries c Hpos Hwf Hrej) as (H1 & H2 & H3 & _).
    done.
Qed.

(** C7, as the code has it. Under failures to connect, read timeouts and
    write timeouts that persist, the call makes exactly the configured
    number of attempts with the credential under the cursor, sleeps between
    two attempts for [0.5] doubled once per earlier attempt, and returns no
    result instead of raising; whatever the service does, the delays slept
    in a call are [0.5] doubled step by step, hence strictly increasing; and
    a credential the call has moved on to is given exactly the configured
    number of attempts too before the call fails. Any other exception of
    the transport, a connect timeout among them, is not retried: the call
    raises it at the first attempt, having slept for nothing. *)
Theorem C7_retry_ceiling (http : Http) (url : string) (params : gmap string param)
    (retries : Z) (c : client) :
  well_formed c ->
  let req := with_key url params (credential c 0) in
  let out := _get http url params retries c in
  (times_out http req ->
     out.1 = Ret None
     /\ gets (log out.2) = gets (log c) ++ replicate (Z.to_nat retries) req
     /\ sleeps (log out.2)
        = sleeps (log c) ++ List.map backoff (seq 0 (Z.to_nat retries - 1))
     /\ _key_index out.2 = _key_index c)
  /\ (exists m,
        sleeps (log out.2) = sleeps (log c) ++ List.map backoff (seq 0 m)
        /\ forall a b x y,
             (a < b)%nat ->
             List.map backoff (seq 0 m) !! a = Some x ->
             List.map backoff (seq 0 m) !! b = Some y ->
             (x < y)%Q)
  /\ (forall j r,
        (j < Z.to_nat retries)%nat ->
        (forall i, (i < j)%nat -> is_timeout (http (sent c + i)%nat req) = true) ->
        http (sent c + j)%nat req = Got r -> quota_rejected r = true ->
        times_out http (with_key url params (credential c 1)) ->
        out.1 = Ret None
        /\ gets (log out.2)
           = gets (log c) ++ replicate (S j) req
             ++ replicate (Z.to_nat retries) (with_key url params (credential c 1)))
  /\ (forall cls,
        0 < retries ->
        http (sent c) req = Fails (OtherError cls) ->
        out.1 = Raise (OtherError cls)
        /\ gets (log out.2) = gets (log c) ++ [req]
        /\ sleeps (log out.2) = sleeps (log c)
        /\ _key_index out.2 = _key_index c)
  /\ backoff 0 = (1 # 2)%Q
  /\ forall i, (backoff (S i) == 2 * backoff i)%Q.
Proof.
  intros Hwf req out. split_and!.
  - intros Hto. subst out. unfold _get.
    destruct (keys_nonempty c Hwf) as [N' ->]. cbn [key_loop].
    rewrite api_key_credential by exact Hwf.
    fold (with_key url params (credential c 0)). fold req.
    destruct (Z_lt_le_dec 0 retries) as [Hpos|Hnone].
    + rewrite attempts_timeouts by (done || intros; apply Hto). cbn [fst snd].
      change (1 # 2)%Q with (backoff 0).
      destruct (slept_keys req (Z.to_nat retries - 1) (backoff 0) c) as [_ Hidx].
      split_and!; [reflexivity| | |exact Hidx].
      * cbn [log asked]. rewrite gets_app, slept_gets. cbn [gets omap].
        rewrite <- app_assoc. f_equal.
        replace (Z.to_nat retries) with (Z.to_nat retries - 1 + 1)%nat at 2 by lia.
        rewrite replicate_add. reflexivity.
      * cbn [log asked]. rewrite sleeps_app, slept_sleeps. cbn. by rewrite app_nil_r.
    + rewrite attempts_none by done. cbn [fst snd].
      replace (Z.to_nat retries) with 0%nat by lia.
      split_and!; cbn; rewrite ?app_nil_r; done.
  - destruct (key_loop_any http retries url params (length (_keys c)) 0 c Hwf)
      as (_ & _ & (m & Hm)).
    exists m. split; [exact Hm|]. intros a b x y. apply backoff_run_increasing.
  - intros j r Hj. apply rotation_restarts_attempts; [lia|exact Hwf|exact Hj].
  - intros cls Hpos Hfails. subst out. unfold _get.
    destruct (keys_nonempty c Hwf) as [N' ->]. cbn [key_loop].
    rewrite api_key_credential by exact Hwf.
    fold (with_key url params (credential c 0)). fold req.
    destruct (range_pos retries Hpos) as [rest ->]. cbn [attempts].
    rewrite send_asked, Hfails. cbn [fst snd asked log _key_index].
    split_and!; [reflexivity| |by rewrite sleeps_app, app_nil_r|reflexivity].
    by rewrite gets_app.
  - reflexivity.
  - apply backoff_double.
Qed.

End ClientClaims.

Section ClientWitnesses.
Import YouTubeClient ClientSpec Samples.

Lemma two_keys_well_formed : well_formed two_keys.
Proof. unfold well_formed. cbn. lia. Defined.

Lemma C3_rotation_witness :
  (_get first_rejected "u" ∅ 3 two_keys).1 = Ret (Some nothing_live)
  /\ _key_index (_get first_rejected "u" ∅ 3 two_keys).2 = 1%nat
  /\ (exists made, gets (log (_get first_rejected "u" ∅ 3 two_keys).2) = made
        /\ with_key "u" ∅ "k1" ∈ made /\ with_key "u" ∅ "k2" ∈ made)
  /\ (_get first_rejected_then_silence "u" ∅ 3 two_keys).1 = Ret None
  /\ gets (log (_get first_rejected_then_silence "u" ∅ 3 two_keys).2)
     = with_key "u" ∅ "k1" :: replicate 3 (with_key "u" ∅ "k2")
  /\ (_get all_rejected "u" ∅ 3 two_keys).1 = Ret None
  /\ gets (log (_get all_rejected "u" ∅ 3 two_keys).2)
     = [with_key "u" ∅ "k1"; with_key "u" ∅ "k2"].
Proof.
  assert (Hpos : 0 < 3) by lia.
  destruct (C3_rotation first_rejected "u" ∅ 3 two_keys Hpos two_keys_well_formed)
    as (Hall & Hnext & _ & _).
  destruct (C3_rotation first_rejected_then_silence "u" ∅ 3 two_keys Hpos
              two_keys_well_formed) as (_ & _ & Hfresh & _).
  destruct (C3_rotation all_rejected "u" ∅ 3 two_keys Hpos two_keys_well_formed)
    as (_ & _ & _ & Hnone).
  assert (Hrej : forall h, (forall n, h n (with_key "u" ∅ "k1") = Got rejection) ->
                           rejects h (with_key "u" ∅ (credential two_keys 0))).
  { intros h Hh n. exists rejection. split; [apply Hh|reflexivity]. }
  destruct (Hnext nothing_live) as [Hres Hcur].
  { apply Hrej. intros n. reflexivity. }
  { split; [reflexivity|intros n; reflexivity]. }
  destruct Hall as (made & n & Hmade & _ & _ & Hin).
  { intros i Hi. replace i with 0%nat by (cbn in Hi; lia). apply Hrej. intros m. reflexivity. }
  destruct (Hfresh 0%nat rejection) as [Hres' Hgets'].
  { cbn. lia. }
  { intros i Hi. lia. }
  { reflexivity. }
  { reflexivity. }
  { intros n'. reflexivity. }
  destruct Hnone as (Hres'' & Hgets'' & _).
  { intros i Hi. exists rejection. split; [|reflexivity].
    destruct i as [|[|i]]; [reflexivity|reflexivity|cbn in Hi; lia]. }
  split_and!.
  - exact Hres.
  - exact Hcur.
  - exists made. split_and!.
    + exact Hmade.
    + apply Hin. cbn. left.
    + apply Hin. cbn. right. left.
  - exact Hres'.
  - exact Hgets'.
  - exact Hres''.
  - exact Hgets''.
Defined.

Lemma C7_retry_ceiling_witness :
  (_get silence "u" ∅ 3 two_keys).1 = Ret None
  /\ gets (log (_get silence "u" ∅ 3 two_keys).2) = replicate 3 (with_key "u" ∅ "k1")
  /\ sleeps (log (_get silence "u" ∅ 3 two_keys).2) = [(1 # 2)%Q; 1%Q]
  /\ _key_index (_get silence "u" ∅ 3 two_keys).2 = 0%nat.
Proof.
  destruct (C7_retry_ceiling silence "u" ∅ 3 two_keys two_keys_well_formed) as (H & _).
  apply H. intros n. reflexivity.
Defined.

(** C7 as stated fails for connect timeouts: the first attempt raises
    [ConnectTimeout], which the call does not catch; one request is made,
    nothing is slept, and the call raises instead of returning no
    result. *)
Lemma C7_counterexample :
  (forall n req, connect_timeout n req = Fails (OtherError "ConnectTimeout"))
  /\ (_get connect_timeout "u" ∅ 3 two_keys).1 = Raise (OtherError "ConnectTimeout")
  /\ gets (log (_get connect_timeout "u" ∅ 3 two_keys).2) = [with_key "u" ∅ "k1"]
  /\ sleeps (log (_get connect_timeout "u" ∅ 3 two_keys).2) = [].
Proof. split_and!; [intros n req|..]; reflexivity. Qed.

End ClientWitnesses.

(** * Properties of the resolver *)

Section Resolver.
Import YouTubeClient ClientSpec.

Variable http : Http.
Variable channel : string.

Ltac run_call :=
  repeat match goal with
         | H : (_, _) = (_, _) |- _ => injection H as ? ?; subst
         | H : context [match ?x with _ => _ end] |- _ => destruct x eqn:?; try discriminate
         end.

(** Once it has the broadcast id, [get_live_now] does not come back with
    [None]: what it returns is a descriptor of that broadcast. *)
Lemma describe_returns v c x c' :
  describe http channel v c = (Ret x, c') ->
  exists li, x = Some li /\ video_id li = v /\ channel_id li = channel.
Proof.
  unfold describe, bind, current_key, lift, typed, ret. intros H.
  run_call. all: eexists; split_and!; reflexivity.
Qed.

Lemma get_channel_title_unavailable c key c' :
  api_key c = Ret key ->
  _get http channels_url (channel_params channel key) 3 c = (Ret None, c') ->
  get_channel_title http channel c = (Ret None, c').
Proof.
  intros Hk Hg. unfold get_channel_title, bind, current_key. by rewrite Hk, Hg.
Qed.

(** The details lookup failed: title and start time are absent, the rest
    is as the title lookup has it. *)
Lemma describe_without_details v c key c2 t c3 :
  api_key c = Ret key ->
  _get http videos_url (video_params v key) 3 c = (Ret None, c2) ->
  get_channel_title http channel c2 = (Ret t, c3) ->
  describe http channel v c
  = (Ret (Some {| channel_id := channel; channel_title := t; video_id := v;
                  video_title := None; scheduled_start_time := None |}), c3).
Proof.
  intros Hk Hg Ht. unfold describe, bind, current_key, lift, typed, ret.
  rewrite Hk, Hg. cbv beta iota. rewrite Ht. reflexivity.
Qed.

(** The title lookup failed: the channel title is absent, the rest is as
    the details lookup has it. *)
Lemma describe_without_title v c key r2 c2 key2 c3 :
  api_key c = Ret key ->
  _get http videos_url (video_params v key) 3 c = (Ret r2, c2) ->
  api_key c2 = Ret key2 ->
  _get http channels_url (channel_params channel key2) 3 c2 = (Ret None, c3) ->
  (forall x c',
     describe http channel v c = (Ret x, c') ->
     c' = c3
     /\ exists li, x = Some li /\ channel_title li = None
                   /\ video_id li = v /\ channel_id li = channel)
  /\ (forall resp d2 vitems t s title sched,
        r2 = Some resp ->
        json_of resp = Ret d2 -> get d2 "items" (JArr []) = Ret vitems ->
        video_details vitems = Ret (t, s) ->
        as_opt_str t = Some title -> as_opt_str s = Some sched ->
        describe http channel v c
        = (Ret (Some {| channel_id := channel; channel_title := None; video_id := v;
                        video_title := title; scheduled_start_time := sched |}), c3)).
Proof.
  intros Hk Hg Hk2 Hg2.
  pose proof (get_channel_title_unavailable c2 key2 c3 Hk2 Hg2) as Ht.
  unfold describe, bind, current_key, lift, typed, ret. rewrite Hk, Hg. cbv beta iota.
  split.
  - destruct r2 as [resp|].
    + destruct (json_of resp) as [d2| |]; [|discriminate..].
      destruct (get d2 "items" (JArr [])) as [vitems| |]; [|discriminate..].
      destruct (video_details vitems) as [[t s]| |]; [|discriminate..].
      rewrite Ht. cbn [fst snd].
      destruct (as_opt_str t) as [title|]; [|discriminate].
      destruct (as_opt_str s) as [sched|]; [|discriminate].
      intros x c' [= <- <-]. split; [done|]. eexists. split_and!; reflexivity.
    + destruct (video_details (JArr [])) as [[t s]| |]; [|discriminate..].
      rewrite Ht. cbn [fst snd].
      destruct (as_opt_str t) as [title|]; [|discriminate].
      destruct (as_opt_str s) as [sched|]; [|discriminate].
      intros x c' [= <- <-]. split; [done|]. eexists. split_and!; reflexivity.
  - intros resp d2 vitems t s title sched -> Hd Hi Hv Htitle Hsched.
    rewrite Hd, Hi, Hv, Ht. cbn [fst snd]. by rewrite Htitle, Hsched.
Qed.

(** The live search was answered and lists no item. *)
Lemma get_live_now_nothing c key r c1 data items :
  api_key c = Ret key ->
  _get http search_url (live_search_params channel key) 3 c = (Ret (Some r), c1) ->
  json_of r = Ret data -> get data "items" (JArr []) = Ret items ->
  truthy items = false ->
  get_live_now http channel c = (Ret None, c1).
Proof.
  intros Hk Hg Hd Hi Hempty. unfold get_live_now, bind, current_key, lift, ret.
  by rewrite Hk, Hg, Hd, Hi, Hempty.
Qed.

Lemma get_live_now_unavailable c key c1 :
  api_key c = Ret key ->
  _get http search_url (live_search_params channel key) 3 c = (Ret None, c1) ->
  get_live_now http channel c = (Ret None, c1).
Proof.
  intros Hk Hg. unfold get_live_now, bind, current_key. by rewrite Hk, Hg.
Qed.

Lemma get_live_now_found c key r c1 v :
  api_key c = Ret key ->
  _get http search_url (live_search_params channel key) 3 c = (Ret (Some r), c1) ->
  live_item r = Some v ->
  get_live_now http channel c = describe http channel v c1.
Proof.
  intros Hk Hg Hv. unfold get_live_now, bind, current_key, lift, typed.
  rewrite Hk, Hg. unfold live_item in Hv.
  destruct (json_of r) as [data| |]; try discriminate.
  destruct (get data "items" (JArr [])) as [items| |]; try discriminate.
  destruct (truthy items); try discriminate. cbn [negb].
  destruct (getitem0 items) as [item| |]; try discriminate.
  destruct (getitem item "id") as [id| |]; try discriminate.
  destruct (getitem id "videoId") as [[]| |]; try discriminate.
  injection Hv as ->. reflexivity.
Qed.

End Resolver.

(** *** Strings of channel-id characters *)

Section IdStrings.
Import YouTubeClient ClientSpec.

Lemma prefix_head b w a s : String.prefix (String b w) (String a s) = true -> b = a.
Proof. cbn. destruct (ascii_dec b a); [done|discriminate]. Qed.

Lemma id_char_not_colon a : id_char a = true -> a <> ":"%char.
Proof. intros H ->. discriminate H. Qed.

Lemma all_chars_drop p n : forall s,
  all_chars p s = true -> all_chars p (PyStr.drop n s) = true.
Proof.
  induction n as [|n IH]; intros s H; [exact H|].
  destruct s as [|a s]; [exact H|]. cbn in *.
  apply andb_true_iff in H as [_ H]. by apply IH.
Qed.

Lemma all_chars_rev_app p s1 : forall s2,
  all_chars p s1 = true -> all_chars p s2 = true ->
  all_chars p (String.rev_app s1 s2) = true.
Proof.
  induction s1 as [|a s1 IH]; intros s2 H1 H2; [exact H2|]. cbn in *.
  apply andb_true_iff in H1 as [Ha H1]. apply IH; [exact H1|]. cbn. by rewrite Ha.
Qed.

Lemma rev_app_rev_app s1 : forall s2 s3,
  String.rev_app (String.rev_app s1 s2) s3 = String.rev_app s2 (s1 +:+ s3).
Proof.
  induction s1 as [|a s1 IH]; intros s2 s3; [reflexivity|].
  cbn [String.rev_app]. rewrite IH. reflexivity.
Qed.

Lemma append_empty s : s +:+ "" = s.
Proof.
  induction s as [|a s IH]; [reflexivity|].
  change (String a (s +:+ "") = String a s). by rewrite IH.
Qed.

Lemma rev_rev s : String.rev (String.rev s) = s.
Proof.
  unfold String.rev. rewrite rev_app_rev_app. cbn [String.rev_app]. apply append_empty.
Qed.

(** Stripping codes that are foreign to ids leaves a string of id
    characters as it is. *)
Lemma lstrip_from_id codes fuel s :
  foreign_to_ids codes = true -> all_chars id_char s = true ->
  PyStr.lstrip_from codes fuel s = s.
Proof.
  intros Hcodes Hs. destruct fuel as [|fuel]; [reflexivity|]. cbn [PyStr.lstrip_from].
  assert (List.find (fun w => PyStr.startswith w s) codes = None) as ->; [|reflexivity].
  induction codes as [|w codes IH]; [reflexivity|]. cbn in *.
  apply andb_true_iff in Hcodes as [Hw Hcodes]. rewrite (IH Hcodes).
  destruct w as [|b w]; [discriminate|].
  destruct s as [|a s]; [reflexivity|].
  destruct (PyStr.startswith (String b w) (String a s)) eqn:Hp; [|reflexivity].
  apply prefix_head in Hp as ->. cbn in Hs. apply andb_true_iff in Hs as [Ha _].
  by rewrite Ha in Hw.
Qed.

Lemma strip_id s : all_chars id_char s = true -> PyStr.strip s = s.
Proof.
  intros Hs. unfold PyStr.strip, PyStr.lstrip, PyStr.rstrip.
  rewrite (lstrip_from_id PyStr.whitespace) by done.
  rewrite (lstrip_from_id (List.map String.rev PyStr.whitespace)).
  - apply rev_rev.
  - reflexivity.
  - by apply all_chars_rev_app.
Qed.

Lemma match_here_id s : all_chars id_char s = true -> match_here s = None.
Proof.
  intros Hs. unfold match_here.
  destruct (PyStr.strip_prefix "http" s) as [s1|] eqn:H1; [|reflexivity]. cbn.
  assert (Hs1 : all_chars id_char s1 = true).
  { unfold PyStr.strip_prefix in H1. destruct (PyStr.startswith "http" s); [|discriminate].
    injection H1 as <-. exact (all_chars_drop id_char (String.length "http") s Hs). }
  assert (Hs2 : all_chars id_char (optional "s" s1) = true).
  { unfold optional, PyStr.strip_prefix. destruct (PyStr.startswith "s" s1); [|exact Hs1].
    exact (all_chars_drop id_char (String.length "s") s1 Hs1). }
  assert (PyStr.strip_prefix "://" (optional "s" s1) = None) as ->; [|reflexivity].
  unfold PyStr.strip_prefix.
  destruct (optional "s" s1) as [|a s2]; [reflexivity|].
  destruct (PyStr.startswith "://" (String a s2)) eqn:Hp; [|reflexivity].
  apply prefix_head in Hp. cbn in Hs2. apply andb_true_iff in Hs2 as [Ha _].
  by destruct (id_char_not_colon a Ha).
Qed.

Lemma search_id s : all_chars id_char s = true -> search s = None.
Proof.
  induction s as [|a s IH]; intros Hs.
  - reflexivity.
  - cbn [search]. rewrite (match_here_id _ Hs).
    cbn in Hs. apply andb_true_iff in Hs as [_ Hs]. by apply IH.
Qed.

(** A string of id characters is its own hint. *)
Lemma hint_of_id s : all_chars id_char s = true -> hint_of s = s.
Proof.
  intros Hs. unfold hint_of, extract_channel_hint.
  rewrite (strip_id s Hs), (search_id s Hs). reflexivity.
Qed.

End IdStrings.

Section ResolverClaims.
Import YouTubeClient ClientSpec Samples.

(** C6, as the code has it. A live search that fails makes [get_live_now]
    return [None], and so does a live search that is answered and lists no
    item. Once the live search has found a broadcast, a lookup that fails
    afterwards does not: the result is a descriptor with the channel id and
    the broadcast id; when the details lookup fails its title and start time
    are absent, whatever the title lookup returns; when the title lookup
    fails its channel title is absent, whatever the details lookup
    returned; and when both fail all three are absent. *)
Theorem C6_lookup_failures (http : Http) (channel : string) (c : client) (key : string) :
  api_key c = Ret key ->
  (forall c1,
     _get http search_url (live_search_params channel key) 3 c = (Ret None, c1) ->
     get_live_now http channel c = (Ret None, c1))
  /\ (forall r c1 data items,
        _get http search_url (live_search_params channel key) 3 c = (Ret (Some r), c1) ->
        json_of r = Ret data -> get data "items" (JArr []) = Ret items ->
        truthy items = false ->
        get_live_now http channel c = (Ret None, c1))
  /\ (forall r c1 v,
        _get http search_url (live_search_params channel key) 3 c = (Ret (Some r), c1) ->
        live_item r = Some v ->
        (forall x c', get_live_now http channel c = (Ret x, c') ->
           exists li, x = Some li /\ video_id li = v /\ channel_id li = channel)
        /\ (forall key1 c2,
              api_key c1 = Ret key1 ->
              _get http videos_url (video_params v key1) 3 c1 = (Ret None, c2) ->
              (forall t c3,
                 get_channel_title http channel c2 = (Ret t, c3) ->
                 get_live_now http channel c
                 = (Ret (Some {| channel_id := channel; channel_title := t;
                                 video_id := v; video_title := None;
                                 scheduled_start_time := None |}), c3))
              /\ (forall key2 c3,
                    api_key c2 = Ret key2 ->
                    _get http channels_url (channel_params channel key2) 3 c2
                    = (Ret None, c3) ->
                    get_live_now http channel c
                    = (Ret (Some {| channel_id := channel; channel_title := None;
                                    video_id := v; video_title := None;
                                    scheduled_start_time := None |}), c3)))
        /\ (forall key1 r2 c2 key2 c3,
              api_key c1 = Ret key1 ->
              _get http videos_url (video_params v key1) 3 c1 = (Ret r2, c2) ->
              api_key c2 = Ret key2 ->
              _get http channels_url (channel_params channel key2) 3 c2 = (Ret None, c3) ->
              (forall x c',
                 get_live_now http channel c = (Ret x, c') ->
                 c' = c3
                 /\ exists li, x = Some li /\ channel_title li = None
                               /\ video_id li = v /\ channel_id li = channel)
              /\ (forall resp d2 vitems t s title sched,
                    r2 = Some resp ->
                    json_of resp = Ret d2 -> get d2 "items" (JArr []) = Ret vitems ->
                    video_details vitems = Ret (t, s) ->
                    as_opt_str t = Some title -> as_opt_str s = Some sched ->
                    get_live_now http channel c
                    = (Ret (Some {| channel_id := channel; channel_title := None;
                                    video_id := v; video_title := title;
                                    scheduled_start_time := sched |}), c3)))).
Proof.
  intros Hk. split_and!.
  - intros c1. by apply get_live_now_unavailable.
  - intros r c1 data items. by apply get_live_now_nothing.
  - intros r c1 v Hg Hv.
    rewrite (get_live_now_found http channel c key r c1 v Hk Hg Hv). split_and!.
    + intros x c'. apply describe_returns.
    + intros key1 c2 Hk1 Hg1. split.
      * intros t c3. by apply (describe_without_details http channel v c1 key1 c2).
      * intros key2 c3 Hk2 Hg2.
        apply (describe_without_details http channel v c1 key1 c2); [done..|].
        by apply (get_channel_title_unavailable http channel c2 key2).
    + intros key1 r2 c2 key2 c3 Hk1 Hg1 Hk2 Hg2.
      by apply (describe_without_title http channel v c1 key1 r2 c2 key2 c3).
Qed.

Lemma C6_lookup_failures_witness :
  get_live_now only_search "UCchan" two_keys
  = (Ret (Some {| channel_id := "UCchan"; channel_title := None; video_id := "v1";
                  video_title := None; scheduled_start_time := None |}),
     (get_live_now only_search "UCchan" two_keys).2).
Proof.
  assert (Hk : api_key two_keys = Ret "k1") by reflexivity.
  destruct (C6_lookup_failures only_search "UCchan" two_keys "k1" Hk) as (_ & _ & H).
  destruct (H one_live
              (_get only_search search_url (live_search_params "UCchan" "k1") 3 two_keys).2
              "v1") as (_ & H' & _).
  { reflexivity. }
  { reflexivity. }
  destruct (H' "k1"
     (_get only_search videos_url (video_params "v1" "k1") 3
        (_get only_search search_url (live_search_params "UCchan" "k1") 3 two_keys).2).2)
    as [_ H''].
  { reflexivity. }
  { reflexivity. }
  rewrite (H'' "k1" (get_live_now only_search "UCchan" two_keys).2).
  - reflexivity.
  - reflexivity.
  - reflexivity.
Defined.

(** C6 as stated fails: the live search finds broadcast [v1], both later
    lookups fail, and the result is a descriptor, not [None]. *)
Lemma C6_counterexample :
  exists r c1 c2 c3,
    _get only_search search_url (live_search_params "UCchan" "k1") 3 two_keys
    = (Ret (Some r), c1)
    /\ live_item r = Some "v1"
    /\ _get only_search videos_url (video_params "v1" "k1") 3 c1 = (Ret None, c2)
    /\ _get only_search channels_url (channel_params "UCchan" "k1") 3 c2 = (Ret None, c3)
    /\ get_live_now only_search "UCchan" two_keys
       = (Ret (Some {| channel_id := "UCchan"; channel_title := None; video_id := "v1";
                       video_title := None; scheduled_start_time := None |}), c3)
    /\ (get_live_now only_search "UCchan" two_keys).1 <> Ret None.
Proof.
  do 4 eexists. split_and!; try (vm_compute; reflexivity).
  vm_compute. discriminate.
Qed.

(** C8, as the code has it. The shape is looked for in the hint, which is
    the channel part of a channel URL found in the input and otherwise the
    input without the white space around it: when the hint starts with [UC]
    and has at least 20 characters, the hint is returned, nothing is sent and
    the client is as it was. An input of that shape that has no white space
    at its ends and holds no channel URL is its own hint and is returned
    unchanged; so is every input of that shape made of the characters of a
    channel id, letters, digits, [_] and [-]. *)
Theorem C8_canonical_id (http : Http) (s : string) (c : client) :
  (PyStr.startswith "UC" (hint_of s) = true -> 20 <= PyStr.len (hint_of s) ->
   resolve_channel_id http s c = (Ret (Some (hint_of s)), c))
  /\ (PyStr.startswith "UC" s = true -> 20 <= PyStr.len s ->
      PyStr.strip s = s -> extract_channel_hint s = None ->
      resolve_channel_id http s c = (Ret (Some s), c))
  /\ (PyStr.startswith "UC" s = true -> 20 <= PyStr.len s ->
      all_chars id_char s = true ->
      resolve_channel_id http s c = (Ret (Some s), c)).
Proof.
  assert (H : PyStr.startswith "UC" (hint_of s) = true -> 20 <= PyStr.len (hint_of s) ->
              resolve_channel_id http s c = (Ret (Some (hint_of s)), c)).
  { intros Hp Hl. unfold resolve_channel_id. rewrite Hp.
    destruct (Z.leb_spec 20 (PyStr.len (hint_of s))); [reflexivity|lia]. }
  split_and!.
  - exact H.
  - intros Hp Hl Hs He.
    assert (Hh : hint_of s = s) by (unfold hint_of; by rewrite He, Hs).
    rewrite Hh in H. by apply H.
  - intros Hp Hl Hid. rewrite (hint_of_id s Hid) in H. by apply H.
Qed.

Lemma C8_canonical_id_witness :
  resolve_channel_id nothing_found "UCabcdefghijklmnopqrstuv" two_keys
  = (Ret (Some "UCabcdefghijklmnopqrstuv"), two_keys)
  /\ resolve_channel_id nothing_found "https://www.youtube.com/channel/UC-_345678901234567890"
       two_keys
     = (Ret (Some "UC-_345678901234567890"), two_keys).
Proof.
  split.
  - apply (C8_canonical_id nothing_found "UCabcdefghijklmnopqrstuv" two_keys).
    + reflexivity.
    + vm_compute. discriminate.
    + reflexivity.
  - apply (C8_canonical_id nothing_found
             "https://www.youtube.com/channel/UC-_345678901234567890" two_keys).
    + reflexivity.
    + vm_compute. discriminate.
Defined.

(** C8 as stated fails: this input starts with [UC] and has 20 characters,
    yet a search request is sent and the input is not what comes back. *)
Lemma C8_counterexample :
  PyStr.startswith "UC" "UC34567890123456789 " = true
  /\ PyStr.len "UC34567890123456789 " = 20
  /\ (resolve_channel_id nothing_found "UC34567890123456789 " two_keys).1 = Ret None
  /\ sent (resolve_channel_id nothing_found "UC34567890123456789 " two_keys).2 = 1%nat
  /\ (resolve_channel_id nothing_found "UC345678901234567890 " two_keys).1
     = Ret (Some "UC345678901234567890").
Proof. split_and!; vm_compute; reflexivity. Qed.

End ResolverClaims.

(** * Properties of the polling loop *)

Section Loop.
Import YouTubeClient Main MainSpec.

Variable E : Env.
Variable cooldown_seconds : Z.

(** *** The parts of the loop body *)

Lemma for_targets_store c v text chats : forall w,
  store (for_targets E c v text chats w).2 = store w.
Proof.
  induction chats as [|k rest IH]; intros w; cbn [for_targets]; [done|].
  unfold send. destruct (uncaught _); cbn [snd]; [done|by rewrite IH].
Qed.

Lemma for_targets_counts c v text chats : forall w,
  ticks (for_targets E c v text chats w).2 = ticks w
  /\ polls (for_targets E c v text chats w).2 = polls w
  /\ (sends w <= sends (for_targets E c v text chats w).2 <= sends w + length chats)%nat.
Proof.
  induction chats as [|k rest IH]; intros w; cbn [for_targets length].
  - cbn. split_and!; (done || lia).
  - unfold send. destruct (uncaught _); cbn [snd].
    + cbn. split_and!; (done || lia).
    + match goal with |- context [for_targets E c v text rest ?w0] =>
        destruct (IH w0) as (-> & -> & H) end.
      cbn in *. split_and!; (done || lia).
Qed.

Lemma for_targets_trace c v text chats : forall w,
  trace (for_targets E c v text chats w).2
  = trace w ++ deliveries E c v text chats (sends w).
Proof.
  induction chats as [|k rest IH]; intros w; cbn [for_targets deliveries].
  - cbn. by rewrite app_nil_r.
  - unfold send. destruct (uncaught _); cbn [snd trace]; [done|].
    rewrite IH. cbn [trace sends]. by rewrite <- app_assoc.
Qed.

Lemma for_targets_result c v text chats : forall w,
  (for_targets E c v text chats w).1 = fanout E text chats (sends w).
Proof.
  induction chats as [|k rest IH]; intros w; cbn [for_targets fanout]; [done|].
  unfold send. destruct (uncaught _); cbn [fst]; [done|]. by rewrite IH.
Qed.

Lemma fanout_caught text chats : sends_caught E -> forall n, fanout E text chats n = None.
Proof.
  intros Hc. induction chats as [|k rest IH]; intros n; cbn; [done|].
  by rewrite Hc.
Qed.

Lemma fanout_uncaught text chats : forall n e,
  fanout E text chats n = Some e -> is_Exception e = false.
Proof.
  induction chats as [|k rest IH]; intros n e; cbn [fanout]; [discriminate|].
  destruct (send_message E n k text) as [e'|] eqn:Hs; cbn [uncaught]; [|apply IH].
  destruct (is_Exception e') eqn:He; [apply IH|]. by intros [= <-].
Qed.

Lemma commit_trace c live w :
  trace (commit E cooldown_seconds c live w).2
  = trace w ++ commit_events E cooldown_seconds c live w.
Proof.
  unfold commit, commit_events, cooldown_end, now, with_store. cbn.
  destruct (0 <? cooldown_seconds); cbn; [|by rewrite <- !app_assoc].
  destruct (plus_seconds _ cooldown_seconds); cbn; by rewrite <- !app_assoc.
Qed.

Lemma commit_store c live w :
  store (commit E cooldown_seconds c live w).2 = committed E cooldown_seconds c live w.
Proof.
  unfold commit, committed, cooldown_end, now, with_store. cbn.
  destruct (0 <? cooldown_seconds); [|reflexivity].
  destruct (plus_seconds _ cooldown_seconds); reflexivity.
Qed.

Lemma commit_outcome c live w :
  (commit E cooldown_seconds c live w).1 = commit_result E cooldown_seconds w.
Proof.
  unfold commit, commit_result, cooldown_end, now, with_store. cbn.
  destruct (0 <? cooldown_seconds); [|reflexivity].
  destruct (plus_seconds _ cooldown_seconds); reflexivity.
Qed.

Lemma commit_counts c live w :
  (ticks w <= ticks (commit E cooldown_seconds c live w).2)%nat
  /\ polls (commit E cooldown_seconds c live w).2 = polls w
  /\ sends (commit E cooldown_seconds c live w).2 = sends w.
Proof.
  unfold commit, now, with_store. cbn.
  destruct (0 <? cooldown_seconds); [|cbn; split_and!; (done || lia)].
  destruct (plus_seconds _ cooldown_seconds); cbn; split_and!; (done || lia).
Qed.

(** The overflow, in numbers. *)
Lemma plus_seconds_spec d s :
  0 < s ->
  plus_seconds d s
  = if (s / 86400 <=? 999999999) && (0 <=? instant d + s * 1000000)
       && (instant d + s * 1000000 <=? max_instant)
    then Some {| instant := instant d + s * 1000000; tzaware := tzaware d |}
    else None.
Proof.
  intros Hs. unfold plus_seconds, timedelta.
  assert (0 <= s / 86400) by (apply Z.div_pos; lia).
  rewrite Z.abs_eq by done.
  destruct (s / 86400 <=? 999999999); cbn [andb]; reflexivity.
Qed.

Lemma commit_result_cases w :
  commit_result E cooldown_seconds w = None
  \/ commit_result E cooldown_seconds w = Some (OtherError "OverflowError").
Proof.
  unfold commit_result. destruct (0 <? cooldown_seconds); [|by left].
  destruct (cooldown_end E cooldown_seconds w); [by left|by right].
Qed.

Lemma notify_store c live w : store (notify E c live w).2 = store w.
Proof. unfold notify. apply for_targets_store. Qed.

Lemma notify_trace c live w :
  trace (notify E c live w).2
  = trace w ++ deliveries E c (video_id live) (message c live)
                 (chat_order E (targets (store w) c)) (sends w).
Proof. unfold notify. apply for_targets_trace. Qed.

Lemma notify_result c live w :
  (notify E c live w).1
  = fanout E (message c live) (chat_order E (targets (store w) c)) (sends w).
Proof. unfold notify. apply for_targets_result. Qed.

Lemma notify_counts c live w :
  ticks (notify E c live w).2 = ticks w
  /\ polls (notify E c live w).2 = polls w
  /\ (sends w <= sends (notify E c live w).2)%nat.
Proof.
  unfold notify.
  destruct (for_targets_counts c (video_id live) (message c live)
              (chat_order E (targets (store w) c)) w) as (-> & -> & H).
  split_and!; (done || lia).
Qed.

(** The cooldown check changes nothing but the number of clock readings. *)
Lemma in_cooldown_world c w :
  (in_cooldown E c w).2 = w \/ (in_cooldown E c w).2 = ticked w.
Proof.
  unfold in_cooldown, now.
  destruct (Storage.get_cooldown_until (store w) c) as [cd|]; [|by left].
  destruct (String.eqb cd ""); [by left|]. cbn.
  destruct (fromisoformat E cd) as [d|]; [|by right].
  destruct (before _ d); by right.
Qed.

Lemma targets_committed c live w :
  targets (committed E cooldown_seconds c live w) c = targets (store w) c.
Proof.
  unfold committed, targets, Storage.all_subscribers_for, Storage.list_destinations.
  destruct (0 <? cooldown_seconds); [|reflexivity].
  destruct (cooldown_end E cooldown_seconds w); reflexivity.
Qed.

Lemma detect_cases c w : detected E cooldown_seconds c w (detect E cooldown_seconds c w).
Proof.
  unfold detect, get_live_now. cbn [store].
  destruct (live_now E (polls w) c) as [[live|]|e] eqn:Hlive.
  - destruct (decide (Storage.get_last_live (store w) c = Some (video_id live)))
      as [Hsame|Hnew].
    + by eapply DetectKnown.
    + set (w2 := {| store := store w; ticks := ticks w; polls := S (polls w);
                    sends := sends w; trace := trace w ++ [EvGetLiveNow c] |}).
      pose proof (commit_outcome c live w2) as Hres.
      pose proof (commit_store c live w2) as Hstore.
      pose proof (commit_trace c live w2) as Htrace.
      destruct (commit_counts c live w2) as (_ & _ & Hsends).
      assert (Hev : commit_events E cooldown_seconds c live w2
                    = commit_events E cooldown_seconds c live w) by reflexivity.
      assert (Hcm : committed E cooldown_seconds c live w2
                    = committed E cooldown_seconds c live w) by reflexivity.
      assert (Hcr : commit_result E cooldown_seconds w2 = commit_result E cooldown_seconds w)
        by reflexivity.
      rewrite Hev in Htrace. rewrite Hcm in Hstore. rewrite Hcr in Hres.
      destruct (commit E cooldown_seconds c live w2) as [r w3]. cbn [fst snd] in *.
      assert (Hresult : detection_result E cooldown_seconds c live w
                        = match r with
                          | Some e => Some e
                          | None => (notify E c live w3).1
                          end).
      { unfold detection_result. rewrite <- Hres. destruct r as [e|]; [done|].
        rewrite notify_result, Hstore, targets_committed, Hsends. reflexivity. }
      destruct r as [e|].
      * rewrite <- Hresult. eapply DetectNew; [done..|].
        rewrite Htrace. unfold w2. cbn [trace]. unfold detection_events.
        rewrite <- Hres. by rewrite app_nil_r, <- app_assoc.
      * replace (notify E c live w3)
          with ((notify E c live w3).1, (notify E c live w3).2) by (by destruct (notify _ _ _ _)).
        rewrite <- Hresult. eapply DetectNew; [done..| |].
        -- by rewrite notify_store.
        -- rewrite notify_trace, Htrace, Hstore, targets_committed, Hsends.
           unfold w2. cbn [trace sends]. unfold detection_events. rewrite <- Hres.
           by rewrite <- !app_assoc.
  - by eapply DetectNotLive.
  - by eapply DetectRaised.
Qed.

Lemma detect_counts c w :
  (ticks w <= ticks (detect E cooldown_seconds c w).2)%nat
  /\ polls (detect E cooldown_seconds c w).2 = S (polls w)
  /\ (sends w <= sends (detect E cooldown_seconds c w).2)%nat.
Proof.
  unfold detect, get_live_now.
  destruct (live_now E (polls w) c) as [[live|]|e]; cbn [snd ticks polls sends];
    [|split_and!; (done || lia)..].
  destruct (decide _); cbn [snd ticks polls sends]; [split_and!; (done || lia)|].
  match goal with |- context [commit E cooldown_seconds c live ?w0] =>
    destruct (commit_counts c live w0) as (Ht & Hp & Hs);
    destruct (commit E cooldown_seconds c live w0) as [[e|] w3] end;
    cbn [snd] in *.
  - cbn in *. split_and!; (done || lia).
  - destruct (notify_counts c live w3) as (-> & -> & Hn). cbn in *. split_and!; lia.
Qed.

Lemma process_channel_cases c w :
  processed E cooldown_seconds c w (process_channel E cooldown_seconds c w).
Proof.
  unfold process_channel.
  pose proof (in_cooldown_world c w) as Hw.
  destruct (in_cooldown E c w) as [skip w1] eqn:Hgate. cbn [snd] in Hw.
  destruct skip.
  - assert (w1 = ticked w) as ->; [|constructor].
    destruct Hw as [->| ->]; [|reflexivity]. exfalso.
    unfold in_cooldown, now in Hgate.
    destruct (Storage.get_cooldown_until (store w) c) as [cd|]; [|discriminate].
    destruct (String.eqb cd ""); [discriminate|]. cbn in Hgate.
    destruct (fromisoformat E cd) as [d|]; [destruct (before _ d)|];
      injection Hgate as _ Hw; apply (f_equal ticks) in Hw; cbn in Hw; lia.
  - eapply Asked; [exact Hw|apply detect_cases].
Qed.

(** Everything a step appends to the trace is about its channel; the
    entries of the other channels, the subscriptions and the destinations
    are as they were; the counters do not go back. *)
Lemma deliveries_about c v text chats : forall n,
  Forall (fun e => channel_of e = Some c) (deliveries E c v text chats n).
Proof.
  induction chats as [|k rest IH]; intros n; cbn [deliveries]; constructor; [done|].
  destruct (uncaught _); [constructor|apply IH].
Qed.

Lemma committed_frame c live w :
  Storage.subscriptions (committed E cooldown_seconds c live w)
  = Storage.subscriptions (store w)
  /\ Storage.destinations (committed E cooldown_seconds c live w)
     = Storage.destinations (store w)
  /\ forall c0, c0 <> c ->
       entry (committed E cooldown_seconds c live w) c0 = entry (store w) c0.
Proof.
  unfold committed.
  destruct (0 <? cooldown_seconds); [destruct (cooldown_end E cooldown_seconds w)|];
    (split_and!; [reflexivity..|]); intros c0 Hne; unfold entry; cbn;
    by rewrite !lookup_insert_ne.
Qed.

Lemma detected_frame c w r :
  detected E cooldown_seconds c w r ->
  (exists evs, trace r.2 = trace w ++ evs /\ Forall (fun e => channel_of e = Some c) evs)
  /\ Storage.subscriptions (store r.2) = Storage.subscriptions (store w)
  /\ Storage.destinations (store r.2) = Storage.destinations (store w)
  /\ forall c0, c0 <> c -> entry (store r.2) c0 = entry (store w) c0.
Proof.
  assert (Hone : Forall (fun e => channel_of e = Some c) [EvGetLiveNow c])
    by (by constructor).
  destruct 1 as [e w' _ Hs Ht|w' _ Hs Ht|live w' _ _ Hs Ht|live w' _ _ Hs Ht]; cbn [snd];
    try (rewrite Hs; split_and!; [by exists [EvGetLiveNow c]|done..]).
  destruct (committed_frame c live w) as (H1 & H2 & H3). rewrite Hs.
  split_and!; try done.
  exists (detection_events E cooldown_seconds c live w). split; [exact Ht|].
  unfold detection_events, commit_events. constructor; [done|].
  apply Forall_app. split.
  - repeat (constructor; [done|]).
    destruct (0 <? cooldown_seconds); [|constructor].
    destruct (cooldown_end E cooldown_seconds w); by repeat constructor.
  - destruct (commit_result E cooldown_seconds w); [constructor|apply deliveries_about].
Qed.

Lemma processed_frame c w r :
  processed E cooldown_seconds c w r ->
  (exists evs, trace r.2 = trace w ++ evs /\ Forall (fun e => channel_of e = Some c) evs)
  /\ Storage.subscriptions (store r.2) = Storage.subscriptions (store w)
  /\ Storage.destinations (store r.2) = Storage.destinations (store w)
  /\ forall c0, c0 <> c -> entry (store r.2) c0 = entry (store w) c0.
Proof.
  destruct 1 as [|w1 r Hw Hd].
  - split_and!; try done. exists []. split; [by rewrite app_nil_r|constructor].
  - pose proof (detected_frame c w1 r Hd) as H. by destruct Hw as [->| ->].
Qed.

Lemma process_channel_ticks c w :
  (ticks w <= ticks (process_channel E cooldown_seconds c w).2)%nat.
Proof.
  unfold process_channel. pose proof (in_cooldown_world c w) as Hw.
  destruct (in_cooldown E c w) as [skip w1]. cbn [snd] in Hw.
  assert (Ht : (ticks w <= ticks w1)%nat) by (destruct Hw as [->| ->]; cbn; lia).
  destruct skip; [exact Ht|].
  destruct (detect_counts c w1) as (H & _). lia.
Qed.

(** *** From the loop body to the loop *)

Lemma reaches_trans w1 w2 w3 :
  reaches E cooldown_seconds w1 w2 -> reaches E cooldown_seconds w2 w3 ->
  reaches E cooldown_seconds w1 w3.
Proof.
  induction 1 as [w|c w w' _ IH|i w w' _ IH]; intros H; [exact H|..].
  - eapply reaches_step, IH, H.
  - eapply reaches_sleep, IH, H.
Qed.

Lemma reaches_for_channels channels : forall w,
  reaches E cooldown_seconds w (for_channels E cooldown_seconds channels w).2.
Proof.
  induction channels as [|c rest IH]; intros w; cbn [for_channels]; [constructor|].
  apply (reaches_step _ _ c).
  destruct (process_channel E cooldown_seconds c w) as [[e|] w1]; cbn [snd];
    [constructor|apply IH].
Qed.

Lemma reaches_sweep interval w :
  reaches E cooldown_seconds w (sweep E interval cooldown_seconds w).2.
Proof.
  unfold sweep.
  pose proof (reaches_for_channels (channel_order E (Storage.all_channels (store w))) w) as H.
  destruct (for_channels E cooldown_seconds _ w) as [r w1]. cbn [snd] in H.
  destruct (uncaught r); cbn [snd]; [exact H|].
  eapply reaches_trans; [exact H|]. apply (reaches_sleep _ _ interval). constructor.
Qed.

Lemma reaches_notifier_loop interval n : forall w,
  reaches E cooldown_seconds w (notifier_loop E interval cooldown_seconds n w).2.
Proof.
  induction n as [|n IH]; intros w; cbn [notifier_loop]; [constructor|].
  pose proof (reaches_sweep interval w) as H.
  destruct (sweep E interval cooldown_seconds w) as [[e|] w1]; cbn [snd] in *; [exact H|].
  eapply reaches_trans; [exact H|apply IH].
Qed.

Section Invariant.

Variable Inv : World -> Prop.
Hypothesis step : forall c w, Inv w -> Inv (process_channel E cooldown_seconds c w).2.
Hypothesis pause : forall interval w, Inv w -> Inv (sleep interval w).

Lemma reaches_invariant w w' : reaches E cooldown_seconds w w' -> Inv w -> Inv w'.
Proof.
  induction 1 as [w|c w w' _ IH|i w w' _ IH]; intros Hw; [exact Hw|..].
  - by apply IH, step.
  - by apply IH, pause.
Qed.

End Invariant.

(** *** Counting notifications *)

Lemma sent_to_app c v chat l1 l2 :
  sent_to c v chat (l1 ++ l2) = (sent_to c v chat l1 + sent_to c v chat l2)%nat.
Proof. unfold sent_to. by rewrite List.filter_app, length_app. Qed.

Lemma filter_other_channel (p : Event -> bool) c' evs :
  (forall e, p e = true -> channel_of e <> Some c') ->
  Forall (fun e => channel_of e = Some c') evs ->
  List.filter p evs = [].
Proof.
  intros Hp. induction 1 as [|e evs He _ IH]; [reflexivity|]. cbn.
  destruct (p e) eqn:Hpe; [by destruct (Hp e Hpe)|exact IH].
Qed.

Lemma send_for_channel c e : send_for c e = true -> channel_of e = Some c.
Proof. destruct e; cbn; try discriminate. by intros ->%bool_decide_eq_true. Qed.

Lemma notification_to_channel c v chat e :
  notification_to c v chat e = true -> channel_of e = Some c.
Proof.
  destruct e; cbn; try discriminate.
  intros H. apply andb_true_iff in H as [H _]. apply andb_true_iff in H as [H _].
  by apply bool_decide_eq_true in H as ->.
Qed.

Lemma poll_of_channel c e : poll_of c e = true -> channel_of e = Some c.
Proof. destruct e; cbn; try discriminate. by intros ->%bool_decide_eq_true. Qed.

(** A fan-out that no exception leaves sends once to each chat of its
    list; one that is left has sent to some of them. *)
Lemma deliveries_sent_to_le c v text chat chats : forall n,
  (sent_to c v chat (deliveries E c v text chats n)
   <= length (List.filter (fun k => bool_decide (k = chat)) chats))%nat.
Proof.
  induction chats as [|k rest IH]; intros n; [cbn; lia|].
  unfold sent_to in *. cbn [deliveries List.filter notification_to].
  rewrite !bool_decide_eq_true_2 by done. cbn [andb].
  specialize (IH (S n)).
  destruct (uncaught _); destruct (bool_decide (k = chat)); cbn [length List.filter] in *; lia.
Qed.

Lemma deliveries_sent_to c v text chat chats :
  sends_caught E -> forall n,
  sent_to c v chat (deliveries E c v text chats n)
  = length (List.filter (fun k => bool_decide (k = chat)) chats).
Proof.
  intros Hc. induction chats as [|k rest IH]; intros n; [reflexivity|].
  unfold sent_to in *. cbn [deliveries List.filter notification_to].
  rewrite !bool_decide_eq_true_2 by done. cbn [andb]. rewrite Hc.
  destruct (bool_decide (k = chat)); cbn; by rewrite IH.
Qed.

Lemma deliveries_length c v text chats :
  sends_caught E -> forall n, length (deliveries E c v text chats n) = length chats.
Proof.
  intros Hc. induction chats as [|k rest IH]; intros n; [reflexivity|].
  cbn [deliveries length]. rewrite Hc. by rewrite IH.
Qed.

Lemma once_in_nodup (chat : Z) chats :
  NoDup chats -> (length (List.filter (fun k => bool_decide (k = chat)) chats) <= 1)%nat.
Proof.
  induction 1 as [|k rest Hk _ IH]; cbn; [lia|].
  destruct (bool_decide (k = chat)) eqn:Hb; [|exact IH].
  apply bool_decide_eq_true in Hb as ->. cbn.
  assert (List.filter (fun k => bool_decide (k = chat)) rest = []) as ->; [|cbn; lia].
  clear IH. induction rest as [|k' rest IH]; [reflexivity|]. cbn.
  rewrite bool_decide_eq_false_2 by (intros ->; apply Hk; left).
  apply IH. intros Hin. apply Hk. by right.
Qed.

Lemma deliveries_no_poll c c0 v text chats : forall n,
  List.filter (poll_of c0) (deliveries E c v text chats n) = [].
Proof.
  induction chats as [|k rest IH]; intros n; cbn [deliveries List.filter poll_of]; [done|].
  destruct (uncaught _); [done|apply IH].
Qed.

Lemma deliveries_are_sends c v text chats : forall n,
  Forall (fun e => is_send e = true) (deliveries E c v text chats n).
Proof.
  induction chats as [|k rest IH]; intros n; cbn [deliveries]; constructor; [done|].
  destruct (uncaught _); [constructor|apply IH].
Qed.

Lemma commit_events_are_writes c live w :
  Forall (fun e => is_write e = true) (commit_events E cooldown_seconds c live w).
Proof.
  unfold commit_events. do 2 (constructor; [done|]).
  destruct (0 <? cooldown_seconds); [|constructor].
  destruct (cooldown_end E cooldown_seconds w); by repeat constructor.
Qed.

Lemma writes_not_sent c v chat l :
  Forall (fun e => is_send e = false) l -> sent_to c v chat l = 0%nat.
Proof.
  intros Hl. unfold sent_to. induction Hl as [|e l He _ IH]; [done|].
  cbn. destruct e; try discriminate; exact IH.
Qed.

Lemma commit_events_not_sent c v chat live w :
  sent_to c v chat (commit_events E cooldown_seconds c live w) = 0%nat.
Proof.
  apply writes_not_sent. eapply Forall_impl; [apply commit_events_are_writes|].
  intros e. by destruct e.
Qed.

(** The notifications of a detection. *)
Lemma detection_sent_to_le c live w chat :
  visits_each_once E ->
  (sent_to c (video_id live) chat (detection_events E cooldown_seconds c live w) <= 1)%nat.
Proof.
  intros Honce. unfold detection_events.
  change (EvGetLiveNow c :: ?l) with ([EvGetLiveNow c] ++ l).
  rewrite !sent_to_app, commit_events_not_sent. cbn [sent_to List.filter notification_to length].
  destruct (commit_result E cooldown_seconds w); [cbn; lia|].
  etransitivity; [apply deliveries_sent_to_le|].
  cbn. apply once_in_nodup. rewrite (Honce _). apply NoDup_elements.
Qed.

(** *** Deduplication *)

Lemma no_send_no_notification c v chat evs :
  List.filter (send_for c) evs = [] -> sent_to c v chat evs = 0%nat.
Proof.
  unfold sent_to. induction evs as [|e evs IH]; [reflexivity|]. cbn.
  destruct (send_for c e) eqn:Hs; [discriminate|]. intros H.
  destruct e; cbn in *; try (by apply IH).
  destruct (bool_decide (channel = c)); [discriminate|]. cbn. by apply IH.
Qed.

Lemma committed_last_live c live w :
  Storage.get_last_live (committed E cooldown_seconds c live w) c = Some (video_id live).
Proof.
  unfold committed, Storage.get_last_live.
  destruct (0 <? cooldown_seconds); [destruct (cooldown_end E cooldown_seconds w)|];
    cbn; by rewrite lookup_insert_eq.
Qed.

(** While the broadcast the resolver reports is the recorded one, a step of
    the loop, for whatever channel, leaves the channel's entries alone and
    sends nothing for it. *)
Lemma step_when_recorded c v c' w :
  steady E c v ->
  Storage.get_last_live (store w) c = Some v ->
  let w' := (process_channel E cooldown_seconds c' w).2 in
  entry (store w') c = entry (store w) c
  /\ exists evs, trace w' = trace w ++ evs /\ List.filter (send_for c) evs = [].
Proof.
  intros Hsteady Hrec. cbn zeta.
  pose proof (process_channel_cases c' w) as Hp.
  destruct (decide (c' = c)) as [->|Hne].
  - destruct Hp as [|w1 r Hw Hd].
    + split; [reflexivity|]. exists []. by rewrite app_nil_r.
    + assert (Hs1 : store w1 = store w) by (by destruct Hw as [->| ->]).
      assert (Ht1 : trace w1 = trace w) by (by destruct Hw as [->| ->]).
      destruct Hd as [e w' _ Hs Ht|w' _ Hs Ht|live w' _ _ Hs Ht|live w' Hlive Hnew _ _];
        cbn [snd].
      1-3: rewrite Hs, Hs1, Ht, Ht1; split; [reflexivity|by exists [EvGetLiveNow c]].
      exfalso. apply Hnew. rewrite Hs1, Hrec. f_equal.
      pose proof (Hsteady (polls w1)) as Hv. rewrite Hlive in Hv. by rewrite Hv.
  - destruct (processed_frame c' w _ Hp) as ((evs & Ht & Hevs) & _ & _ & Hentry).
    split; [by apply Hentry|]. exists evs. split; [exact Ht|].
    apply (filter_other_channel _ c'); [|exact Hevs].
    intros e He Hc. apply send_for_channel in He. congruence.
Qed.

(** In general a step sends nothing for the channel, or it records the
    broadcast and sends for it at most once to a chat. *)
Lemma step_at_most_once c v c' w :
  steady E c v -> visits_each_once E ->
  let w' := (process_channel E cooldown_seconds c' w).2 in
  exists evs, trace w' = trace w ++ evs
    /\ (List.filter (send_for c) evs = []
        \/ (Storage.get_last_live (store w') c = Some v
            /\ forall chat, (sent_to c v chat evs <= 1)%nat)).
Proof.
  intros Hsteady Honce. cbn zeta.
  pose proof (process_channel_cases c' w) as Hp.
  destruct (decide (c' = c)) as [->|Hne].
  - destruct Hp as [|w1 r Hw Hd].
    + exists []. split; [by rewrite app_nil_r|by left].
    + assert (Ht1 : trace w1 = trace w) by (by destruct Hw as [->| ->]).
      destruct Hd as [e w' _ Hs Ht|w' _ Hs Ht|live w' _ _ Hs Ht|live w' Hlive Hnew Hs Ht];
        cbn [snd].
      1-3: exists [EvGetLiveNow c]; rewrite Ht, Ht1; split; [reflexivity|by left].
      exists (detection_events E cooldown_seconds c live w1). rewrite Ht, Ht1.
      split; [reflexivity|right].
      pose proof (Hsteady (polls w1)) as Hv. rewrite Hlive in Hv.
      split.
      * rewrite Hs, committed_last_live. by rewrite Hv.
      * intros chat. rewrite <- Hv. by apply detection_sent_to_le.
  - destruct (processed_frame c' w _ Hp) as ((evs & Ht & Hevs) & _).
    exists evs. split; [exact Ht|left].
    apply (filter_other_channel _ c'); [|exact Hevs].
    intros e He Hc. apply send_for_channel in He. congruence.
Qed.

(** Wherever the loop gets while the resolver keeps reporting the recorded
    broadcast, the channel's entries stay and nothing is sent for the
    channel. *)
Lemma quiet_while_recorded c v w w' :
  steady E c v ->
  Storage.get_last_live (store w) c = Some v ->
  reaches E cooldown_seconds w w' ->
  entry (store w') c = entry (store w) c
  /\ List.filter (send_for c) (trace w') = List.filter (send_for c) (trace w).
Proof.
  intros Hsteady Hrec Hreach.
  apply (reaches_invariant
    (fun w' => entry (store w') c = entry (store w) c
               /\ List.filter (send_for c) (trace w') = List.filter (send_for c) (trace w)))
    with (w := w); [| |exact Hreach|done].
  - intros c' w1 [He Hf].
    assert (Hrec1 : Storage.get_last_live (store w1) c = Some v).
    { unfold entry in He. injection He as H _ _. unfold Storage.get_last_live.
      by rewrite H. }
    destruct (step_when_recorded c v c' w1 Hsteady Hrec1) as (He' & evs & Ht & Hnone).
    split; [by rewrite He'|]. by rewrite Ht, List.filter_app, Hnone, app_nil_r.
  - intros i w1 [He Hf]. split; [exact He|].
    unfold sleep. cbn [trace]. by rewrite List.filter_app, app_nil_r.
Qed.

(** Wherever the loop gets while the resolver reports no other broadcast
    for the channel, every chat has been sent at most one notification for
    that broadcast. *)
Lemma at_most_once c v w w' chat :
  steady E c v -> visits_each_once E ->
  reaches E cooldown_seconds w w' ->
  (sent_to c v chat (trace w') <= sent_to c v chat (trace w) + 1)%nat.
Proof.
  intros Hsteady Honce Hreach.
  enough (sent_to c v chat (trace w') = sent_to c v chat (trace w)
          \/ (Storage.get_last_live (store w') c = Some v
              /\ (sent_to c v chat (trace w') <= sent_to c v chat (trace w) + 1)%nat))
    as [->|[_ H]]; [lia|exact H|].
  apply (reaches_invariant
    (fun w' => sent_to c v chat (trace w') = sent_to c v chat (trace w)
               \/ (Storage.get_last_live (store w') c = Some v
                   /\ (sent_to c v chat (trace w') <= sent_to c v chat (trace w) + 1)%nat)))
    with (w := w); [| |exact Hreach|by left].
  - intros c' w1 [Hsame|[Hrec Hle]].
    + destruct (step_at_most_once c v c' w1 Hsteady Honce) as (evs & Ht & [Hnone|[Hrec Hle]]).
      * left. rewrite Ht, sent_to_app, (no_send_no_notification c v chat evs Hnone). lia.
      * right. split; [exact Hrec|]. rewrite Ht, sent_to_app, Hsame.
        pose proof (Hle chat). lia.
    + destruct (step_when_recorded c v c' w1 Hsteady Hrec) as (He & evs & Ht & Hnone).
      right. split.
      * unfold entry in He. injection He as H _ _. unfold Storage.get_last_live in *.
        by rewrite H.
      * rewrite Ht, sent_to_app, (no_send_no_notification c v chat evs Hnone). lia.
  - intros i w1 H. unfold sleep. cbn [trace store].
    rewrite sent_to_app. cbn. by rewrite Nat.add_0_r.
Qed.

(** *** The cooldown check *)

Lemma in_cooldown_absent c w :
  Storage.get_cooldown_until (store w) c = None -> in_cooldown E c w = (false, w).
Proof. intros H. unfold in_cooldown. by rewrite H. Qed.

Lemma in_cooldown_reads c w s :
  Storage.get_cooldown_until (store w) c = Some s -> s <> "" ->
  (in_cooldown E c w).2 = ticked w.
Proof.
  intros H Hne. unfold in_cooldown, now. rewrite H.
  destruct (String.eqb_spec s ""); [done|]. cbn.
  destruct (fromisoformat E s) as [d|]; [destruct (before _ d)|]; reflexivity.
Qed.

Lemma in_cooldown_skips c w s d :
  Storage.get_cooldown_until (store w) c = Some s -> s <> "" ->
  fromisoformat E s = Some d -> tzaware d = true ->
  clock E (ticks w) < instant d ->
  in_cooldown E c w = (true, ticked w).
Proof.
  intros H Hne Hd Ha Hlt. unfold in_cooldown, now. rewrite H.
  destruct (String.eqb_spec s ""); [done|]. cbn. rewrite Hd.
  unfold before. cbn. rewrite Ha. cbn.
  destruct (Z.ltb_spec (clock E (ticks w)) (instant d)); [reflexivity|lia].
Qed.


(** A stored time stamp without a time zone cannot be compared with the
    clock reading, which has one: the [TypeError] is dropped like a parse
    error, and the channel is not skipped. *)
Lemma in_cooldown_naive c w s d :
  Storage.get_cooldown_until (store w) c = Some s ->
  fromisoformat E s = Some d -> tzaware d = false ->
  (in_cooldown E c w).1 = false.
Proof.
  intros H Hd Ha. unfold in_cooldown, now. rewrite H.
  destruct (String.eqb s ""); [reflexivity|]. cbn. rewrite Hd.
  unfold before. cbn. by rewrite Ha.
Qed.

Lemma process_channel_polls c w :
  (in_cooldown E c w).1 = false ->
  process_channel E cooldown_seconds c w
  = detect E cooldown_seconds c (in_cooldown E c w).2.
Proof.
  intros H. unfold process_channel. destruct (in_cooldown E c w) as [skip w1].
  cbn in H. by subst skip.
Qed.

Lemma detect_polls c w :
  exists evs, trace (detect E cooldown_seconds c w).2 = trace w ++ EvGetLiveNow c :: evs.
Proof.
  destruct (detect_cases c w) as [e w' _ _ Ht|w' _ _ Ht|live w' _ _ _ Ht|live w' _ _ _ Ht];
    cbn [snd]; rewrite Ht; [by exists []..|].
  unfold detection_events. eauto.
Qed.

(** What a step raises: what the resolver raised, the [OverflowError] of
    the cooldown, or what a send raised that is no [Exception]. *)
Lemma detect_raises c w e :
  (detect E cooldown_seconds c w).1 = Some e ->
  live_now E (polls w) c = Raised e
  \/ exists live,
       live_now E (polls w) c = Returned (Some live)
       /\ Storage.get_last_live (store w) c <> Some (video_id live)
       /\ ((commit_result E cooldown_seconds w = Some e /\ e = OtherError "OverflowError")
           \/ (commit_result E cooldown_seconds w = None
               /\ fanout E (message c live) (chat_order E (targets (store w) c)) (sends w)
                  = Some e
               /\ is_Exception e = false)).
Proof.
  destruct (detect_cases c w) as [e' w' Hl _ _|w' _ _ _|live w' _ _ _ _|live w' Hl Hnew _ _];
    cbn [fst]; try discriminate.
  - intros [= <-]. by left.
  - intros He. right. exists live. split_and!; [done..|].
    unfold detection_result in He.
    destruct (commit_result_cases w) as [Hc|Hc]; rewrite Hc in He |- *.
    + right. split_and!; [done..|]. by eapply fanout_uncaught.
    + left. by injection He as <-.
Qed.

(** While the clock reads earlier than a cooldown that is stored for the
    channel, wherever the loop gets, the resolver is not asked about the
    channel and the channel's entries stay. *)
Lemma cooling c s d w w' :
  fromisoformat E "" = None ->
  Storage.get_cooldown_until (store w) c = Some s ->
  fromisoformat E s = Some d -> tzaware d = true ->
  reaches E cooldown_seconds w w' ->
  (forall k, (ticks w <= k < ticks w')%nat -> clock E k < instant d) ->
  entry (store w') c = entry (store w) c
  /\ List.filter (poll_of c) (trace w') = List.filter (poll_of c) (trace w).
Proof.
  intros Hempty Hcd Hd Ha Hreach Hclock.
  assert (Hne : s <> "") by (intros ->; congruence).
  enough ((ticks w <= ticks w')%nat
          /\ ((ticks w' <= ticks w')%nat ->
              entry (store w') c = entry (store w) c
              /\ List.filter (poll_of c) (trace w') = List.filter (poll_of c) (trace w)))
    as [_ H] by (by apply H).
  apply (reaches_invariant
    (fun w1 => (ticks w <= ticks w1)%nat
               /\ ((ticks w1 <= ticks w')%nat ->
                   entry (store w1) c = entry (store w) c
                   /\ List.filter (poll_of c) (trace w1) = List.filter (poll_of c) (trace w))))
    with (w := w); [| |exact Hreach|done].
  - intros c' w1 [Hmono Hquiet].
    pose proof (process_channel_ticks c' w1) as Hstep.
    split; [lia|]. intros Hbound.
    destruct Hquiet as [He Hp]; [lia|].
    destruct (decide (c' = c)) as [->|Hother].
    + assert (Hcd1 : Storage.get_cooldown_until (store w1) c = Some s).
      { unfold entry in He. injection He as _ _ H. unfold Storage.get_cooldown_until in *.
        by rewrite H. }
      assert (Hread : (S (ticks w1) <= ticks (process_channel E cooldown_seconds c w1).2)%nat).
      { unfold process_channel. pose proof (in_cooldown_reads c w1 s Hcd1 Hne) as Hw.
        destruct (in_cooldown E c w1) as [skip w2]. cbn [snd] in Hw. subst w2.
        destruct skip; [cbn; lia|].
        destruct (detect_counts c (ticked w1)) as (H & _). cbn in H. exact H. }
      assert (Hskip : process_channel E cooldown_seconds c w1 = (None, ticked w1)).
      { unfold process_channel.
        rewrite (in_cooldown_skips c w1 s d Hcd1 Hne Hd Ha); [reflexivity|].
        apply Hclock. lia. }
      rewrite Hskip. cbn [snd ticked store trace]. by split.
    + destruct (processed_frame c' w1 _ (process_channel_cases c' w1))
        as ((evs & Ht & Hevs) & _ & _ & Hentry).
      split; [by rewrite Hentry|].
      rewrite Ht, List.filter_app, Hp.
      rewrite (filter_other_channel (poll_of c) c' evs); [by rewrite app_nil_r| |exact Hevs].
      intros e He' Hc. apply poll_of_channel in He'. congruence.
  - intros i w1 [Hmono Hquiet]. split; [exact Hmono|]. intros Hbound.
    destruct Hquiet as [He Hp]; [exact Hbound|]. split; [exact He|].
    unfold sleep. cbn [trace]. by rewrite List.filter_app, app_nil_r.
Qed.

(** *** A detection *)

Lemma process_channel_new c w live :
  (in_cooldown E c w).1 = false ->
  live_now E (polls w) c = Returned (Some live) ->
  Storage.get_last_live (store w) c <> Some (video_id live) ->
  let w1 := (in_cooldown E c w).2 in
  let out := process_channel E cooldown_seconds c w in
  out.1 = detection_result E cooldown_seconds c live w1
  /\ store out.2 = committed E cooldown_seconds c live w1
  /\ trace out.2 = trace w ++ detection_events E cooldown_seconds c live w1
  /\ (ticks w1 = ticks w \/ ticks w1 = S (ticks w))
  /\ store w1 = store w /\ sends w1 = sends w.
Proof.
  intros Hgate Hlive Hnew. cbn zeta. rewrite process_channel_polls by exact Hgate.
  pose proof (in_cooldown_world c w) as Hw.
  set (w1 := (in_cooldown E c w).2) in *.
  assert (Hs1 : store w1 = store w) by (by destruct Hw as [->| ->]).
  assert (Ht1 : trace w1 = trace w) by (by destruct Hw as [->| ->]).
  assert (Hp1 : polls w1 = polls w) by (by destruct Hw as [->| ->]).
  assert (Hn1 : sends w1 = sends w) by (by destruct Hw as [->| ->]).
  assert (Hk1 : ticks w1 = ticks w \/ ticks w1 = S (ticks w))
    by (destruct Hw as [->| ->]; [by left|by right]).
  destruct (detect_cases c w1) as [e w' Hl _ _|w' Hl _ _|live' w' Hl Hk _ _|live' w' Hl _ Hs Ht];
    rewrite Hp1, Hlive in Hl; try discriminate; injection Hl as <-.
  - exfalso. apply Hnew. by rewrite <- Hs1.
  - cbn [fst snd]. rewrite Hs, Ht, Ht1. by split_and!.
Qed.

Lemma count_in_nodup (chat : Z) chats :
  NoDup chats -> chat ∈ chats ->
  length (List.filter (fun k => bool_decide (k = chat)) chats) = 1%nat.
Proof.
  intros Hnd Hin. pose proof (once_in_nodup chat chats Hnd) as Hle.
  enough (1 <= length (List.filter (fun k => bool_decide (k = chat)) chats))%nat by lia.
  clear Hnd Hle. induction Hin as [k rest|k k' rest _ IH]; cbn.
  - rewrite bool_decide_eq_true_2 by done. cbn. lia.
  - destruct (bool_decide (k' = k)); cbn; lia.
Qed.

Lemma count_not_in (chat : Z) chats :
  chat ∉ chats -> length (List.filter (fun k => bool_decide (k = chat)) chats) = 0%nat.
Proof.
  induction chats as [|k rest IH]; intros Hin; [reflexivity|]. cbn.
  rewrite bool_decide_eq_false_2 by (intros ->; apply Hin; left).
  apply IH. intros H. apply Hin. by right.
Qed.

(** When nothing is raised in it, a detection sends once to each recipient
    and to nobody else; after an overflow it sends to nobody. *)
Lemma detection_sent_to c live w chat :
  visits_each_once E -> sends_caught E ->
  commit_result E cooldown_seconds w = None ->
  sent_to c (video_id live) chat (detection_events E cooldown_seconds c live w)
  = if decide (chat ∈ targets (store w) c) then 1%nat else 0%nat.
Proof.
  intros Honce Hcaught Hc. unfold detection_events. rewrite Hc.
  change (EvGetLiveNow c :: ?l) with ([EvGetLiveNow c] ++ l).
  rewrite !sent_to_app, commit_events_not_sent, deliveries_sent_to by done. cbn.
  destruct (decide (chat ∈ targets (store w) c)) as [Hin|Hout].
  - apply count_in_nodup.
    + rewrite (Honce _). apply NoDup_elements.
    + rewrite (Honce _). by apply elem_of_elements.
  - apply count_not_in. rewrite (Honce _). by rewrite elem_of_elements.
Qed.

Lemma detection_overflow c live w e :
  commit_result E cooldown_seconds w = Some e ->
  detection_events E cooldown_seconds c live w
  = EvGetLiveNow c :: commit_events E cooldown_seconds c live w
  /\ List.filter is_send (detection_events E cooldown_seconds c live w) = []
  /\ forall v chat, sent_to c v chat (detection_events E cooldown_seconds c live w) = 0%nat.
Proof.
  intros Hc. unfold detection_events. rewrite Hc, app_nil_r.
  assert (Hw : Forall (fun e => is_send e = false)
                 (EvGetLiveNow c :: commit_events E cooldown_seconds c live w)).
  { constructor; [done|]. eapply Forall_impl; [apply commit_events_are_writes|].
    intros e'. by destruct e'. }
  split_and!; [done| |intros v chat; by apply writes_not_sent].
  clear Hc. induction Hw as [|e' l He _ IH]; [done|]. cbn. by rewrite He.
Qed.

Lemma targets_spec d c chat :
  chat ∈ targets d c
  <-> (exists channels, Storage.subscriptions d !! chat = Some channels /\ c ∈ channels)
      \/ chat ∈ Storage.list_destinations d c.
Proof.
  unfold targets, Storage.all_subscribers_for.
  rewrite elem_of_union, elem_of_dom, elem_of_list_to_set.
  split; (intros [H|H]; [left|by right]).
  - destruct H as [channels H]. apply map_lookup_filter_Some in H as [H1 H2]. eauto.
  - destruct H as (channels & H1 & H2). exists channels.
    by apply map_lookup_filter_Some.
Qed.

(** *** The loop over the channels *)

Lemma for_channels_app pre post : forall w,
  for_channels E cooldown_seconds (pre ++ post) w
  = match for_channels E cooldown_seconds pre w with
    | (None, w1) => for_channels E cooldown_seconds post w1
    | (Some e, w1) => (Some e, w1)
    end.
Proof.
  induction pre as [|c rest IH]; intros w; cbn [app for_channels]; [reflexivity|].
  destruct (process_channel E cooldown_seconds c w) as [[e|] w1]; [reflexivity|apply IH].
Qed.

Lemma process_channel_raises c w e :
  (process_channel E cooldown_seconds c w).1 = Some e ->
  exists w1, (w1 = w \/ w1 = ticked w)
    /\ process_channel E cooldown_seconds c w = detect E cooldown_seconds c w1
    /\ (live_now E (polls w) c = Raised e
        \/ exists live,
             live_now E (polls w) c = Returned (Some live)
             /\ Storage.get_last_live (store w) c <> Some (video_id live)
             /\ ((commit_result E cooldown_seconds w1 = Some e
                  /\ e = OtherError "OverflowError")
                 \/ (commit_result E cooldown_seconds w1 = None
                     /\ fanout E (message c live) (chat_order E (targets (store w) c))
                          (sends w) = Some e
                     /\ is_Exception e = false))).
Proof.
  unfold process_channel. pose proof (in_cooldown_world c w) as Hw.
  destruct (in_cooldown E c w) as [[] w1]; cbn [snd] in Hw; [discriminate|].
  intros He. exists w1. split_and!; [done..|].
  assert (Hp : polls w1 = polls w) by (by destruct Hw as [->| ->]).
  assert (Hs : store w1 = store w) by (by destruct Hw as [->| ->]).
  assert (Hn : sends w1 = sends w) by (by destruct Hw as [->| ->]).
  apply detect_raises in He. by rewrite Hp, Hs, Hn in He.
Qed.

Lemma for_channels_none channels : forall w w1,
  for_channels E cooldown_seconds channels w = (None, w1) ->
  w1 = process_all E cooldown_seconds channels w.
Proof.
  induction channels as [|c rest IH]; intros w w1 H; cbn [for_channels process_all] in *.
  - by injection H as <-.
  - destruct (process_channel E cooldown_seconds c w) as [[e|] w']; [discriminate|].
    by apply IH.
Qed.

(** In calm surroundings no step raises. *)
Lemma process_channel_calm c w :
  calm E cooldown_seconds -> (process_channel E cooldown_seconds c w).1 = None.
Proof.
  intros (Hnever & Hcaught & Hrange).
  destruct (process_channel E cooldown_seconds c w).1 as [e|] eqn:He; [|done]. exfalso.
  apply process_channel_raises in He
    as (w1 & _ & _ & [Hl|(live & _ & _ & [[Hc _]|(_ & Hf & _)])]).
  - pose proof (Hnever (polls w) c) as H. by rewrite Hl in H.
  - unfold commit_result, cooldown_end in Hc.
    destruct (Z.ltb_spec 0 cooldown_seconds) as [Hpos|]; [|discriminate].
    pose proof (Hrange Hpos (S (ticks w1))) as Hr.
    destruct (plus_seconds _ cooldown_seconds); [discriminate|done].
  - by rewrite fanout_caught in Hf.
Qed.

Lemma for_channels_all channels : forall w,
  calm E cooldown_seconds ->
  for_channels E cooldown_seconds channels w
  = (None, process_all E cooldown_seconds channels w).
Proof.
  induction channels as [|c rest IH]; intros w Hcalm; cbn [for_channels process_all];
    [reflexivity|].
  pose proof (process_channel_calm c w Hcalm) as Hc.
  destruct (process_channel E cooldown_seconds c w) as [[e|] w1]; [discriminate|].
  by apply IH.
Qed.

End Loop.

Section Sends.
Import YouTubeClient Main MainSpec.

(** The store after a step does not depend on how the sends went. *)
Lemma store_whatever_the_sends (E : Main.Env) (cooldown_seconds : Z) c w :
  store (process_channel (silenced E) cooldown_seconds c w).2
  = store (process_channel E cooldown_seconds c w).2.
Proof.
  unfold process_channel.
  change (in_cooldown (silenced E) c w) with (in_cooldown E c w).
  destruct (in_cooldown E c w) as [[] w1]; [reflexivity|].
  unfold detect. change (get_live_now (silenced E) c w1) with (get_live_now E c w1).
  destruct (get_live_now E c w1) as [[[live|]|e] w2]; [|reflexivity..].
  destruct (decide _); [reflexivity|].
  change (commit (silenced E) cooldown_seconds c live w2)
    with (commit E cooldown_seconds c live w2).
  destruct (commit E cooldown_seconds c live w2) as [[e|] w3]; [reflexivity|].
  rewrite (notify_store E), (notify_store (silenced E)). reflexivity.
Qed.

End Sends.

Section LoopClaims.
Import YouTubeClient Main MainSpec LoopSamples.

(** The sum of a clock reading and a positive cooldown is a [datetime]
    exactly when the cooldown spans no more days than a [timedelta] holds
    and the sum is not after [datetime.max]. *)
Lemma cooldown_end_fits (E : Env) (cooldown_seconds : Z) (w : World) :
  0 < cooldown_seconds ->
  let t := clock E (S (ticks w)) + cooldown_seconds * 1000000 in
  (cooldown_seconds / 86400 <= 999999999 /\ 0 <= t <= max_instant ->
   cooldown_end E cooldown_seconds w = Some {| instant := t; tzaware := true |})
  /\ (~ (cooldown_seconds / 86400 <= 999999999 /\ 0 <= t <= max_instant) ->
      cooldown_end E cooldown_seconds w = None).
Proof.
  intros Hpos. cbn zeta. unfold cooldown_end. rewrite plus_seconds_spec by exact Hpos.
  cbn [instant tzaware].
  destruct (Z.leb_spec (cooldown_seconds / 86400) 999999999);
    destruct (Z.leb_spec 0 (clock E (S (ticks w)) + cooldown_seconds * 1000000));
    destruct (Z.leb_spec (clock E (S (ticks w)) + cooldown_seconds * 1000000) max_instant);
    cbn [andb]; split; intros Hfit; try done; try (exfalso; lia); exfalso; apply Hfit; lia.
Qed.

(** C1, as the code has it. When the resolver reports the broadcast that is
    recorded as the channel's last one, the step for the channel raises
    nothing, leaves the store as it is and appends at most the call of the
    resolver to the trace; over any number of sweeps in which the resolver
    reports no other broadcast for the channel, the channel's three entries
    stay as they are and nothing is sent for the channel; and from any state
    of the store, over any number of such sweeps, a chat is sent at most one
    notification for that broadcast of that channel. *)
Theorem C1_dedup (E : Env) (interval cooldown_seconds : Z) (c v : string) :
  (forall w live,
     live_now E (polls w) c = Returned (Some live) ->
     video_id live = v ->
     Storage.get_last_live (store w) c = Some v ->
     let out := process_channel E cooldown_seconds c w in
     out.1 = None
     /\ store out.2 = store w
     /\ (trace out.2 = trace w \/ trace out.2 = trace w ++ [EvGetLiveNow c]))
  /\ (steady E c v ->
      forall n w,
        Storage.get_last_live (store w) c = Some v ->
        let w' := (notifier_loop E interval cooldown_seconds n w).2 in
        entry (store w') c = entry (store w) c
        /\ List.filter (send_for c) (trace w') = List.filter (send_for c) (trace w))
  /\ (steady E c v -> visits_each_once E ->
      forall n w chat,
        (sent_to c v chat (trace (notifier_loop E interval cooldown_seconds n w).2)
         <= sent_to c v chat (trace w) + 1)%nat).
Proof.
  split_and!.
  - intros w live Hlive Hv Hrec. cbn zeta.
    destruct (process_channel_cases E cooldown_seconds c w) as [|w1 r Hw Hd];
      [by split_and!; [..|left]|].
    assert (Hs1 : store w1 = store w) by (by destruct Hw as [->| ->]).
    assert (Ht1 : trace w1 = trace w) by (by destruct Hw as [->| ->]).
    assert (Hp1 : polls w1 = polls w) by (by destruct Hw as [->| ->]).
    destruct Hd as [e w' Hl Hs Ht|w' Hl Hs Ht|live' w' Hl _ Hs Ht|live' w' Hl Hnew _ _];
      rewrite Hp1, Hlive in Hl; try discriminate; injection Hl as <-; cbn [fst snd].
    + rewrite Hs, Ht, Hs1, Ht1. split_and!; [done..|by right].
    + exfalso. apply Hnew. by rewrite Hs1, Hrec, Hv.
  - intros Hsteady n w Hrec.
    apply (quiet_while_recorded E cooldown_seconds c v); [done..|].
    apply reaches_notifier_loop.
  - intros Hsteady Honce n w chat.
    apply (at_most_once E cooldown_seconds); [done..|]. apply reaches_notifier_loop.
Qed.

Lemma always_v1_steady : steady always_v1 "UCa" "v1".
Proof. intros n. reflexivity. Defined.

Lemma elements_visit_each_once resolver : visits_each_once (surroundings resolver).
Proof. intros X. reflexivity. Defined.

Lemma C1_dedup_witness :
  let w1 := (sweep always_v1 120 0 (fresh (subscribed ["UCa"; "UCb"]))).2 in
  Storage.get_last_live (store w1) "UCa" = Some "v1"
  /\ (process_channel always_v1 0 "UCa" w1).1 = None
  /\ store (process_channel always_v1 0 "UCa" w1).2 = store w1
  /\ entry (store (notifier_loop always_v1 120 0 3 w1).2) "UCa" = entry (store w1) "UCa"
  /\ List.filter (send_for "UCa") (trace (notifier_loop always_v1 120 0 3 w1).2)
     = List.filter (send_for "UCa") (trace w1)
  /\ (sent_to "UCa" "v1" 7
        (trace (notifier_loop always_v1 120 0 4 (fresh (subscribed ["UCa"; "UCb"]))).2)
      <= 1)%nat.
Proof.
  cbn zeta.
  destruct (C1_dedup always_v1 120 0 "UCa" "v1") as (Hstep & Hrun & Hever).
  assert (Hrec : Storage.get_last_live
            (store (sweep always_v1 120 0 (fresh (subscribed ["UCa"; "UCb"]))).2) "UCa"
          = Some "v1") by (vm_compute; reflexivity).
  destruct (Hstep (sweep always_v1 120 0 (fresh (subscribed ["UCa"; "UCb"]))).2 live_v1)
    as (H1 & H2 & _); [reflexivity|reflexivity|exact Hrec|].
  destruct (Hrun always_v1_steady 3%nat
              (sweep always_v1 120 0 (fresh (subscribed ["UCa"; "UCb"]))).2 Hrec) as (H3 & H4).
  pose proof (Hever always_v1_steady (elements_visit_each_once _) 4%nat
                (fresh (subscribed ["UCa"; "UCb"])) 7) as H5.
  split_and!; [exact Hrec|exact H1|exact H2|exact H3|exact H4|exact H5].
Defined.

(** C1 as stated fails in its last part: the resolver reports [v1], then
    [v2], then [v1] again; every send is delivered, and after the third
    sweep the chat has been sent two notifications for [v1]. *)
Lemma C1_counterexample :
  let w := fresh (subscribed ["UCa"]) in
  (notifier_loop (delivering v1_v2_v1) 120 0 3 w).1 = None
  /\ List.filter (send_for "UCa") (trace (notifier_loop (delivering v1_v2_v1) 120 0 3 w).2)
     = [EvSendMessage "UCa" "v1" (-100) (message "UCa" live_v1) true;
        EvSendMessage "UCa" "v1" 7 (message "UCa" live_v1) true;
        EvSendMessage "UCa" "v2" (-100) (message "UCa" live_v2) true;
        EvSendMessage "UCa" "v2" 7 (message "UCa" live_v2) true;
        EvSendMessage "UCa" "v1" (-100) (message "UCa" live_v1) true;
        EvSendMessage "UCa" "v1" 7 (message "UCa" live_v1) true]
  /\ sent_to "UCa" "v1" 7 (trace (notifier_loop (delivering v1_v2_v1) 120 0 3 w).2) = 2%nat.
Proof. cbn zeta. split_and!; vm_compute; reflexivity. Qed.

(** C5, as the code has it. For a channel that is not skipped and has no
    recorded broadcast, when the resolver reports a broadcast the step
    records the broadcast and the instant of a clock reading. With a
    cooldown that is not positive it leaves the cooldown entries alone; with
    a positive cooldown whose sum with the next clock reading is a
    [datetime] it records that sum. In both cases it raises nothing and,
    when no send raises anything but an [Exception], sends one message to
    each chat that subscribes to the channel or is one of its destinations,
    and to no other: the channel title (the channel id when there is none or
    it is empty) and the broadcast title (the generic label when there is
    none or it is empty), both escaped for HTML, and the watch URL of the
    broadcast. With a positive cooldown whose sum is no [datetime] the step
    raises [OverflowError] after the first two writes: no cooldown is
    recorded and nothing is sent. *)
Theorem C5_new_broadcast (E : Env) (cooldown_seconds : Z) (c : string) (w : World)
    (live : LiveInfo) :
  (in_cooldown E c w).1 = false ->
  live_now E (polls w) c = Returned (Some live) ->
  Storage.get_last_live (store w) c = None ->
  visits_each_once E -> sends_caught E ->
  let w1 := (in_cooldown E c w).2 in
  let out := process_channel E cooldown_seconds c w in
  let v := video_id live in
  let stamp := isoformat E {| instant := clock E (ticks w1); tzaware := true |} in
  let t := clock E (S (ticks w1)) + cooldown_seconds * 1000000 in
  let fits := cooldown_seconds / 86400 <= 999999999 /\ 0 <= t <= max_instant in
  let until := isoformat E {| instant := t; tzaware := true |} in
  let chan := match channel_title live with
              | Some s => if String.eqb s "" then c else s
              | None => c
              end in
  let title := match video_title live with
               | Some s => if String.eqb s "" then live_label else s
               | None => live_label
               end in
  let text := PyStr.html_escape chan +:+ " в эфире: " +:+ PyStr.html_escape title
              +:+ String "010" ("https://www.youtube.com/watch?v=" +:+ v) in
  let writes := EvSetLastLive c v :: EvSetLastLiveAt c stamp
                :: (if 0 <? cooldown_seconds then [EvSetCooldownUntil c until] else []) in
  Storage.get_last_live (store out.2) c = Some v
  /\ Storage.get_last_live_at (store out.2) c = Some stamp
  /\ (cooldown_seconds <= 0 ->
      Storage.cooldown_until (store out.2) = Storage.cooldown_until (store w))
  /\ (0 < cooldown_seconds -> fits ->
      Storage.get_cooldown_until (store out.2) c = Some until)
  /\ (cooldown_seconds <= 0 \/ fits ->
      out.1 = None
      /\ (exists chats,
            chats ≡ₚ elements (targets (store w) c)
            /\ trace out.2
               = trace w ++ EvGetLiveNow c :: writes
                 ++ deliveries E c v text chats (sends w)
            /\ length (deliveries E c v text chats (sends w)) = length chats)
      /\ (forall chat,
            sent_to c v chat (trace out.2)
            = (sent_to c v chat (trace w)
               + if decide (chat ∈ targets (store w) c) then 1 else 0)%nat))
  /\ (0 < cooldown_seconds -> ~ fits ->
      out.1 = Some (OtherError "OverflowError")
      /\ Storage.cooldown_until (store out.2) = Storage.cooldown_until (store w)
      /\ trace out.2
         = trace w ++ [EvGetLiveNow c; EvSetLastLive c v; EvSetLastLiveAt c stamp])
  /\ (forall chat,
        chat ∈ targets (store w) c
        <-> (exists channels,
               Storage.subscriptions (store w) !! chat = Some channels /\ c ∈ channels)
            \/ chat ∈ Storage.list_destinations (store w) c).
Proof.
  intros Hgate Hlive Hnone Honce Hcaught. cbn zeta.
  assert (Hnew : Storage.get_last_live (store w) c <> Some (video_id live))
    by (rewrite Hnone; discriminate).
  destruct (process_channel_new E cooldown_seconds c w live Hgate Hlive Hnew)
    as (Hres & Hstore & Htrace & _ & Hs1 & Hn1).
  set (w1 := (in_cooldown E c w).2) in *.
  set (t := clock E (S (ticks w1)) + cooldown_seconds * 1000000).
  assert (Htext : message c live
    = PyStr.html_escape
        match channel_title live with
        | Some s => if String.eqb s "" then c else s
        | None => c
        end +:+ " в эфире: "
      +:+ PyStr.html_escape
            match video_title live with
            | Some s => if String.eqb s "" then live_label else s
            | None => live_label
            end
      +:+ String "010" ("https://www.youtube.com/watch?v=" +:+ video_id live))
    by reflexivity.
  assert (Hok : cooldown_seconds <= 0
                \/ (cooldown_seconds / 86400 <= 999999999 /\ 0 <= t <= max_instant) ->
    commit_result E cooldown_seconds w1 = None
    /\ commit_events E cooldown_seconds c live w1
       = EvSetLastLive c (video_id live)
         :: EvSetLastLiveAt c (isoformat E {| instant := clock E (ticks w1); tzaware := true |})
         :: (if 0 <? cooldown_seconds
             then [EvSetCooldownUntil c (isoformat E {| instant := t; tzaware := true |})]
             else [])).
  { intros Hcase. unfold commit_result, commit_events, stamp_at.
    destruct (Z.ltb_spec 0 cooldown_seconds) as [Hpos|Hoff]; [|done].
    destruct Hcase as [?|Hfits]; [lia|].
    destruct (cooldown_end_fits E cooldown_seconds w1 Hpos) as [Hsome _].
    by rewrite (Hsome Hfits). }
  split_and!.
  - rewrite Hstore. apply committed_last_live.
  - rewrite Hstore. unfold committed, Storage.get_last_live_at.
    destruct (0 <? cooldown_seconds); [destruct (cooldown_end E cooldown_seconds w1)|];
      cbn; by rewrite lookup_insert_eq.
  - intros Hoff. rewrite Hstore. unfold committed.
    destruct (Z.ltb_spec 0 cooldown_seconds); [lia|]. cbn. by rewrite Hs1.
  - intros Hpos Hfits. rewrite Hstore. unfold committed, Storage.get_cooldown_until.
    destruct (Z.ltb_spec 0 cooldown_seconds); [|lia].
    destruct (cooldown_end_fits E cooldown_seconds w1 Hpos) as [Hsome _].
    rewrite (Hsome Hfits). cbn. by rewrite lookup_insert_eq.
  - intros Hcase. destruct (Hok Hcase) as [Hc Hev].
    assert (Hevents : detection_events E cooldown_seconds c live w1
      = EvGetLiveNow c :: commit_events E cooldown_seconds c live w1
        ++ deliveries E c (video_id live) (message c live)
             (chat_order E (targets (store w) c)) (sends w)).
    { unfold detection_events. by rewrite Hc, Hs1, Hn1. }
    split_and!.
    + rewrite Hres. unfold detection_result. rewrite Hc. by apply fanout_caught.
    + exists (chat_order E (targets (store w) c)). split_and!; [apply Honce| |].
      * by rewrite Htrace, Hevents, Hev, Htext.
      * by apply deliveries_length.
    + intros chat. rewrite Htrace, sent_to_app. f_equal.
      rewrite detection_sent_to by done. by rewrite Hs1.
  - intros Hpos Hover.
    destruct (cooldown_end_fits E cooldown_seconds w1 Hpos) as [_ Hnone'].
    specialize (Hnone' Hover).
    assert (Hc : commit_result E cooldown_seconds w1 = Some (OtherError "OverflowError")).
    { unfold commit_result. destruct (Z.ltb_spec 0 cooldown_seconds); [|lia].
      by rewrite Hnone'. }
    split_and!.
    + rewrite Hres. unfold detection_result. by rewrite Hc.
    + rewrite Hstore. unfold committed.
      destruct (Z.ltb_spec 0 cooldown_seconds); [|lia]. rewrite Hnone'. cbn.
      by rewrite Hs1.
    + rewrite Htrace.
      destruct (detection_overflow E cooldown_seconds c live w1 _ Hc) as (-> & _).
      unfold commit_events, stamp_at. destruct (Z.ltb_spec 0 cooldown_seconds); [|lia].
      by rewrite Hnone'.
  - intros chat. apply targets_spec.
Qed.

Lemma delivering_caught E : sends_caught (delivering E).
Proof. intros n chat text. reflexivity. Defined.

Lemma C5_new_broadcast_witness :
  let w := fresh (subscribed ["UCa"; "UCb"]) in
  let out := process_channel (delivering always_v1) 3600 "UCa" w in
  Storage.get_last_live (store out.2) "UCa" = Some "v1"
  /\ Storage.get_last_live_at (store out.2) "UCa" = Some "u="
  /\ Storage.get_cooldown_until (store out.2) "UCa"
     = Some (write_stamp {| instant := 3601000000; tzaware := true |})
  /\ out.1 = None
  /\ sent_to "UCa" "v1" 7 (trace out.2) = 1%nat
  /\ sent_to "UCa" "v1" (-100) (trace out.2) = 1%nat
  /\ sent_to "UCa" "v1" 8 (trace out.2) = 0%nat.
Proof.
  cbn zeta.
  destruct (C5_new_broadcast (delivering always_v1) 3600 "UCa"
              (fresh (subscribed ["UCa"; "UCb"])) live_v1)
    as (H1 & H2 & _ & H3 & H4 & _).
  - reflexivity.
  - reflexivity.
  - reflexivity.
  - intros X. reflexivity.
  - apply delivering_caught.
  - assert (Hfits : 3600 / 86400 <= 999999999
                    /\ 0 <= clock (delivering always_v1) 1 + 3600 * 1000000 <= max_instant)
      by (vm_compute; split_and!; discriminate).
    destruct (H4 (or_intror Hfits)) as (H5 & _ & H6).
    split_and!.
    + exact H1.
    + exact H2.
    + apply H3; [lia|exact Hfits].
    + exact H5.
    + exact (H6 7).
    + exact (H6 (-100)).
    + exact (H6 8).
Defined.

(** C5 as stated fails for a long cooldown: with a transport that delivers
    every send and a cooldown of [10^12] seconds the broadcast is recorded,
    the step raises [OverflowError], no cooldown is recorded and no
    notification is sent. *)
Lemma C5_counterexample :
  let w := fresh (subscribed ["UCa"; "UCb"]) in
  let out := process_channel (delivering always_v1) (10 ^ 12) "UCa" w in
  Storage.get_last_live (store w) "UCa" = None
  /\ live_now (delivering always_v1) (polls w) "UCa" = Returned (Some live_v1)
  /\ 7 ∈ targets (store w) "UCa"
  /\ out.1 = Some (OtherError "OverflowError")
  /\ Storage.get_last_live (store out.2) "UCa" = Some "v1"
  /\ Storage.get_cooldown_until (store out.2) "UCa" = None
  /\ List.filter is_send (trace out.2) = []
  /\ sent_to "UCa" "v1" 7 (trace out.2) = 0%nat.
Proof.
  cbn zeta. split_and!; vm_compute; reflexivity.
Qed.



(** C4, as the code has it. A channel whose stored cooldown parses to an
    instant with a time zone that is later than the clock reading of the
    check is skipped: the step changes nothing but the count of clock
    readings, and the resolver is not asked. A stored cooldown that parses
    to an instant without a time zone does not make the loop skip the
    channel, however late the instant: the resolver is asked. A detection
    with a positive cooldown whose sum with the clock reading taken for it
    is a [datetime] stores that sum; when the time stamp reads back as
    written, then wherever the loop gets from there, as long as the clock
    readings stay before that instant, the resolver is not asked about the
    channel and the channel's entries stay. A detection with a positive
    cooldown whose sum is no [datetime] raises [OverflowError], stores no
    cooldown and sends nothing. *)
Theorem C4_cooldown_gate (E : Env) (cooldown_seconds : Z) (c : string) :
  fromisoformat E "" = None ->
  (forall w s d,
     Storage.get_cooldown_until (store w) c = Some s ->
     fromisoformat E s = Some d -> tzaware d = true ->
     clock E (ticks w) < instant d ->
     process_channel E cooldown_seconds c w = (None, ticked w))
  /\ (forall w s d,
        Storage.get_cooldown_until (store w) c = Some s ->
        fromisoformat E s = Some d -> tzaware d = false ->
        process_channel E cooldown_seconds c w = detect E cooldown_seconds c (ticked w)
        /\ exists evs,
             trace (process_channel E cooldown_seconds c w).2
             = trace w ++ EvGetLiveNow c :: evs)
  /\ (forall w live,
        0 < cooldown_seconds ->
        (in_cooldown E c w).1 = false ->
        live_now E (polls w) c = Returned (Some live) ->
        Storage.get_last_live (store w) c <> Some (video_id live) ->
        let out := process_channel E cooldown_seconds c w in
        let t := clock E (S (ticks (in_cooldown E c w).2)) + cooldown_seconds * 1000000 in
        let fits := cooldown_seconds / 86400 <= 999999999 /\ 0 <= t <= max_instant in
        let until := {| instant := t; tzaware := true |} in
        (fits ->
         out.1 = None \/ (exists e, out.1 = Some e /\ is_Exception e = false))
        /\ (fits ->
            Storage.get_cooldown_until (store out.2) c = Some (isoformat E until))
        /\ (fits ->
            fromisoformat E (isoformat E until) = Some until ->
            forall w',
              reaches E cooldown_seconds out.2 w' ->
              (forall k, (ticks out.2 <= k < ticks w')%nat -> clock E k < t) ->
              entry (store w') c = entry (store out.2) c
              /\ List.filter (poll_of c) (trace w') = List.filter (poll_of c) (trace out.2))
        /\ (~ fits ->
            out.1 = Some (OtherError "OverflowError")
            /\ Storage.cooldown_until (store out.2) = Storage.cooldown_until (store w)
            /\ List.filter is_send (trace out.2) = List.filter is_send (trace w))).
Proof.
  intros Hempty. split_and!.
  - intros w s d Hcd Hd Ha Hlt.
    assert (Hne : s <> "") by (intros ->; congruence).
    unfold process_channel. by rewrite (in_cooldown_skips E c w s d Hcd Hne Hd Ha Hlt).
  - intros w s d Hcd Hd Ha.
    assert (Hne : s <> "") by (intros ->; congruence).
    pose proof (in_cooldown_naive E c w s d Hcd Hd Ha) as Hgate.
    pose proof (process_channel_polls E cooldown_seconds c w Hgate) as Hstep.
    rewrite (in_cooldown_reads E c w s Hcd Hne) in Hstep.
    split; [exact Hstep|]. rewrite Hstep.
    destruct (detect_polls E cooldown_seconds c (ticked w)) as [evs Hevs]. by exists evs.
  - intros w live Hpos Hgate Hlive Hnew. cbn zeta.
    destruct (process_channel_new E cooldown_seconds c w live Hgate Hlive Hnew)
      as (Hres & Hstore & Htrace & _ & Hs1 & _).
    set (w1 := (in_cooldown E c w).2) in *.
    destruct (cooldown_end_fits E cooldown_seconds w1 Hpos) as [Hsome Hnone].
    assert (Hcd : cooldown_seconds / 86400 <= 999999999
                  /\ 0 <= clock E (S (ticks w1)) + cooldown_seconds * 1000000 <= max_instant ->
      Storage.get_cooldown_until (store (process_channel E cooldown_seconds c w).2) c
      = Some (isoformat E {| instant := clock E (S (ticks w1)) + cooldown_seconds * 1000000;
                             tzaware := true |})).
    { intros Hfits. rewrite Hstore. unfold committed, Storage.get_cooldown_until.
      destruct (Z.ltb_spec 0 cooldown_seconds); [|lia]. rewrite (Hsome Hfits). cbn.
      by rewrite lookup_insert_eq. }
    split_and!.
    + intros Hfits. rewrite Hres. unfold detection_result, commit_result.
      destruct (Z.ltb_spec 0 cooldown_seconds); [|lia]. rewrite (Hsome Hfits).
      destruct (fanout E _ _ _) as [e|] eqn:Hf; [right|by left].
      exists e. split; [done|]. by eapply fanout_uncaught.
    + exact Hcd.
    + intros Hfits Hback w' Hreach Hclock.
      by apply (cooling E cooldown_seconds c _ _ _ w' Hempty (Hcd Hfits) Hback).
    + intros Hover. specialize (Hnone Hover).
      assert (Hc : commit_result E cooldown_seconds w1 = Some (OtherError "OverflowError")).
      { unfold commit_result. destruct (Z.ltb_spec 0 cooldown_seconds); [|lia].
        by rewrite Hnone. }
      split_and!.
      * rewrite Hres. unfold detection_result. by rewrite Hc.
      * rewrite Hstore. unfold committed.
        destruct (Z.ltb_spec 0 cooldown_seconds); [|lia]. rewrite Hnone. cbn.
        by rewrite Hs1.
      * rewrite Htrace, List.filter_app.
        destruct (detection_overflow E cooldown_seconds c live w1 _ Hc) as (_ & -> & _).
        by rewrite app_nil_r.
Qed.

Lemma C4_cooldown_gate_witness :
  let w := fresh (subscribed ["UCa"; "UCb"]) in
  let w1 := (process_channel always_v1 3600 "UCa" w).2 in
  process_channel always_v1 3600 "UCa" w1 = (None, ticked w1)
  /\ List.filter (poll_of "UCa") (trace (notifier_loop always_v1 120 3600 3 w1).2)
     = List.filter (poll_of "UCa") (trace w1).
Proof.
  cbn zeta.
  destruct (C4_cooldown_gate always_v1 3600 "UCa") as (Hskip & _ & Hhold); [reflexivity|].
  split.
  - apply (Hskip _ (write_stamp {| instant := 3601000000; tzaware := true |})
             {| instant := 3601000000; tzaware := true |}).
    + reflexivity.
    + reflexivity.
    + reflexivity.
    + reflexivity.
  - destruct (Hhold (fresh (subscribed ["UCa"; "UCb"])) live_v1) as (_ & _ & H & _).
    + lia.
    + reflexivity.
    + reflexivity.
    + discriminate.
    + apply H.
      * vm_compute. split_and!; discriminate.
      * reflexivity.
      * apply reaches_notifier_loop.
      * intros k [_ Hk]. vm_compute in Hk.
        change (Z.of_nat k * 1000000 < 3601000000). lia.
Defined.

(** C4 as stated fails twice. A stored cooldown that parses, to an instant
    an hour ahead, but names no time zone does not make the sweep skip the
    channel: the resolver is asked. And with a cooldown of [10^12] seconds
    a detection stores no cooldown at all: the step raises
    [OverflowError], and the next step for the channel asks the resolver
    again. *)
Lemma C4_counterexample :
  let s := write_stamp {| instant := 3601000000; tzaware := false |} in
  let w := fresh (subscribed ["UCa"; "UCb"]) in
  let out := process_channel always_v1 (10 ^ 12) "UCa" w in
  Storage.get_cooldown_until (store zoneless) "UCa" = Some s
  /\ fromisoformat always_v1 s = Some {| instant := 3601000000; tzaware := false |}
  /\ clock always_v1 (ticks zoneless) < 3601000000
  /\ List.filter (poll_of "UCa") (trace (process_channel always_v1 3600 "UCa" zoneless).2)
     = [EvGetLiveNow "UCa"]
  /\ out.1 = Some (OtherError "OverflowError")
  /\ Storage.get_last_live (store out.2) "UCa" = Some "v1"
  /\ Storage.get_cooldown_until (store out.2) "UCa" = None
  /\ List.filter (poll_of "UCa") (trace (process_channel always_v1 (10 ^ 12) "UCa" out.2).2)
     = [EvGetLiveNow "UCa"; EvGetLiveNow "UCa"].
Proof. cbn zeta. split_and!; vm_compute; reflexivity. Qed.

(** An exception that leaves a fan-out was raised by one of its sends. *)
Lemma fanout_source (E : Env) text chats : forall n e,
  fanout E text chats n = Some e ->
  exists k chat, send_message E k chat text = Some e.
Proof.
  induction chats as [|chat rest IH]; intros n e; cbn [fanout]; [discriminate|].
  destruct (send_message E n chat text) as [e'|] eqn:Hs; cbn [uncaught]; [|apply IH].
  destruct (is_Exception e'); [apply IH|]. intros [= <-]. eauto.
Qed.

(** C2, as the code has it. An exception raised while a channel is
    processed is one the resolver raised, the [OverflowError] of a cooldown
    that cannot be added to the clock reading, or one a send raised that is
    no [Exception]. It ends the [for] loop of the sweep: the channels before
    it in the order of iteration have been processed as usual and nothing is
    done for the channels after it. When it is an [Exception] it is dropped
    and the sweep ends with its sleep, so that the loop goes on with the
    next sweep; when it is not, it leaves the loop. In calm surroundings
    (the resolver raises nothing, a channel whose status it cannot tell
    being answered with [None]; no send raises anything but an [Exception];
    the cooldown can be added to every clock reading) every channel of the
    sweep is processed; and a fan-out whose sends raise nothing but
    [Exception]s sends to each of its chats whether or not the sends before
    failed. *)
Theorem C2_isolation (E : Env) (interval cooldown_seconds : Z) (w : World) :
  (forall pre a post w1 e w2,
     channel_order E (Storage.all_channels (store w)) = pre ++ a :: post ->
     for_channels E cooldown_seconds pre w = (None, w1) ->
     process_channel E cooldown_seconds a w1 = (Some e, w2) ->
     (live_now E (polls w1) a = Raised e
      \/ exists live,
           live_now E (polls w1) a = Returned (Some live)
           /\ Storage.get_last_live (store w1) a <> Some (video_id live)
           /\ ((0 < cooldown_seconds /\ e = OtherError "OverflowError")
               \/ (is_Exception e = false
                   /\ exists k chat, send_message E k chat (message a live) = Some e)))
     /\ w1 = process_all E cooldown_seconds pre w
     /\ for_channels E cooldown_seconds (pre ++ a :: post) w = (Some e, w2)
     /\ (is_Exception e = true ->
         sweep E interval cooldown_seconds w
         = (asyncio_sleep E (naps w2), sleep interval w2))
     /\ (is_Exception e = false ->
         sweep E interval cooldown_seconds w = (Some e, w2)
         /\ forall n, notifier_loop E interval cooldown_seconds (S n) w = (Some e, w2)))
  /\ (calm E cooldown_seconds ->
      let w' := process_all E cooldown_seconds
                  (channel_order E (Storage.all_channels (store w))) w in
      sweep E interval cooldown_seconds w = (asyncio_sleep E (naps w'), sleep interval w'))
  /\ (forall n,
        notifier_loop E interval cooldown_seconds (S n) w
        = match sweep E interval cooldown_seconds w with
          | (None, w') => notifier_loop E interval cooldown_seconds n w'
          | (Some e, w') => (Some e, w')
          end)
  /\ (forall c live w0,
        store (notify E c live w0).2 = store w0
        /\ trace (notify E c live w0).2
           = trace w0 ++ deliveries E c (video_id live) (message c live)
                          (chat_order E (targets (store w0) c)) (sends w0)
        /\ (sends_caught E ->
            (notify E c live w0).1 = None
            /\ length (deliveries E c (video_id live) (message c live)
                         (chat_order E (targets (store w0) c)) (sends w0))
               = length (chat_order E (targets (store w0) c)))).
Proof.
  split_and!.
  - intros pre a post w1 e w2 Horder Hpre Ha.
    assert (Hfor : for_channels E cooldown_seconds (pre ++ a :: post) w = (Some e, w2)).
    { rewrite for_channels_app, Hpre. cbn [for_channels]. by rewrite Ha. }
    split_and!.
    + assert (He : (process_channel E cooldown_seconds a w1).1 = Some e) by (by rewrite Ha).
      apply process_channel_raises in He
        as (w0 & _ & _ & [Hl|(live & Hl & Hnew & [[Hc ->]|(_ & Hf & Hexc)])]).
      * by left.
      * right. exists live. split_and!; [done..|]. left. split; [|done].
        unfold commit_result in Hc. by destruct (Z.ltb_spec 0 cooldown_seconds).
      * right. exists live. split_and!; [done..|]. right. split; [done|].
        by eapply fanout_source.
    + by apply for_channels_none.
    + exact Hfor.
    + intros Hexc. unfold sweep. rewrite Horder, Hfor. cbn [uncaught]. by rewrite Hexc.
    + intros Hexc.
      assert (Hsweep : sweep E interval cooldown_seconds w = (Some e, w2)).
      { unfold sweep. rewrite Horder, Hfor. cbn [uncaught]. by rewrite Hexc. }
      split; [exact Hsweep|]. intros n. cbn [notifier_loop]. by rewrite Hsweep.
  - intros Hcalm. cbn zeta. unfold sweep. by rewrite for_channels_all.
  - reflexivity.
  - intros c live w0. split_and!.
    + apply notify_store.
    + apply notify_trace.
    + intros Hcaught. split.
      * rewrite notify_result. by apply fanout_caught.
      * by apply deliveries_length.
Qed.

Lemma C2_isolation_witness :
  let w := fresh (subscribed ["UCb"; "UCa"]) in
  sweep a_raises 120 3600 w = (None, sleep 120 (process_channel a_raises 3600 "UCa" w).2)
  /\ for_channels a_raises 3600 ["UCa"; "UCb"] w
     = (Some (OtherError "KeyError"), (process_channel a_raises 3600 "UCa" w).2)
  /\ notifier_loop cancelled 120 3600 5 w
     = (Some (OtherError "CancelledError"), (process_channel cancelled 3600 "UCa" w).2).
Proof.
  cbn zeta.
  destruct (C2_isolation a_raises 120 3600 (fresh (subscribed ["UCb"; "UCa"]))) as [H _].
  destruct (C2_isolation cancelled 120 3600 (fresh (subscribed ["UCb"; "UCa"]))) as [H' _].
  destruct (H [] "UCa" ["UCb"] (fresh (subscribed ["UCb"; "UCa"]))
              (OtherError "KeyError")
              (process_channel a_raises 3600 "UCa" (fresh (subscribed ["UCb"; "UCa"]))).2)
    as (_ & _ & H1 & H2 & _); [reflexivity..|].
  destruct (H' [] "UCa" ["UCb"] (fresh (subscribed ["UCb"; "UCa"]))
              (OtherError "CancelledError")
              (process_channel cancelled 3600 "UCa" (fresh (subscribed ["UCb"; "UCa"]))).2)
    as (_ & _ & _ & _ & H3); [reflexivity..|].
  split_and!; [apply H2; reflexivity|exact H1|].
  destruct (H3 eq_refl) as [_ H4]. exact (H4 4%nat).
Defined.

(** C2 as stated fails: the resolver raises for [UCa], which comes first,
    and [UCb], which is live with a broadcast nobody was told of, is neither
    asked about nor notified in this sweep, though on its own it would
    be. *)
Lemma C2_counterexample :
  let w := fresh (subscribed ["UCa"; "UCb"]) in
  channel_order a_raises (Storage.all_channels (store w)) = ["UCa"; "UCb"]
  /\ live_now a_raises 0 "UCa" = Raised (OtherError "KeyError")
  /\ (forall n, live_now a_raises n "UCb" = Returned (Some live_b))
  /\ Storage.get_last_live (store w) "UCb" = None
  /\ (sweep a_raises 120 3600 w).1 = None
  /\ trace (sweep a_raises 120 3600 w).2 = [EvGetLiveNow "UCa"; EvSleep 120]
  /\ List.filter (poll_of "UCb") (trace (sweep a_raises 120 3600 w).2) = []
  /\ sent_to "UCb" "b1" 7 (trace (sweep a_raises 120 3600 w).2) = 0%nat
  /\ sent_to "UCb" "b1" 7 (trace (process_channel a_raises 3600 "UCb" w).2) = 1%nat.
Proof. cbn zeta. split_and!; try (intros n); vm_compute; reflexivity. Qed.

(** C10, as the code has it. In a detection every write to the store comes
    before every send: the broadcast and the instant of a clock reading are
    written, then, with a positive cooldown whose sum with the next clock
    reading is a [datetime], that sum, and then the messages are sent; with
    a positive cooldown whose sum is no [datetime] the step raises
    [OverflowError] after the first two writes and nothing is sent. The
    store after the step is what the writes made it, the broadcast
    recorded, and is the same when every send fails; and wherever the loop
    gets from there while the resolver reports no other broadcast for the
    channel, the broadcast stays recorded and nothing more is sent for the
    channel. *)
Theorem C10_commit_before_send (E : Env) (cooldown_seconds : Z) (c : string)
    (w : World) (live : LiveInfo) :
  (in_cooldown E c w).1 = false ->
  live_now E (polls w) c = Returned (Some live) ->
  Storage.get_last_live (store w) c <> Some (video_id live) ->
  let w1 := (in_cooldown E c w).2 in
  let out := process_channel E cooldown_seconds c w in
  let v := video_id live in
  let stamp := isoformat E {| instant := clock E (ticks w1); tzaware := true |} in
  let t := clock E (S (ticks w1)) + cooldown_seconds * 1000000 in
  let fits := cooldown_seconds / 86400 <= 999999999 /\ 0 <= t <= max_instant in
  let until := isoformat E {| instant := t; tzaware := true |} in
  let messages := deliveries E c v (message c live) (chat_order E (targets (store w) c))
                    (sends w) in
  (exists writes sends,
     trace out.2 = trace w ++ [EvGetLiveNow c] ++ writes ++ sends
     /\ Forall (fun e => is_write e = true) writes
     /\ Forall (fun e => is_send e = true) sends
     /\ (cooldown_seconds <= 0 ->
         writes = [EvSetLastLive c v; EvSetLastLiveAt c stamp] /\ sends = messages)
     /\ (0 < cooldown_seconds -> fits ->
         writes = [EvSetLastLive c v; EvSetLastLiveAt c stamp; EvSetCooldownUntil c until]
         /\ sends = messages)
     /\ (0 < cooldown_seconds -> ~ fits ->
         writes = [EvSetLastLive c v; EvSetLastLiveAt c stamp] /\ sends = []
         /\ out.1 = Some (OtherError "OverflowError")))
  /\ store out.2 = committed E cooldown_seconds c live w1
  /\ Storage.get_last_live (store out.2) c = Some v
  /\ Storage.get_last_live_at (store out.2) c = Some stamp
  /\ (0 < cooldown_seconds -> fits ->
      Storage.get_cooldown_until (store out.2) c = Some until)
  /\ (0 < cooldown_seconds -> ~ fits ->
      Storage.cooldown_until (store out.2) = Storage.cooldown_until (store w))
  /\ store (process_channel (silenced E) cooldown_seconds c w).2 = store out.2
  /\ (steady E c v ->
      forall w',
        reaches E cooldown_seconds out.2 w' ->
        Storage.get_last_live (store w') c = Some v
        /\ List.filter (send_for c) (trace w') = List.filter (send_for c) (trace out.2)).
Proof.
  intros Hgate Hlive Hnew. cbn zeta.
  destruct (process_channel_new E cooldown_seconds c w live Hgate Hlive Hnew)
    as (Hres & Hstore & Htrace & _ & Hs1 & Hn1).
  set (w1 := (in_cooldown E c w).2) in *.
  assert (Hrec : Storage.get_last_live
                   (store (process_channel E cooldown_seconds c w).2) c
                 = Some (video_id live)).
  { rewrite Hstore. apply committed_last_live. }
  split_and!.
  - exists (commit_events E cooldown_seconds c live w1),
      match commit_result E cooldown_seconds w1 with
      | Some _ => []
      | None => deliveries E c (video_id live) (message c live)
                  (chat_order E (targets (store w1) c)) (sends w1)
      end.
    split_and!.
    + rewrite Htrace. unfold detection_events. reflexivity.
    + apply commit_events_are_writes.
    + destruct (commit_result E cooldown_seconds w1); [constructor|].
      apply deliveries_are_sends.
    + intros Hoff. unfold commit_events, commit_result, stamp_at.
      destruct (Z.ltb_spec 0 cooldown_seconds); [lia|]. by rewrite Hs1, Hn1.
    + intros Hpos Hfits. unfold commit_events, commit_result, stamp_at.
      destruct (Z.ltb_spec 0 cooldown_seconds); [|lia].
      destruct (cooldown_end_fits E cooldown_seconds w1 Hpos) as [Hsome _].
      rewrite (Hsome Hfits). by rewrite Hs1, Hn1.
    + intros Hpos Hover. rewrite Hres.
      unfold commit_events, detection_result, commit_result, stamp_at.
      destruct (Z.ltb_spec 0 cooldown_seconds); [|lia].
      destruct (cooldown_end_fits E cooldown_seconds w1 Hpos) as [_ Hnone].
      by rewrite (Hnone Hover).
  - exact Hstore.
  - exact Hrec.
  - rewrite Hstore. unfold committed, Storage.get_last_live_at.
    destruct (0 <? cooldown_seconds); [destruct (cooldown_end E cooldown_seconds w1)|];
      cbn; by rewrite lookup_insert_eq.
  - intros Hpos Hfits. rewrite Hstore. unfold committed, Storage.get_cooldown_until.
    destruct (Z.ltb_spec 0 cooldown_seconds); [|lia].
    destruct (cooldown_end_fits E cooldown_seconds w1 Hpos) as [Hsome _].
    rewrite (Hsome Hfits). cbn. by rewrite lookup_insert_eq.
  - intros Hpos Hover. rewrite Hstore. unfold committed.
    destruct (Z.ltb_spec 0 cooldown_seconds); [|lia].
    destruct (cooldown_end_fits E cooldown_seconds w1 Hpos) as [_ Hnone].
    rewrite (Hnone Hover). cbn. by rewrite Hs1.
  - apply store_whatever_the_sends.
  - intros Hsteady w' Hreach.
    destruct (quiet_while_recorded E cooldown_seconds c (video_id live) _ w'
                Hsteady Hrec Hreach) as [He Hf].
    split; [|exact Hf].
    unfold entry in He. injection He as H _ _. unfold Storage.get_last_live in *.
    by rewrite H.
Qed.

Lemma C10_commit_before_send_witness :
  let w := fresh (subscribed ["UCa"; "UCb"]) in
  let out := process_channel always_v1 0 "UCa" w in
  Storage.get_last_live (store out.2) "UCa" = Some "v1"
  /\ Storage.get_last_live (store (notifier_loop always_v1 120 0 3 out.2).2) "UCa"
     = Some "v1"
  /\ List.filter (send_for "UCa") (trace (notifier_loop always_v1 120 0 3 out.2).2)
     = List.filter (send_for "UCa") (trace out.2).
Proof.
  cbn zeta.
  destruct (C10_commit_before_send always_v1 0 "UCa" (fresh (subscribed ["UCa"; "UCb"]))
              live_v1) as (_ & _ & H1 & _ & _ & _ & _ & H2).
  - reflexivity.
  - reflexivity.
  - discriminate.
  - destruct (H2 always_v1_steady
                (notifier_loop always_v1 120 0 3
                   (process_channel always_v1 0 "UCa"
                      (fresh (subscribed ["UCa"; "UCb"]))).2).2)
      as [H3 H4].
    + apply reaches_notifier_loop.
    + split_and!; [exact H1|exact H3|exact H4].
Defined.

(** C10 as stated fails: [v1] is detected and recorded in the first sweep,
    every send failing; the second sweep detects [v2]; the third is told of
    [v1] again and notifies it a second time. *)
Lemma C10_counterexample :
  let w := fresh (subscribed ["UCa"]) in
  Storage.get_last_live (store (notifier_loop v1_v2_v1 120 0 1 w).2) "UCa" = Some "v1"
  /\ List.filter (send_for "UCa") (trace (notifier_loop v1_v2_v1 120 0 1 w).2)
     = [EvSendMessage "UCa" "v1" (-100) (message "UCa" live_v1) false;
        EvSendMessage "UCa" "v1" 7 (message "UCa" live_v1) false]
  /\ sent_to "UCa" "v1" 7 (trace (notifier_loop v1_v2_v1 120 0 1 w).2) = 1%nat
  /\ sent_to "UCa" "v1" 7 (trace (notifier_loop v1_v2_v1 120 0 2 w).2) = 1%nat
  /\ sent_to "UCa" "v1" 7 (trace (notifier_loop v1_v2_v1 120 0 3 w).2) = 2%nat.
Proof. cbn zeta. split_and!; vm_compute; reflexivity. Qed.

End LoopClaims.

(** * Further properties: the store *)

Section SortedSets.
Import Storage StorageSpec.

Context {A : Type} `{EqDecision A} (R : relation A)
  `{!RelDecision R, !PartialOrder R, !Total R}.

Lemma sorted_set_elem (x : A) l : x ∈ sorted_set R l <-> x ∈ l.
Proof. unfold sorted_set. by rewrite merge_sort_Permutation, elem_of_remove_dups. Qed.

Lemma sorted_set_normal l : normal R (sorted_set R l).
Proof.
  unfold normal, sorted_set. split.
  - by apply Sorted_merge_sort.
  - rewrite merge_sort_Permutation. apply NoDup_remove_dups.
Qed.

(** Two lists in normal form with the same elements are the same list. *)
Lemma normal_unique l1 l2 :
  normal R l1 -> normal R l2 -> (forall x, x ∈ l1 <-> x ∈ l2) -> l1 = l2.
Proof.
  intros [Hs1 Hn1] [Hs2 Hn2] Hel.
  apply (Sorted_unique R); [done..|]. by apply NoDup_Permutation.
Qed.

Lemma sorted_set_of_normal l : normal R l -> sorted_set R l = l.
Proof.
  intros Hl. apply normal_unique; [apply sorted_set_normal|exact Hl|].
  intros x. apply sorted_set_elem.
Qed.

Lemma sorted_set_ext l1 l2 :
  (forall x, x ∈ l1 <-> x ∈ l2) -> sorted_set R l1 = sorted_set R l2.
Proof.
  intros Hel. apply normal_unique; [apply sorted_set_normal..|].
  intros x. by rewrite !sorted_set_elem.
Qed.

End SortedSets.

Section Store.
Import Storage StorageSpec.

Lemma elem_of_filter_neq (c : string) l x :
  x ∈ List.filter (fun y => negb (String.eqb y c)) l <-> x ∈ l /\ x <> c.
Proof.
  rewrite !list_elem_of_In, List.filter_In. split; intros [H1 H2]; (split; [done|]).
  - intros ->. by rewrite String.eqb_refl in H2.
  - destruct (String.eqb_spec x c); done.
Qed.

Lemma list_subscriptions_add chat c d chat' :
  list_subscriptions (add_subscription chat c d) chat'
  = if decide (chat = chat')
    then sorted_set String.le (c :: list_subscriptions d chat)
    else list_subscriptions d chat'.
Proof.
  unfold list_subscriptions at 1. unfold add_subscription. cbn [subscriptions].
  rewrite lookup_insert. destruct (decide (chat = chat')); reflexivity.
Qed.

Lemma list_subscriptions_remove chat c d chat' :
  c ∈ list_subscriptions d chat ->
  list_subscriptions (remove_subscription chat c d).2 chat'
  = if decide (chat = chat')
    then sorted_set String.le
           (List.filter (fun y => negb (String.eqb y c)) (list_subscriptions d chat))
    else list_subscriptions d chat'.
Proof.
  intros Hin. unfold remove_subscription.
  destruct (decide (c ∈ list_subscriptions d chat)); [|done]. cbn [snd].
  unfold list_subscriptions at 1. cbn [subscriptions].
  rewrite lookup_insert. destruct (decide (chat = chat')); reflexivity.
Qed.

(** X1. Subscribing puts the channel among the chat's channels and keeps the
    others; the list is left increasing and without repetition; the lists of
    the other chats, the destinations and the per-channel state stay. *)
Theorem add_subscription_spec (chat : Z) (c : string) (d : data) :
  let d' := add_subscription chat c d in
  (forall x, x ∈ list_subscriptions d' chat <-> x = c \/ x ∈ list_subscriptions d chat)
  /\ normal String.le (list_subscriptions d' chat)
  /\ (forall chat', chat' <> chat -> list_subscriptions d' chat' = list_subscriptions d chat')
  /\ destinations d' = destinations d
  /\ same_state d d'.
Proof.
  cbn zeta. split_and!.
  - intros x. rewrite list_subscriptions_add, decide_True by done.
    rewrite (sorted_set_elem String.le), elem_of_cons. reflexivity.
  - rewrite list_subscriptions_add, decide_True by done.
    apply (sorted_set_normal String.le).
  - intros chat' Hne. by rewrite list_subscriptions_add, decide_False.
  - reflexivity.
  - by split_and!.
Qed.

(** X2. Subscribing twice is subscribing once. *)
Theorem add_subscription_idempotent (chat : Z) (c : string) (d : data) :
  add_subscription chat c (add_subscription chat c d) = add_subscription chat c d.
Proof.
  unfold add_subscription at 1. rewrite list_subscriptions_add, decide_True by done.
  unfold add_subscription. cbn [subscriptions last_live last_live_at cooldown_until
    destinations]. f_equal. rewrite insert_insert_eq. f_equal.
  apply (sorted_set_ext String.le). intros x.
  rewrite !elem_of_cons, (sorted_set_elem String.le), elem_of_cons. tauto.
Qed.

(** X3. Unsubscribing tells whether the channel was among the chat's channels.
    When it was not, nothing is written; when it was, it is gone, the others
    stay and the list is left increasing and without repetition. The lists
    of the other chats, the destinations and the per-channel state stay in
    both cases. *)
Theorem remove_subscription_spec (chat : Z) (c : string) (d : data) :
  let out := remove_subscription chat c d in
  (out.1 = true <-> c ∈ list_subscriptions d chat)
  /\ (out.1 = false -> out.2 = d)
  /\ (forall x, x ∈ list_subscriptions out.2 chat <-> x ∈ list_subscriptions d chat /\ x <> c)
  /\ (out.1 = true -> normal String.le (list_subscriptions out.2 chat))
  /\ (forall chat', chat' <> chat ->
        list_subscriptions out.2 chat' = list_subscriptions d chat')
  /\ destinations out.2 = destinations d
  /\ same_state d out.2.
Proof.
  cbn zeta. destruct (decide (c ∈ list_subscriptions d chat)) as [Hin|Hout].
  - pose proof (list_subscriptions_remove chat c d) as Hl.
    unfold remove_subscription in *.
    destruct (decide (c ∈ list_subscriptions d chat)); [|done]. cbn [fst snd] in *.
    split_and!.
    + done.
    + discriminate.
    + intros x. rewrite Hl, decide_True by done.
      rewrite (sorted_set_elem String.le). apply elem_of_filter_neq.
    + intros _. rewrite Hl, decide_True by done. apply (sorted_set_normal String.le).
    + intros chat' Hne. by rewrite Hl, decide_False.
    + reflexivity.
    + by split_and!.
  - unfold remove_subscription.
    destruct (decide (c ∈ list_subscriptions d chat)); [done|]. cbn [fst snd].
    split_and!; try done.
    intros x. split; [|tauto]. intros Hx. split; [done|]. by intros ->.
Qed.

Lemma elem_of_all_subscribers_for (d : data) (chat : Z) (c : string) :
  chat ∈ all_subscribers_for d c <-> c ∈ list_subscriptions d chat.
Proof.
  unfold all_subscribers_for, list_subscriptions. rewrite elem_of_dom. split.
  - intros [l Hl]. apply map_lookup_filter_Some in Hl as [Hl Hc]. by rewrite Hl.
  - intros Hc. destruct (subscriptions d !! chat) as [l|] eqn:Hl; cbn in Hc.
    + exists l. by apply map_lookup_filter_Some.
    + by apply elem_of_nil in Hc.
Qed.

Lemma elem_of_all_channels (d : data) (c : string) :
  c ∈ all_channels d
  <-> (exists chat, c ∈ list_subscriptions d chat) \/ is_Some (destinations d !! c).
Proof.
  unfold all_channels. rewrite elem_of_union, elem_of_dom, elem_of_union_list.
  split; (intros [H|H]; [left|by right]).
  - destruct H as (X & HX & Hc). apply list_elem_of_In, List.in_map_iff in HX
      as ([chat l] & <- & Hkv). apply list_elem_of_In, elem_of_map_to_list in Hkv.
    exists chat. unfold list_subscriptions. rewrite Hkv. cbn.
    by apply elem_of_list_to_set in Hc.
  - destruct H as [chat Hc]. unfold list_subscriptions in Hc.
    destruct (subscriptions d !! chat) as [l|] eqn:Hl; cbn in Hc;
      [|by apply elem_of_nil in Hc].
    exists (list_to_set l). split; [|by apply elem_of_list_to_set].
    apply list_elem_of_In, List.in_map_iff. exists (chat, l). split; [done|].
    by apply list_elem_of_In, elem_of_map_to_list.
Qed.

(** X4. The two queries the polling loop makes of the subscriptions. A chat is
    a subscriber of a channel exactly when the channel is among the chat's
    channels; and the tracked channels are those some chat subscribes to
    and those with an entry among the destinations, be the entry the empty
    list. *)
Theorem store_queries (d : data) (c : string) :
  (forall chat, chat ∈ all_subscribers_for d c <-> c ∈ list_subscriptions d chat)
  /\ (c ∈ all_channels d
      <-> (exists chat, c ∈ list_subscriptions d chat) \/ is_Some (destinations d !! c))
  /\ (all_subscribers_for d c ⊆ dom (subscriptions d))
  /\ (forall chat, chat ∈ all_subscribers_for d c -> c ∈ all_channels d).
Proof.
  split_and!.
  - intros chat. apply elem_of_all_subscribers_for.
  - apply elem_of_all_channels.
  - intros chat Hc. apply elem_of_all_subscribers_for in Hc.
    unfold list_subscriptions in Hc. apply elem_of_dom.
    destruct (subscriptions d !! chat); [done|by apply elem_of_nil in Hc].
  - intros chat Hc. apply elem_of_all_channels. left. exists chat.
    by apply elem_of_all_subscribers_for.
Qed.

Lemma list_destinations_add c k d c' :
  list_destinations (add_destination c k d) c'
  = if decide (c = c')
    then sorted_set Z.le (k :: list_destinations d c)
    else list_destinations d c'.
Proof.
  unfold list_destinations at 1. unfold add_destination. cbn [destinations].
  rewrite lookup_insert. destruct (decide (c = c')); reflexivity.
Qed.

Lemma list_destinations_remove c k d c' :
  k ∈ list_destinations d c ->
  list_destinations (remove_destination c k d).2 c'
  = if decide (c = c')
    then sorted_set Z.le (List.filter (fun y => negb (y =? k)) (list_destinations d c))
    else list_destinations d c'.
Proof.
  intros Hin. unfold remove_destination.
  destruct (decide (k ∈ list_destinations d c)); [|done]. cbn [snd].
  unfold list_destinations at 1. cbn [destinations].
  rewrite lookup_insert. destruct (decide (c = c')); reflexivity.
Qed.

Lemma elem_of_filter_neq_Z (k : Z) l x :
  x ∈ List.filter (fun y => negb (y =? k)) l <-> x ∈ l /\ x <> k.
Proof.
  rewrite !list_elem_of_In, List.filter_In. split; intros [H1 H2]; (split; [done|]).
  - intros ->. by rewrite Z.eqb_refl in H2.
  - destruct (Z.eqb_spec x k); done.
Qed.

(** X5. Adding a destination puts the chat among the destinations of the
    channel and keeps the others, in increasing order and without
    repetition; removing one tells whether it was there, writes nothing when
    it was not and takes out just that chat when it was. Neither touches
    another channel's destinations, the subscriptions or the per-channel
    state. *)
Theorem destinations_spec (c : string) (k : Z) (d : data) :
  let added := add_destination c k d in
  let out := remove_destination c k d in
  (forall x, x ∈ list_destinations added c <-> x = k \/ x ∈ list_destinations d c)
  /\ normal Z.le (list_destinations added c)
  /\ (out.1 = true <-> k ∈ list_destinations d c)
  /\ (out.1 = false -> out.2 = d)
  /\ (forall x, x ∈ list_destinations out.2 c <-> x ∈ list_destinations d c /\ x <> k)
  /\ (forall c', c' <> c ->
        list_destinations added c' = list_destinations d c'
        /\ list_destinations out.2 c' = list_destinations d c')
  /\ subscriptions added = subscriptions d /\ subscriptions out.2 = subscriptions d
  /\ same_state d added /\ same_state d out.2.
Proof.
  cbn zeta.
  assert (Hadd : forall x, x ∈ list_destinations (add_destination c k d) c
                           <-> x = k \/ x ∈ list_destinations d c).
  { intros x. rewrite list_destinations_add, decide_True by done.
    rewrite (sorted_set_elem Z.le), elem_of_cons. reflexivity. }
  assert (Hnormal : normal Z.le (list_destinations (add_destination c k d) c)).
  { rewrite list_destinations_add, decide_True by done. apply (sorted_set_normal Z.le). }
  assert (Hother : forall c', c' <> c ->
            list_destinations (add_destination c k d) c' = list_destinations d c').
  { intros c' Hne. by rewrite list_destinations_add, decide_False. }
  destruct (decide (k ∈ list_destinations d c)) as [Hin|Hout].
  - pose proof (list_destinations_remove c k d) as Hl.
    unfold remove_destination in *.
    destruct (decide (k ∈ list_destinations d c)); [|done]. cbn [fst snd] in *.
    split_and!; try done.
    + intros x. rewrite Hl, decide_True by done.
      rewrite (sorted_set_elem Z.le). apply elem_of_filter_neq_Z.
    + intros c' Hne. split; [by apply Hother|]. by rewrite Hl, decide_False.
  - unfold remove_destination.
    destruct (decide (k ∈ list_destinations d c)); [done|]. cbn [fst snd].
    split_and!; try done.
    + intros x. split; [|tauto]. intros Hx. split; [done|]. by intros ->.
    + intros c' Hne. split; [by apply Hother|done].
Qed.

(** X6. Clearing the destinations of a channel empties its list and changes
    nothing else: not the destinations of other channels, not the
    subscriptions, not the per-channel state, and not the set of tracked
    channels, in which the channel stays by its entry. *)
Theorem clear_destinations_spec (c : string) (d : data) :
  let d' := clear_destinations c d in
  list_destinations d' c = []
  /\ (forall c', c' <> c -> list_destinations d' c' = list_destinations d c')
  /\ subscriptions d' = subscriptions d
  /\ same_state d d'
  /\ dom (destinations d') = dom (destinations d)
  /\ all_channels d' = all_channels d
  /\ (destinations d !! c = None -> d' = d).
Proof.
  cbn zeta. unfold clear_destinations.
  destruct (destinations d !! c) as [l|] eqn:Hl.
  - assert (Hdom : dom (<[c := []]> (destinations d)) = dom (destinations d)).
    { rewrite dom_insert_L. apply (elem_of_dom_2 (D := gset string)) in Hl.
      apply subseteq_union_1_L, singleton_subseteq_l, Hl. }
    unfold list_destinations, all_channels. cbn [destinations subscriptions].
    split_and!; try done.
    + by rewrite lookup_insert_eq.
    + intros c' Hne. by rewrite lookup_insert_ne.
    + by rewrite Hdom.
  - unfold list_destinations. rewrite Hl. by split_and!.
Qed.

(** X7. What is set for a channel is what is got for it, the pieces of state of
    the other channels and the other sections of the store being as they
    were. *)
Theorem state_round_trip (c v : string) (d : data) :
  (get_last_live (set_last_live c v d) c = Some v
   /\ get_last_live_at (set_last_live_at c v d) c = Some v
   /\ get_cooldown_until (set_cooldown_until c v d) c = Some v)
  /\ (forall c', c' <> c ->
        get_last_live (set_last_live c v d) c' = get_last_live d c'
        /\ get_last_live_at (set_last_live_at c v d) c' = get_last_live_at d c'
        /\ get_cooldown_until (set_cooldown_until c v d) c' = get_cooldown_until d c')
  /\ (forall c',
        get_last_live_at (set_last_live c v d) c' = get_last_live_at d c'
        /\ get_cooldown_until (set_last_live c v d) c' = get_cooldown_until d c'
        /\ get_last_live (set_last_live_at c v d) c' = get_last_live d c'
        /\ get_cooldown_until (set_last_live_at c v d) c' = get_cooldown_until d c'
        /\ get_last_live (set_cooldown_until c v d) c' = get_last_live d c'
        /\ get_last_live_at (set_cooldown_until c v d) c' = get_last_live_at d c')
  /\ (forall f, f = set_last_live c v \/ f = set_last_live_at c v
                \/ f = set_cooldown_until c v ->
        subscriptions (f d) = subscriptions d /\ destinations (f d) = destinations d).
Proof.
  unfold get_last_live, get_last_live_at, get_cooldown_until,
    set_last_live, set_last_live_at, set_cooldown_until. cbn.
  split_and!.
  - apply lookup_insert_eq.
  - apply lookup_insert_eq.
  - apply lookup_insert_eq.
  - intros c' Hne. by rewrite !lookup_insert_ne.
  - done.
  - intros f [->|[->| ->]]; done.
Qed.

Lemma tidy_empty : tidy empty.
Proof. split; intros k l H; cbn in H; by rewrite lookup_empty in H. Qed.

Lemma tidy_add_subscription chat c d : tidy d -> tidy (add_subscription chat c d).
Proof.
  intros [Hsubs Hdests]. split; [|exact Hdests].
  intros k l'. cbn [add_subscription subscriptions]. rewrite lookup_insert.
  destruct (decide (chat = k)).
  - intros [= <-]. apply (sorted_set_normal String.le).
  - apply Hsubs.
Qed.

(** X8. Every operation of the store keeps its lists in normal form: when the
    channels of every chat and the destinations of every channel are
    increasing and without repetition, as in the store [__init__] writes,
    they are so after the operation. *)
Theorem tidy_kept (d : data) :
  tidy d ->
  forall (chat : Z) (c ts : string),
    tidy (add_subscription chat c d)
    /\ tidy (remove_subscription chat c d).2
    /\ tidy (add_destination c chat d)
    /\ tidy (remove_destination c chat d).2
    /\ tidy (clear_destinations c d)
    /\ tidy (set_last_live c ts d)
    /\ tidy (set_last_live_at c ts d)
    /\ tidy (set_cooldown_until c ts d).
Proof.
  intros [Hsubs Hdests] chat c ts.
  assert (Hins_s : forall l, normal String.le l ->
            forall k l', <[chat := l]> (subscriptions d) !! k = Some l' ->
                         normal String.le l').
  { intros l Hl k l'. rewrite lookup_insert. destruct (decide (chat = k)).
    - by intros [= <-].
    - apply Hsubs. }
  assert (Hins_d : forall l, normal Z.le l ->
            forall k l', <[c := l]> (destinations d) !! k = Some l' -> normal Z.le l').
  { intros l Hl k l'. rewrite lookup_insert. destruct (decide (c = k)).
    - by intros [= <-].
    - apply Hdests. }
  split_and!.
  - split; [|exact Hdests]. apply Hins_s, (sorted_set_normal String.le).
  - unfold remove_subscription. destruct (decide _); [|by split].
    split; [|exact Hdests]. apply Hins_s, (sorted_set_normal String.le).
  - split; [exact Hsubs|]. apply Hins_d, (sorted_set_normal Z.le).
  - unfold remove_destination. destruct (decide _); [|by split].
    split; [exact Hsubs|]. apply Hins_d, (sorted_set_normal Z.le).
  - unfold clear_destinations. destruct (destinations d !! c); [|by split].
    split; [exact Hsubs|]. apply Hins_d. split; constructor.
  - by split.
  - by split.
  - by split.
Qed.

Lemma tidy_kept_witness :
  tidy empty /\ tidy (add_subscription 7 "UCa" empty)
  /\ tidy (clear_destinations "UCa" empty).
Proof.
  pose proof (tidy_kept empty tidy_empty 7 "UCa" "") as H.
  split; [exact tidy_empty|]. split; [exact (proj1 H)|].
  exact (proj1 (proj2 (proj2 (proj2 (proj2 H))))).
Defined.

(** X9. In a store with its lists in normal form, subscribing to a channel that
    is subscribed already writes back what is there, and unsubscribing from
    a channel just subscribed to gives back the store as it was, provided the
    chat had an entry before. *)
Theorem subscription_round_trip (chat : Z) (c : string) (d : data) (l : list string) :
  tidy d -> subscriptions d !! chat = Some l ->
  (c ∈ l -> add_subscription chat c d = d)
  /\ (c ∉ l -> remove_subscription chat c (add_subscription chat c d) = (true, d)).
Proof.
  intros [Hsubs _] Hl. pose proof (Hsubs chat l Hl) as Hnormal.
  assert (Hlist : list_subscriptions d chat = l)
    by (unfold list_subscriptions; by rewrite Hl).
  assert (Hback : forall l', l' = l ->
            {| subscriptions := <[chat := l']> (subscriptions d);
               last_live := last_live d; last_live_at := last_live_at d;
               cooldown_until := cooldown_until d; destinations := destinations d |} = d).
  { intros l' ->. rewrite insert_id by done. by destruct d. }
  split.
  - intros Hin. unfold add_subscription. rewrite Hlist. apply Hback.
    apply (normal_unique String.le); [apply (sorted_set_normal String.le)|done|].
    intros x. rewrite (sorted_set_elem String.le), elem_of_cons.
    split; [intros [->|]; done|tauto].
  - intros Hout. unfold remove_subscription.
    rewrite list_subscriptions_add.
    rewrite (decide_True (P := chat = chat)) by done. rewrite Hlist.
    rewrite decide_True by (rewrite (sorted_set_elem String.le); left).
    f_equal. unfold add_subscription. cbn [subscriptions last_live last_live_at
      cooldown_until destinations]. rewrite insert_insert_eq. apply Hback.
    apply (normal_unique String.le); [apply (sorted_set_normal String.le)|done|].
    intros x. rewrite (sorted_set_elem String.le), elem_of_filter_neq,
      (sorted_set_elem String.le), elem_of_cons.
    split; [intros [[->|H] Hne]; done|]. intros Hx. split; [by right|].
    intros ->. done.
Qed.

Lemma subscription_round_trip_witness :
  add_subscription 7 "UCa" (add_subscription 7 "UCa" empty) = add_subscription 7 "UCa" empty
  /\ remove_subscription 7 "UCb" (add_subscription 7 "UCb" (add_subscription 7 "UCa" empty))
     = (true, add_subscription 7 "UCa" empty).
Proof.
  assert (Ht : tidy (add_subscription 7 "UCa" empty))
    by (apply tidy_add_subscription, tidy_empty).
  destruct (subscription_round_trip 7 "UCa" (add_subscription 7 "UCa" empty) ["UCa"] Ht)
    as [H1 _]; [reflexivity|].
  destruct (subscription_round_trip 7 "UCb" (add_subscription 7 "UCa" empty) ["UCa"] Ht)
    as [_ H2]; [reflexivity|].
  split.
  - apply H1. left.
  - apply H2. intros H. apply list_elem_of_In in H. cbn in H.
    destruct H as [H|[]]. discriminate H.
Defined.

End Store.

(** * Further properties: the client *)

Section CallBudget.
Import YouTubeClient ClientSpec.

Variable http : Http.
Variable retries : Z.

Lemma length_range : length (range retries) = Z.to_nat retries.
Proof. unfold range. by rewrite length_map, length_seq. Qed.

(** The inner loop, whatever the service does: at most one request per
    attempt, all of them the same; an exception leaves it only when the
    transport raised it and the loop does not catch it. *)
Lemma attempts_budget req todo : forall d c,
  let out := attempts http req retries todo d c in
  _keys out.2 = _keys c
  /\ (well_formed c -> well_formed out.2)
  /\ (sent c <= sent out.2 <= sent c + length todo)%nat
  /\ gets (log out.2) = gets (log c) ++ replicate (sent out.2 - sent c) req
  /\ (forall e, out.1.1 = Propagate e ->
        exists cls n, e = OtherError cls /\ http n req = Fails e
                      /\ (sent c <= n < sent out.2)%nat).
Proof.
  induction todo as [|attempt rest IH]; intros d c; cbn zeta.
  - cbn [attempts fst snd length]. split_and!; try done; try lia.
    rewrite Nat.sub_diag. cbn. by rewrite app_nil_r.
  - cbn [attempts]. rewrite send_asked.
    assert (Hstop : forall (f : flow) (d' : Q),
      (forall e, f = Propagate e ->
         exists cls n, e = OtherError cls /\ http n req = Fails e
                       /\ (sent c <= n < S (sent c))%nat) ->
      let out := (f, d', asked req c) in
      _keys out.2 = _keys c
      /\ (well_formed c -> well_formed out.2)
      /\ (sent c <= sent out.2 <= sent c + length (attempt :: rest))%nat
      /\ gets (log out.2) = gets (log c) ++ replicate (sent out.2 - sent c) req
      /\ (forall e, out.1.1 = Propagate e ->
            exists cls n, e = OtherError cls /\ http n req = Fails e
                          /\ (sent c <= n < sent out.2)%nat)).
    { intros f d' Hf. cbn [fst snd asked sent log _keys length]. split_and!; try done; try lia.
      replace (S (sent c) - sent c)%nat with 1%nat by lia.
      by rewrite gets_app. }
    assert (Hretry :
      let out := attempts http req retries rest (Qred (d * 2))
                   (record (EvSleep d) (asked req c)) in
      _keys out.2 = _keys c
      /\ (well_formed c -> well_formed out.2)
      /\ (sent c <= sent out.2 <= sent c + length (attempt :: rest))%nat
      /\ gets (log out.2) = gets (log c) ++ replicate (sent out.2 - sent c) req
      /\ (forall e, out.1.1 = Propagate e ->
            exists cls n, e = OtherError cls /\ http n req = Fails e
                          /\ (sent c <= n < sent out.2)%nat)).
    { cbn zeta.
      destruct (IH (Qred (d * 2)) (record (EvSleep d) (asked req c)))
        as (Hk & Hw & Hs & Hg & He).
      cbn [record asked sent _keys log length] in *.
      split_and!; try done; try lia.
      - rewrite Hg, !gets_app. cbn [gets omap]. rewrite app_nil_r, <- app_assoc.
        f_equal.
        replace (sent _ - sent c)%nat
          with (S (sent (attempts http req retries rest (Qred (d * 2))
                           (record (EvSleep d) (asked req c))).2 - S (sent c)))
          by (cbn [record asked sent] in *; lia).
        reflexivity.
      - intros e Hp. destruct (He e Hp) as (cls & n & H1 & H2 & H3).
        exists cls, n. split_and!; try done; lia. }
    destruct (http (sent c) req) as [r|[| | | |cls]] eqn:Hreply.
    + destruct (quota_rejected r).
      * destruct (Hstop Break d ltac:(done)) as (Hk & Hw & Hs & Hg & He).
        cbn [fst snd] in *. rewrite advance_keys, advance_sent, advance_gets.
        split_and!; try done; try lia.
        intros Hwf. by apply advance_well_formed, Hw.
      * destruct (is_success r); apply Hstop; done.
    + destruct (attempt =? retries - 1); [by apply Hstop|apply Hretry].
    + destruct (attempt =? retries - 1); [by apply Hstop|apply Hretry].
    + destruct (attempt =? retries - 1); [by apply Hstop|apply Hretry].
    + by apply Hstop.
    + apply Hstop. intros e [= <-]. exists cls, (sent c). split_and!; try done; lia.
Qed.

(** When the inner loop ends by [break], the cursor has moved on by one
    place. *)
Lemma attempts_break req todo : forall d c,
  well_formed c ->
  (attempts http req retries todo d c).1.1 = Break ->
  forall i, credential (attempts http req retries todo d c).2 i = credential c (S i).
Proof.
  induction todo as [|attempt rest IH]; intros d c Hwf; cbn [attempts]; [discriminate|].
  rewrite send_asked.
  assert (Hretry :
    (attempts http req retries rest (Qred (d * 2)) (record (EvSleep d) (asked req c))).1.1
    = Break ->
    forall i,
      credential (attempts http req retries rest (Qred (d * 2))
                    (record (EvSleep d) (asked req c))).2 i
      = credential c (S i)).
  { intros Hb i.
    exact (IH (Qred (d * 2)) (record (EvSleep d) (asked req c)) Hwf Hb i). }
  destruct (http (sent c) req) as [r|[| | | |cls]].
  - destruct (quota_rejected r).
    + intros _ i. cbn [snd]. by rewrite (credential_advance (asked req c) i Hwf).
    + destruct (is_success r); discriminate.
  - destruct (attempt =? retries - 1); [discriminate|exact Hretry].
  - destruct (attempt =? retries - 1); [discriminate|exact Hretry].
  - destruct (attempt =? retries - 1); [discriminate|exact Hretry].
  - discriminate.
  - discriminate.
Qed.

Variable url : string.
Variable params : gmap string param.

Lemma carrying_app key l1 l2 :
  carrying key (l1 ++ l2) = (carrying key l1 + carrying key l2)%nat.
Proof. unfold carrying. by rewrite List.filter_app, length_app. Qed.

Lemma carrying_replicate key key' k :
  carrying key (replicate k (with_key url params key'))
  = if String.eqb key key' then k else 0%nat.
Proof.
  unfold carrying.
  assert (Hk : key_of (with_key url params key') = Some key').
  { unfold key_of, with_key. cbn [YouTubeClient.params]. by rewrite lookup_insert_eq. }
  induction k as [|k IH]; cbn [replicate List.filter]; [by destruct (String.eqb key key')|].
  rewrite Hk. destruct (String.eqb_spec key key') as [->|Hne].
  - rewrite bool_decide_eq_true_2 by done. cbn [length]. by rewrite IH.
  - rewrite bool_decide_eq_false_2 by congruence. exact IH.
Qed.

Lemma listed_app key l1 l2 : listed key (l1 ++ l2) = (listed key l1 + listed key l2)%nat.
Proof. unfold listed. by rewrite List.filter_app, length_app. Qed.

Lemma listed_perm key l1 l2 : l1 ≡ₚ l2 -> listed key l1 = listed key l2.
Proof.
  unfold listed. induction 1 as [|x l l' _ IH|x y l|l l' l'' _ IH1 _ IH2]; cbn [List.filter].
  - reflexivity.
  - destruct (String.eqb key x); cbn [length]; by rewrite IH.
  - by destruct (String.eqb key x), (String.eqb key y).
  - by rewrite IH1.
Qed.

(** Requests made credential by credential, at most [k] with each: at most
    [k] of them carry a credential for each of the places, among those
    visited, where it is listed. *)
Lemma carrying_run key k counts : forall f : nat -> string,
  Forall (fun n => (n <= k)%nat) counts ->
  (carrying key (concat (imap (fun i n => replicate n (with_key url params (f i))) counts))
   <= k * listed key (List.map f (seq 0 (length counts))))%nat.
Proof.
  induction counts as [|n counts IH]; intros f Hle; [cbn; lia|].
  apply Forall_cons in Hle as [Hn Hle].
  rewrite imap_cons. cbn [concat length seq List.map].
  rewrite carrying_app, carrying_replicate.
  change (f 0%nat :: List.map f (seq 1 (length counts)))
    with ([f 0%nat] ++ List.map f (seq 1 (length counts))).
  rewrite listed_app, <- seq_shift, List.map_map.
  specialize (IH (fun i => f (S i)) Hle).
  unfold listed at 1. cbn [List.filter].
  destruct (String.eqb key (f 0%nat)); cbn [length]; unfold compose in *; nia.
Qed.

(** The credentials, read from the cursor on, are those of the list. *)
Lemma credentials_rotate c :
  well_formed c ->
  List.map (credential c) (seq 0 (length (_keys c))) ≡ₚ _keys c.
Proof.
  intros Hwf. unfold well_formed in Hwf.
  assert (Heq : List.map (credential c) (seq 0 (length (_keys c)))
                = rotate (_key_index c) (_keys c)).
  { apply list_eq. intros i.
    change (List.map (credential c) (seq 0 (length (_keys c))))
      with (credential c <$> seq 0 (length (_keys c))).
    rewrite list_lookup_fmap.
    destruct (decide (i < length (_keys c))%nat) as [Hi|Hi].
    - rewrite lookup_seq_lt by exact Hi. cbn.
      rewrite lookup_rotate_r by exact Hi.
      unfold credential, rotate_nat_add.
      rewrite <- Nat2Z.inj_add, <- Nat2Z.inj_mod, Nat2Z.id.
      assert (Hlt : ((_key_index c + i) mod length (_keys c) < length (_keys c))%nat)
        by (apply Nat.mod_upper_bound; lia).
      destruct (lookup_lt_is_Some_2 _ _ Hlt) as [x Hx]. by rewrite Hx.
    - rewrite lookup_seq_ge by lia. cbn. symmetry.
      apply lookup_ge_None_2. rewrite length_rotate. lia. }
  rewrite Heq. unfold rotate.
  rewrite Permutation_app_comm. by rewrite take_drop.
Qed.

Lemma carrying_blocks key c counts :
  well_formed c ->
  (length counts <= length (_keys c))%nat ->
  Forall (fun n => (n <= Z.to_nat retries)%nat) counts ->
  (carrying key (blocks url params c counts)
   <= Z.to_nat retries * listed key (_keys c))%nat.
Proof.
  intros Hwf Hlen Hle. unfold blocks.
  pose proof (carrying_run key (Z.to_nat retries) counts (credential c) Hle) as H.
  rewrite <- (listed_perm key _ _ (credentials_rotate c Hwf)).
  replace (length (_keys c))
    with (length counts + (length (_keys c) - length counts))%nat by lia.
  rewrite seq_app, List.map_app, listed_app. nia.
Qed.

Lemma key_loop_budget left : forall d c,
  well_formed c ->
  let out := key_loop http url params retries left d c in
  _keys out.2 = _keys c
  /\ well_formed out.2
  /\ (sent c <= sent out.2 <= sent c + left * Z.to_nat retries)%nat
  /\ (exists made counts,
        gets (log out.2) = gets (log c) ++ made
        /\ length made = (sent out.2 - sent c)%nat
        /\ (forall req, req ∈ made ->
              exists key, key ∈ _keys c /\ req = with_key url params key)
        /\ made = blocks url params c counts
        /\ (length counts <= left)%nat
        /\ Forall (fun n => (n <= Z.to_nat retries)%nat) counts)
  /\ out.1 <> Untyped
  /\ (forall e, out.1 = Raise e ->
        exists cls n key, e = OtherError cls /\ key ∈ _keys c
                          /\ http n (with_key url params key) = Fails e
                          /\ (sent c <= n < sent out.2)%nat).
Proof.
  induction left as [|left IH]; intros d c Hwf; cbn zeta.
  - cbn [key_loop fst snd]. split_and!; try done; try lia.
    exists [], []. rewrite app_nil_r, Nat.sub_diag. split_and!; try done.
    intros req Hreq. by apply elem_of_nil in Hreq.
  - cbn [key_loop]. rewrite api_key_credential by exact Hwf.
    fold (with_key url params (credential c 0)).
    assert (Hkey : credential c 0 ∈ _keys c).
    { unfold credential. rewrite Nat.add_0_r, Nat.mod_small by exact Hwf.
      destruct (lookup_lt_is_Some_2 (_keys c) (_key_index c) Hwf) as [k Hk].
      rewrite Hk. cbn. by apply list_elem_of_lookup_2 in Hk. }
    pose proof (attempts_budget (with_key url params (credential c 0))
                  (range retries) d c) as Hb. cbn zeta in Hb.
    pose proof (attempts_break (with_key url params (credential c 0))
                  (range retries) d c Hwf) as Hnext.
    rewrite length_range in Hb.
    destruct (attempts http (with_key url params (credential c 0)) retries
                (range retries) d c) as [[f d'] c1].
    cbn [fst snd] in Hb, Hnext. destruct Hb as (Hk & Hw & Hs & Hg & He).
    assert (Hmade : exists made,
        gets (log c1) = gets (log c) ++ made
        /\ length made = (sent c1 - sent c)%nat
        /\ (forall req, req ∈ made ->
              exists key, key ∈ _keys c /\ req = with_key url params key)
        /\ made = replicate (sent c1 - sent c) (with_key url params (credential c 0))).
    { exists (replicate (sent c1 - sent c) (with_key url params (credential c 0))).
      split_and!; [exact Hg|by rewrite length_replicate| |reflexivity].
      intros req Hreq. apply elem_of_replicate in Hreq as [-> _].
      by exists (credential c 0). }
    assert (Hone : exists made counts,
        gets (log c1) = gets (log c) ++ made
        /\ length made = (sent c1 - sent c)%nat
        /\ (forall req, req ∈ made ->
              exists key, key ∈ _keys c /\ req = with_key url params key)
        /\ made = blocks url params c counts
        /\ (length counts <= S left)%nat
        /\ Forall (fun n => (n <= Z.to_nat retries)%nat) counts).
    { destruct Hmade as (made & Hg1 & Hl1 & Hm1 & Hr1).
      exists made, [(sent c1 - sent c)%nat]. split_and!; try done.
      - unfold blocks. cbn. by rewrite app_nil_r.
      - cbn. lia.
      - constructor; [lia|constructor]. }
    destruct f as [r| | |e]; cbn [fst snd].
    + split_and!; try done; try lia. by apply Hw.
    + destruct (IH d' c1 (Hw Hwf))
        as (Hk' & Hw' & Hs' & (made' & counts' & Hg' & Hl' & Hm' & Hb' & Hc' & Hf') & Hu' & He').
      destruct Hmade as (made & Hg1 & Hl1 & Hm1 & Hr1).
      split_and!; try done.
      * by rewrite Hk'.
      * lia.
      * lia.
      * exists (made ++ made'), ((sent c1 - sent c)%nat :: counts'). split_and!.
        -- by rewrite Hg', Hg1, <- app_assoc.
        -- rewrite length_app. lia.
        -- intros req Hreq. apply elem_of_app in Hreq as [Hreq|Hreq]; [by apply Hm1|].
           rewrite <- Hk. by apply Hm'.
        -- rewrite Hr1, Hb'. unfold blocks. rewrite imap_cons. cbn [concat]. f_equal.
           f_equal. apply imap_ext. intros i n _. cbn. by rewrite (Hnext eq_refl i).
        -- cbn. lia.
        -- constructor; [lia|exact Hf'].
      * intros e Hr. destruct (He' e Hr) as (cls & n & key & H1 & H2 & H3 & H4).
        exists cls, n, key. rewrite <- Hk. split_and!; try done; lia.
    + split_and!; try done; try lia. by apply Hw.
    + split_and!; try done; try lia; [by apply Hw|].
      intros e' [= <-]. destruct (He e eq_refl) as (cls & n & H1 & H2 & H3).
      exists cls, n, (credential c 0). done.
Qed.

End CallBudget.

Section CallExtras.
Import YouTubeClient ClientSpec Samples.

(** X10. Whatever the service does, a call keeps the credentials and leaves the
    cursor inside them. Its requests come credential by credential, in the
    order of the list from the cursor on: at most the configured number of
    attempts for each place of the list, and no place twice; so a credential
    is carried by at most that number of requests times the number of places
    it is listed at, and the call makes at most that number times the length
    of the list in all. Every request is the one asked for with a credential
    of the list in the [key] parameter; and an exception leaves the call
    only when the transport raised it and it is none of those the call
    catches. *)
Theorem call_budget (http : Http) (url : string) (params : gmap string param)
    (retries : Z) (c : client) :
  well_formed c ->
  let out := _get http url params retries c in
  _keys out.2 = _keys c
  /\ well_formed out.2
  /\ (sent c <= sent out.2 <= sent c + length (_keys c) * Z.to_nat retries)%nat
  /\ (exists made counts,
        gets (log out.2) = gets (log c) ++ made
        /\ length made = (sent out.2 - sent c)%nat
        /\ (forall req, req ∈ made ->
              exists key, key ∈ _keys c /\ req = with_key url params key)
        /\ made = blocks url params c counts
        /\ (length counts <= length (_keys c))%nat
        /\ Forall (fun n => (n <= Z.to_nat retries)%nat) counts
        /\ forall key,
             (carrying key made <= Z.to_nat retries * listed key (_keys c))%nat)
  /\ out.1 <> Untyped
  /\ (forall e, out.1 = Raise e ->
        exists cls n key, e = OtherError cls /\ key ∈ _keys c
                          /\ http n (with_key url params key) = Fails e
                          /\ (sent c <= n < sent out.2)%nat).
Proof.
  intros Hwf. cbn zeta.
  destruct (key_loop_budget http retries url params (length (_keys c)) (1 # 2) c Hwf)
    as (Hk & Hw & Hs & (made & counts & Hg & Hl & Hm & Hb & Hc & Hf) & Hu & He).
  unfold _get. split_and!; [exact Hk|exact Hw|lia|lia| |exact Hu|exact He].
  exists made, counts. split_and!; try done.
  intros key. rewrite Hb. by apply carrying_blocks.
Qed.

Lemma call_budget_witness :
  well_formed two_keys
  /\ (sent two_keys <= sent (_get first_rejected search_url ∅ 3 two_keys).2
       <= sent two_keys + length (_keys two_keys) * Z.to_nat 3)%nat.
Proof.
  split; [exact two_keys_well_formed|].
  exact (proj1 (proj2 (proj2
    (call_budget first_rejected search_url ∅ 3 two_keys two_keys_well_formed)))).
Defined.

(** X11. Timeouts that are not the last attempt are slept over, and the first
    answer that is neither a timeout nor a quota rejection settles the call
    with the credential it started on: a 2xx response is returned, any other
    response and an [HTTPStatusError] give no result, and any other
    exception leaves the call. One request was made per timeout and one
    more, and the delays slept are [0.5] doubled step by step. *)
Theorem call_settles_after_timeouts (http : Http) (url : string)
    (params : gmap string param) (retries : Z) (c : client) (j : nat) :
  well_formed c ->
  (j < Z.to_nat retries)%nat ->
  let req := with_key url params (credential c 0) in
  (forall i, (i < j)%nat -> is_timeout (http (sent c + i)%nat req) = true) ->
  let out := _get http url params retries c in
  let settled :=
    gets (log out.2) = gets (log c) ++ replicate (S j) req
    /\ sleeps (log out.2) = sleeps (log c) ++ List.map backoff (seq 0 j)
    /\ sent out.2 = (sent c + S j)%nat
    /\ _key_index out.2 = _key_index c in
  (forall r, http (sent c + j)%nat req = Got r -> quota_rejected r = false ->
     out.1 = Ret (if is_success r then Some r else None) /\ settled)
  /\ (http (sent c + j)%nat req = Fails HTTPStatusError -> out.1 = Ret None /\ settled)
  /\ (forall cls, http (sent c + j)%nat req = Fails (OtherError cls) ->
        out.1 = Raise (OtherError cls) /\ settled).
Proof.
  intros Hwf Hj req Hto out settled.
  destruct (keys_nonempty c Hwf) as [N' HN].
  assert (Hpos : 0 < retries) by lia.
  destruct (range_split retries Hpos j Hj) as [rest Hrange].
  pose proof (sent_slept req j (1 # 2) c) as Hsent.
  pose proof (slept_gets req j (1 # 2) c) as Hgets.
  pose proof (slept_sleeps req j 0 c) as Hsleeps.
  destruct (slept_keys req j (1 # 2) c) as [Hkeys Hidx].
  change (backoff 0) with (1 # 2)%Q in Hsleeps.
  assert (Hout : out
    = match attempts http req retries (Z.of_nat j :: rest)
              (slept req j (1 # 2) c).1 (slept req j (1 # 2) c).2 with
      | (Return r, _, c') => (Ret r, c')
      | (Break, delay', c') => key_loop http url params retries N' delay' c'
      | (Exhausted, _, c') => (Ret None, c')
      | (Propagate e, _, c') => (Raise e, c')
      end).
  { subst out. unfold _get. rewrite HN. cbn [key_loop].
    rewrite api_key_credential by exact Hwf.
    fold (with_key url params (credential c 0)). fold req.
    rewrite Hrange, attempts_slept by (done || lia). reflexivity. }
  set (c1 := (slept req j (1 # 2) c).2) in *.
  assert (Hsettled : forall o, out = (o, asked req c1) -> out.1 = o /\ settled).
  { intros o E. subst settled. rewrite E. cbn [fst snd log asked sent _key_index].
    rewrite gets_app, sleeps_app, Hgets, Hsleeps, Hsent, Hidx. cbn [gets sleeps omap].
    rewrite app_nil_r, <- app_assoc.
    replace (S j) with (j + 1)%nat by lia. rewrite replicate_add.
    split_and!; try done. lia. }
  cbn [attempts] in Hout. rewrite send_asked, Hsent in Hout.
  split_and!.
  - intros r Hr Hq. rewrite Hr, Hq in Hout.
    destruct (is_success r); by apply Hsettled.
  - intros Hr. rewrite Hr in Hout. by apply Hsettled.
  - intros cls Hr. rewrite Hr in Hout. by apply Hsettled.
Qed.

Lemma call_settles_after_timeouts_witness :
  (_get flaky search_url ∅ 3 two_keys).1 = Ret (Some nothing_live)
  /\ sleeps (log (_get flaky search_url ∅ 3 two_keys).2) = [(1 # 2)%Q]
  /\ sent (_get flaky search_url ∅ 3 two_keys).2 = 2%nat.
Proof.
  assert (Hj : (1 < Z.to_nat 3)%nat) by (vm_compute; lia).
  assert (Hto : forall i, (i < 1)%nat ->
            is_timeout (flaky (sent two_keys + i)%nat
                          (with_key search_url ∅ (credential two_keys 0))) = true).
  { intros i Hi. destruct i; [reflexivity|lia]. }
  destruct (call_settles_after_timeouts flaky search_url ∅ 3 two_keys 1
              two_keys_well_formed Hj Hto) as [H _].
  destruct (H nothing_live eq_refl eq_refl) as (H1 & H2 & H3 & H4 & H5).
  split_and!; [exact H1|exact H3|exact H4].
Defined.

(** X12. When every credential is rejected the call has asked each of them once
    and the cursor is back on the credential it started from; the next call
    starts there again and, the service still rejecting, asks every
    credential once more. *)
Theorem exhaustion_keeps_cursor (http : Http) (url url' : string)
    (params params' : gmap string param) (retries : Z) (c : client) :
  0 < retries -> well_formed c ->
  let N := length (_keys c) in
  let out := _get http url params retries c in
  (forall i, (i < N)%nat -> rejects http (with_key url params (credential c i))) ->
  _key_index out.2 = _key_index c
  /\ _keys out.2 = _keys c
  /\ sent out.2 = (sent c + N)%nat
  /\ ((forall i, (i < N)%nat -> rejects http (with_key url' params' (credential c i))) ->
      let out' := _get http url' params' retries out.2 in
      out'.1 = Ret None
      /\ gets (log out'.2)
         = gets (log out.2)
           ++ List.map (fun i => with_key url' params' (credential c i)) (seq 0 N)
      /\ _key_index out'.2 = _key_index c).
Proof.
  intros Hpos Hwf N out Hrej. subst N.
  assert (Hfull : forall c0, well_formed c0 -> ((_key_index c0 + length (_keys c0))
                    mod length (_keys c0))%nat = _key_index c0).
  { intros c0 H0. replace (_key_index c0 + length (_keys c0))%nat
      with (_key_index c0 + 1 * length (_keys c0))%nat by lia.
    rewrite Nat.Div0.mod_add. apply Nat.mod_small. exact H0. }
  assert (Hout : out = (Ret None, rotated url params (length (_keys c)) c)).
  { subst out. unfold _get.
    pose proof (key_loop_rotated http retries url params (length (_keys c)) 0 (1 # 2) c
                  Hpos Hwf Hrej) as E.
    rewrite Nat.add_0_r in E. rewrite E. reflexivity. }
  destruct (rotated_spec url params (length (_keys c)) c Hwf)
    as (Hwf1 & Hk1 & Hi1 & Hs1 & _ & _ & Hc1).
  rewrite (Hfull c Hwf) in Hi1.
  rewrite Hout. cbn [fst snd]. split_and!; try done.
  intros Hrej'. set (c1 := rotated url params (length (_keys c)) c) in *.
  assert (Hcred : forall i, credential c1 i = credential c i).
  { intros i. unfold credential. by rewrite Hk1, Hi1. }
  assert (Hrej1 : forall i, (i < length (_keys c1))%nat ->
            rejects http (with_key url' params' (credential c1 i))).
  { intros i Hi. rewrite Hcred. apply Hrej'. by rewrite Hk1 in Hi. }
  cbn zeta. unfold _get.
  pose proof (key_loop_rotated http retries url' params' (length (_keys c1)) 0 (1 # 2) c1
                Hpos Hwf1 Hrej1) as E.
  rewrite Nat.add_0_r in E. rewrite E. cbn [key_loop fst snd].
  destruct (rotated_spec url' params' (length (_keys c1)) c1 Hwf1)
    as (_ & _ & Hi2 & _ & Hg2 & _ & _).
  rewrite (Hfull c1 Hwf1) in Hi2.
  split_and!; [done| |by rewrite Hi2].
  rewrite Hg2, Hk1. f_equal. apply List.map_ext. intros i. by rewrite Hcred.
Qed.

Lemma exhaustion_keeps_cursor_witness :
  _key_index (_get all_rejected search_url ∅ 3 two_keys).2 = 0%nat
  /\ sent (_get all_rejected search_url ∅ 3 two_keys).2 = 2%nat.
Proof.
  assert (Hrej : forall i, (i < length (_keys two_keys))%nat ->
            rejects all_rejected (with_key search_url ∅ (credential two_keys i))).
  { intros i _ n. exists rejection. split; reflexivity. }
  destruct (exhaustion_keeps_cursor all_rejected search_url search_url ∅ ∅ 3 two_keys
              ltac:(lia) two_keys_well_formed Hrej) as (H1 & _ & H3 & _).
  split; [exact H1|exact H3].
Defined.

End CallExtras.

Section LookupBudget.
Import YouTubeClient ClientSpec Samples.

Variable http : Http.

Lemma step_refl c : well_formed c -> step 0 c c.
Proof.
  intros H. unfold step. split_and!; try done; try lia.
  exists []. rewrite app_nil_r, Nat.sub_diag. split_and!; done.
Qed.

Lemma step_trans k1 k2 c c1 c2 : step k1 c c1 -> step k2 c1 c2 -> step (k1 + k2) c c2.
Proof.
  intros (Hk1 & Hw1 & Hs1 & made1 & Hg1 & Hl1 & Hc1)
         (Hk2 & Hw2 & Hs2 & made2 & Hg2 & Hl2 & Hc2).
  unfold step. rewrite Hk1 in *.
  split_and!; try done; try nia.
  exists (made1 ++ made2). split_and!.
  - by rewrite Hg2, Hg1, <- app_assoc.
  - rewrite length_app. lia.
  - intros key. unfold carrying in *. rewrite List.filter_app, length_app.
    specialize (Hc1 key). specialize (Hc2 key). nia.
Qed.

Lemma step_le k k' c c' : (k <= k')%nat -> step k c c' -> step k' c c'.
Proof.
  intros Hle (Hk & Hw & Hs & made & Hg & Hl & Hc). unfold step.
  split_and!; try done; try nia.
  exists made. split_and!; try done. intros key. specialize (Hc key). nia.
Qed.

Lemma step_get url params c :
  well_formed c -> step 3 c (_get http url params 3 c).2.
Proof.
  intros Hwf.
  destruct (key_loop_budget http 3 url params (length (_keys c)) (1 # 2) c Hwf)
    as (Hk & Hw & Hs & (made & counts & Hg & Hl & _ & Hb & Hc & Hf) & _).
  unfold step, _get. split_and!; try done; try (cbn in Hs; lia).
  exists made. split_and!; try done.
  intros key. rewrite Hb.
  exact (carrying_blocks 3 url params key c counts Hwf Hc Hf).
Qed.

Ltac pure_tail :=
  repeat match goal with
         | |- context [match ?x with _ => _ end] => destruct x
         end;
  cbn [snd]; assumption.

Lemma step_get_channel_title channel c :
  well_formed c -> step 3 c (get_channel_title http channel c).2.
Proof.
  intros Hwf. unfold get_channel_title, bind, current_key, lift, typed, ret.
  rewrite api_key_credential by exact Hwf.
  pose proof (step_get channels_url (channel_params channel (credential c 0)) c Hwf) as H.
  destruct (_get http channels_url (channel_params channel (credential c 0)) 3 c)
    as [o c1]. cbn [snd] in H. pure_tail.
Qed.

Lemma step_resolve_channel_id s c :
  well_formed c -> step 3 c (resolve_channel_id http s c).2.
Proof.
  intros Hwf. unfold resolve_channel_id.
  destruct (PyStr.startswith "UC" (hint_of s) && (20 <=? PyStr.len (hint_of s))).
  { apply (step_le 0); [lia|]. by apply step_refl. }
  unfold bind, current_key, lift, typed, ret.
  rewrite api_key_credential by exact Hwf.
  pose proof (step_get search_url (channel_search_params (hint_of s) (credential c 0)) c Hwf)
    as H.
  destruct (_get http search_url (channel_search_params (hint_of s) (credential c 0)) 3 c)
    as [o c1]. cbn [snd] in H. pure_tail.
Qed.

Lemma step_describe channel v c :
  well_formed c -> step 6 c (describe http channel v c).2.
Proof.
  intros Hwf. unfold describe.
  unfold bind at 1. unfold current_key. rewrite api_key_credential by exact Hwf.
  unfold bind at 1.
  pose proof (step_get videos_url (video_params v (credential c 0)) c Hwf) as H.
  destruct (_get http videos_url (video_params v (credential c 0)) 3 c) as [o c1].
  cbn [snd] in H.
  assert (H6 : step 6 c c1) by (apply (step_le 3); [lia|exact H]).
  destruct o as [r2| |]; [|exact H6..].
  assert (Htitle : forall c', step 3 c1 c' -> step 6 c c')
    by (intros c' H'; exact (step_trans 3 3 c c1 c' H H')).
  pose proof (step_get_channel_title channel c1 (proj1 (proj2 H))) as Ht.
  unfold bind, lift, typed, ret.
  destruct r2 as [r2|].
  - destruct (json_of r2) as [d2| |]; [|exact H6..].
    destruct (get d2 "items" (JArr [])) as [vitems| |]; [|exact H6..].
    destruct (video_details vitems) as [details| |]; [|exact H6..].
    destruct (get_channel_title http channel c1) as [t c2]. cbn [snd] in Ht.
    apply Htitle in Ht. pure_tail.
  - destruct (video_details (JArr [])) as [details| |]; [|exact H6..].
    destruct (get_channel_title http channel c1) as [t c2]. cbn [snd] in Ht.
    apply Htitle in Ht. pure_tail.
Qed.

Lemma step_get_live_now channel c :
  well_formed c -> step 9 c (get_live_now http channel c).2.
Proof.
  intros Hwf. unfold get_live_now.
  unfold bind at 1. unfold current_key. rewrite api_key_credential by exact Hwf.
  unfold bind at 1.
  pose proof (step_get search_url (live_search_params channel (credential c 0)) c Hwf) as H.
  destruct (_get http search_url (live_search_params channel (credential c 0)) 3 c)
    as [o c1]. cbn [snd] in H.
  assert (H9 : step 9 c c1) by (apply (step_le 3); [lia|exact H]).
  destruct o as [[r|]| |]; try exact H9.
  unfold bind, lift, typed, ret.
  destruct (json_of r) as [data| |]; [|exact H9..].
  destruct (get data "items" (JArr [])) as [items| |]; [|exact H9..].
  destruct (negb (truthy items)); [exact H9|].
  destruct (getitem0 items) as [item| |]; [|exact H9..].
  destruct (getitem item "id") as [id| |]; [|exact H9..].
  destruct (getitem id "videoId") as [vid| |]; [|exact H9..].
  destruct (as_str vid) as [v|]; [|exact H9].
  exact (step_trans 3 6 c c1 _ H (step_describe channel v c1 (proj1 (proj2 H)))).
Qed.

End LookupBudget.

Section LookupCost.
Import YouTubeClient ClientSpec Samples.

(** X13. The cost of the lookups, whatever the service does: resolving an
    identifier and looking up a title take at most 3 requests for each
    place a credential has in the list, and a poll for a live broadcast,
    which is up to three lookups, at most 9: that many times the length of
    the list in all, and with any one credential that many times the number
    of places it is listed at; each leaves the credentials as they are and
    the cursor inside them. *)
Theorem lookup_budget (http : Http) (s channel : string) (c : client) :
  well_formed c ->
  within 3 (resolve_channel_id http s) c
  /\ within 3 (get_channel_title http channel) c
  /\ within 9 (get_live_now http channel) c.
Proof.
  intros Hwf. unfold within. split_and!.
  - by apply step_resolve_channel_id.
  - by apply step_get_channel_title.
  - by apply step_get_live_now.
Qed.

Lemma lookup_budget_witness :
  well_formed two_keys
  /\ (sent (get_live_now only_search "UCchan" two_keys).2 <= 0 + 9 * 2)%nat.
Proof.
  split; [exact two_keys_well_formed|].
  destruct (lookup_budget only_search "" "UCchan" two_keys two_keys_well_formed)
    as (_ & _ & (_ & _ & (_ & H) & _)).
  exact H.
Defined.

End LookupCost.

(** * Further properties: the quota test *)

Section QuotaTest.
Import YouTubeClient ClientSpec.

Lemma collect_reasons_elem l : forall vs,
  collect_reasons l = Some vs ->
  forall v, v ∈ vs
    <-> exists kv, JObj kv ∈ l
          /\ v = match assoc "reason" kv with Some x => x | None => JNull end.
Proof.
  induction l as [|x l IH]; intros vs H v; cbn [collect_reasons] in H.
  - injection H as <-. split; [by intros ?%elem_of_nil|].
    intros (kv & Hin & _). by apply elem_of_nil in Hin.
  - assert (Hskip : (forall kv, x <> JObj kv) -> collect_reasons l = Some vs ->
              v ∈ vs <-> exists kv, JObj kv ∈ x :: l
                /\ v = match assoc "reason" kv with Some x => x | None => JNull end).
    { intros Hx Hl. rewrite (IH vs Hl v). split; intros (kv & Hin & Hv); exists kv.
      - split; [by right|done].
      - split; [|done]. apply elem_of_cons in Hin as [Heq|Hin]; [|done].
        by destruct (Hx kv). }
    destruct x as [|b|z|s|l0|kv0]; try (apply Hskip; [intros kv; discriminate|exact H]).
    clear Hskip.
    destruct (match assoc "reason" kv0 with Some v0 => v0 | None => JNull end) as
      [|b|z|s|l0|kv1] eqn:Hr; try discriminate H;
      (destruct (collect_reasons l) as [vs'|] eqn:Hl; [|discriminate H]);
      injection H as <-; rewrite elem_of_cons, (IH vs' eq_refl v);
      (split;
       [ intros [->|(kv & Hin & Hv)];
         [exists kv0; split; [left|by rewrite Hr]|exists kv; split; [by right|done]]
       | intros (kv & Hin & Hv); apply elem_of_cons in Hin as [Heq|Hin];
         [left; injection Heq as ->; by rewrite Hv, Hr|right; by exists kv] ]).
Qed.

Lemma names_quota_reason_elem vs :
  names_quota_reason vs = true <-> exists s, JStr s ∈ vs /\ s ∈ quota_reasons.
Proof.
  unfold names_quota_reason. rewrite existsb_exists. split.
  - intros (v & Hin & Hv). destruct v as [| | |s| |]; try discriminate.
    apply existsb_exists in Hv as (q & Hq & ->%String.eqb_eq).
    exists q. by rewrite !list_elem_of_In.
  - intros (s & Hin & Hq). exists (JStr s). split; [by apply list_elem_of_In|].
    apply existsb_exists. exists s. split; [by apply list_elem_of_In|].
    apply String.eqb_refl.
Qed.

(** X14. A response makes the call rotate to the next credential exactly
    when its status is 403, its body decodes to an object whose [error]
    holds [errors] that can be iterated, the reasons of the entries that are
    objects can all be put in a set, and one of those entries has for its
    [reason] one of the four strings of the quota test. A 403 of any other
    kind is a hard failure. *)
Theorem quota_rejected_spec (r : Response) :
  quota_rejected r = true
  <-> status_code r = 403
      /\ exists data err errors items vs kv s,
           body r = Some data
           /\ get data "error" (JObj []) = Ret err
           /\ get err "errors" (JArr []) = Ret errors
           /\ iterate errors = Some items
           /\ collect_reasons items = Some vs
           /\ JObj kv ∈ items
           /\ assoc "reason" kv = Some (JStr s)
           /\ s ∈ quota_reasons.
Proof.
  unfold quota_rejected. rewrite andb_true_iff, Z.eqb_eq. split.
  - intros [Hst Hq]. split; [exact Hst|]. unfold reasons in Hq.
    destruct (body r) as [data|]; [|discriminate].
    destruct (get data "error" (JObj [])) as [err| |] eqn:Herr; try discriminate.
    destruct (get err "errors" (JArr [])) as [errors| |] eqn:Herrs; try discriminate.
    destruct (iterate errors) as [items|] eqn:Hit; [|discriminate].
    destruct (collect_reasons items) as [vs|] eqn:Hvs; [|discriminate].
    apply names_quota_reason_elem in Hq as (s & Hin & Hs).
    apply (collect_reasons_elem items vs Hvs) in Hin as (kv & Hkv & Hv).
    exists data, err, errors, items, vs, kv, s. split_and!; try done.
    destruct (assoc "reason" kv) as [x|]; [by subst x|discriminate].
  - intros (Hst & data & err & errors & items & vs & kv & s
            & Hb & Herr & Herrs & Hit & Hvs & Hkv & Hreason & Hs).
    split; [exact Hst|]. unfold reasons. rewrite Hb, Herr, Herrs, Hit, Hvs.
    apply names_quota_reason_elem. exists s. split; [|exact Hs].
    apply (collect_reasons_elem items vs Hvs). exists kv. split; [exact Hkv|].
    by rewrite Hreason.
Qed.

End QuotaTest.

(** * Further properties: channel URLs *)

Section ChannelUrls.
Import YouTubeClient ClientSpec Samples.

Lemma all_chars_take_while p s : all_chars p (take_while p s) = true.
Proof.
  induction s as [|a s IH]; [reflexivity|]. cbn [take_while].
  destruct (p a) eqn:Ha; [|reflexivity]. cbn. by rewrite Ha.
Qed.

Lemma take_while_all p s : all_chars p s = true -> take_while p s = s.
Proof.
  induction s as [|a s IH]; [reflexivity|]. cbn. intros H.
  apply andb_true_iff in H as [-> H]. by rewrite IH.
Qed.

Lemma match_here_some s g :
  match_here s = Some g -> g <> "" /\ all_chars hint_char g = true.
Proof.
  unfold match_here. intros H.
  destruct (PyStr.strip_prefix "http" s) as [s1|]; [|discriminate]. cbn in H.
  destruct (PyStr.strip_prefix "://" (optional "s" s1)) as [s2|]; [|discriminate].
  cbn in H.
  destruct (PyStr.strip_prefix "youtube.com/" (optional "www." s2)) as [s3|];
    [|discriminate]. cbn in H.
  assert (Hg : forall s4, match take_while hint_char s4 with
                          | "" => None
                          | g' => Some g'
                          end = Some g -> g <> "" /\ all_chars hint_char g = true).
  { intros s4 H4. pose proof (all_chars_take_while hint_char s4) as Hall.
    destruct (take_while hint_char s4) as [|a t]; [discriminate|].
    injection H4 as <-. split; [discriminate|exact Hall]. }
  destruct (PyStr.strip_prefix "channel/" s3) as [s4|].
  - cbn in H. by apply (Hg s4).
  - destruct (PyStr.strip_prefix "@" s3) as [s4|]; [|discriminate].
    cbn in H. by apply (Hg s4).
Qed.

Lemma search_some s : forall g,
  search s = Some g -> g <> "" /\ all_chars hint_char g = true.
Proof.
  induction s as [|a s IH]; intros g; cbn [search].
  - destruct (match_here "") as [g'|] eqn:Hm; [|discriminate].
    intros [= <-]. by apply (match_here_some "").
  - destruct (match_here (String a s)) as [g'|] eqn:Hm; [|apply IH].
    intros [= <-]. by apply (match_here_some (String a s)).
Qed.

(** X15. What [extract_channel_hint] finds is never empty and is made of the
    characters the pattern allows in a name, letters, digits, [_], [-] and
    [.]; it is then the hint [resolve_channel_id] works with. *)
Theorem extract_channel_hint_some (text g : string) :
  extract_channel_hint text = Some g ->
  g <> "" /\ all_chars hint_char g = true /\ hint_of text = g.
Proof.
  intros H. destruct (search_some _ _ H) as [Hne Hall].
  split_and!; try done. unfold hint_of. by rewrite H.
Qed.

Lemma extract_channel_hint_some_witness :
  extract_channel_hint "  see https://youtube.com/@some.one?x=1 " = Some "some.one"
  /\ hint_of "  see https://youtube.com/@some.one?x=1 " = "some.one".
Proof.
  assert (H : extract_channel_hint "  see https://youtube.com/@some.one?x=1 "
              = Some "some.one") by (vm_compute; reflexivity).
  split; [exact H|].
  exact (proj2 (proj2 (extract_channel_hint_some _ _ H))).
Defined.

Lemma lstrip_from_foreign p codes fuel s :
  foreign_to p codes = true -> all_chars p s = true ->
  PyStr.lstrip_from codes fuel s = s.
Proof.
  intros Hcodes Hs. destruct fuel as [|fuel]; [reflexivity|]. cbn [PyStr.lstrip_from].
  assert (List.find (fun w => PyStr.startswith w s) codes = None) as ->; [|reflexivity].
  induction codes as [|w codes IH]; [reflexivity|]. cbn in *.
  apply andb_true_iff in Hcodes as [Hw Hcodes]. rewrite (IH Hcodes).
  destruct w as [|b w]; [discriminate|].
  destruct s as [|a s]; [reflexivity|].
  destruct (PyStr.startswith (String b w) (String a s)) eqn:Hp; [|reflexivity].
  apply prefix_head in Hp as ->. cbn in Hs. apply andb_true_iff in Hs as [Ha _].
  by rewrite Ha in Hw.
Qed.

(** Text made of visible characters has nothing to strip. *)
Lemma strip_visible s : all_chars visible s = true -> PyStr.strip s = s.
Proof.
  intros Hs. unfold PyStr.strip, PyStr.lstrip, PyStr.rstrip.
  rewrite (lstrip_from_foreign visible PyStr.whitespace) by done.
  rewrite (lstrip_from_foreign visible (List.map String.rev PyStr.whitespace)).
  - apply rev_rev.
  - reflexivity.
  - by apply all_chars_rev_app.
Qed.

Lemma hint_char_visible a : hint_char a = true -> visible a = true.
Proof.
  destruct a as [[|] [|] [|] [|] [|] [|] [|] [|]]; vm_compute; congruence.
Qed.

Lemma all_chars_impl (p q : ascii -> bool) s :
  (forall a, p a = true -> q a = true) -> all_chars p s = true -> all_chars q s = true.
Proof.
  intros Hpq. induction s as [|a s IH]; [done|]. cbn. intros H.
  apply andb_true_iff in H as [Ha H]. by rewrite (Hpq a Ha), IH.
Qed.

Lemma all_chars_append p s1 s2 :
  all_chars p s1 = true -> all_chars p s2 = true -> all_chars p (s1 +:+ s2) = true.
Proof.
  intros H1 H2. induction s1 as [|a s1 IH]; [exact H2|].
  change (all_chars p (String a (s1 +:+ s2)) = true). cbn in *.
  apply andb_true_iff in H1 as [-> H1]. by apply IH.
Qed.

Lemma match_here_channel_url p g :
  p ∈ channel_urls -> g <> "" -> all_chars hint_char g = true ->
  match_here (p +:+ g) = Some g.
Proof.
  intros Hp Hne Hall. unfold channel_urls in Hp.
  repeat (apply elem_of_cons in Hp as [->|Hp]); [..|by apply elem_of_nil in Hp].
  all: destruct g as [|a g]; [done|].
  all: cbv [String.append]; unfold match_here, optional, PyStr.strip_prefix,
         PyStr.startswith; cbn -[take_while hint_char].
  all: by rewrite (take_while_all hint_char _ Hall).
Qed.

(** X16. The URL of a channel, in any of the forms the pattern accepts, gives
    back the name it was made from; when the name has the shape of a channel
    id, the URL resolves to it with no request to the service. *)
Theorem channel_url_round_trip (http : Http) (p g : string) (c : client) :
  p ∈ channel_urls -> g <> "" -> all_chars hint_char g = true ->
  extract_channel_hint (p +:+ g) = Some g
  /\ hint_of (p +:+ g) = g
  /\ (PyStr.startswith "UC" g = true -> 20 <= PyStr.len g ->
      resolve_channel_id http (p +:+ g) c = (Ret (Some g), c)).
Proof.
  intros Hp Hne Hall.
  assert (He : extract_channel_hint (p +:+ g) = Some g).
  { unfold extract_channel_hint. rewrite strip_visible.
    - pose proof (match_here_channel_url p g Hp Hne Hall) as Hm.
      destruct (p +:+ g); cbn [search]; by rewrite Hm.
    - apply all_chars_append.
      + unfold channel_urls in Hp.
        repeat (apply elem_of_cons in Hp as [->|Hp]); [..|by apply elem_of_nil in Hp];
          reflexivity.
      + exact (all_chars_impl _ _ g hint_char_visible Hall). }
  assert (Hh : hint_of (p +:+ g) = g) by (unfold hint_of; by rewrite He).
  split_and!; try done.
  intros Hs Hl. unfold resolve_channel_id. rewrite Hh, Hs.
  destruct (Z.leb_spec 20 (PyStr.len g)); [reflexivity|lia].
Qed.

Lemma channel_url_round_trip_witness :
  extract_channel_hint ("http://youtube.com/@" +:+ "some.one") = Some "some.one"
  /\ resolve_channel_id nothing_found
       ("https://www.youtube.com/channel/" +:+ "UC.a_b-c.0123456789012") two_keys
     = (Ret (Some "UC.a_b-c.0123456789012"), two_keys).
Proof.
  split.
  - apply (channel_url_round_trip nothing_found "http://youtube.com/@" "some.one" two_keys).
    + apply list_elem_of_In. cbn. do 7 right. left. reflexivity.
    + discriminate.
    + reflexivity.
  - apply (channel_url_round_trip nothing_found "https://www.youtube.com/channel/"
             "UC.a_b-c.0123456789012" two_keys).
    + apply list_elem_of_In. cbn. left. reflexivity.
    + discriminate.
    + reflexivity.
    + reflexivity.
    + vm_compute. discriminate.
Defined.

End ChannelUrls.

(** * Further properties: the text of a notification *)

Section Escaping.
Import YouTubeClient ClientSpec Main MainSpec.

Lemma all_chars_inert_escape s :
  all_chars (fun a => negb (markup a)) (PyStr.html_escape s) = true.
Proof.
  induction s as [|a s IH]; [reflexivity|]. cbn [PyStr.html_escape].
  repeat match goal with
         | |- context [Ascii.eqb ?x ?y] => destruct (Ascii.eqb_spec x y) as [->|?]
         end;
    cbv [String.append]; cbn [all_chars]; rewrite ?IH; try reflexivity.
  rewrite andb_true_r. unfold markup.
  repeat match goal with
         | |- context [Ascii.eqb ?x ?y] => destruct (Ascii.eqb_spec x y) as [->|?]
         end; done.
Qed.

Lemma html_escape_plain s :
  all_chars (fun a => negb (special a)) s = true -> PyStr.html_escape s = s.
Proof.
  induction s as [|a s IH]; [reflexivity|]. cbn [all_chars PyStr.html_escape].
  intros H. apply andb_true_iff in H as [Ha H]. rewrite (IH H).
  unfold special in Ha.
  repeat match goal with
         | |- context [Ascii.eqb ?x ?y] => destruct (Ascii.eqb_spec x y) as [->|?]
         end; done.
Qed.

Lemma html_escape_injective s1 : forall s2,
  PyStr.html_escape s1 = PyStr.html_escape s2 -> s1 = s2.
Proof.
  induction s1 as [|a s1 IH]; intros [|b s2] H; cbn [PyStr.html_escape] in H.
  - reflexivity.
  - exfalso.
    repeat match type of H with
           | context [Ascii.eqb ?x ?y] => destruct (Ascii.eqb x y)
           end; cbv [String.append] in H; discriminate H.
  - exfalso.
    repeat match type of H with
           | context [Ascii.eqb ?x ?y] => destruct (Ascii.eqb x y)
           end; cbv [String.append] in H; discriminate H.
  - revert H.
    repeat match goal with
           | |- context [Ascii.eqb ?x ?y] =>
               destruct (Ascii.eqb_spec x y); [try congruence; try subst x|]
           end;
      cbv [String.append]; intros H; try discriminate H;
      injection H; intros; subst; try congruence; f_equal; by apply IH.
Qed.

(** X17. [html.escape] leaves none of [<], [>] and the two quotes in its result;
    it changes nothing in a text that has none of the five characters it
    replaces; and two texts with the same result are the same text. *)
Theorem html_escape_spec (s : string) :
  all_chars (fun a => negb (markup a)) (PyStr.html_escape s) = true
  /\ (all_chars (fun a => negb (special a)) s = true -> PyStr.html_escape s = s)
  /\ (forall s', PyStr.html_escape s = PyStr.html_escape s' -> s = s').
Proof.
  split_and!.
  - apply all_chars_inert_escape.
  - apply html_escape_plain.
  - apply html_escape_injective.
Qed.

(** X18. The text of a notification has none of [<], [>] and the two quotes
    whatever the titles are, as long as the broadcast id has none: the id
    goes into the text as it is. *)
Theorem message_has_no_markup (channel : string) (live : LiveInfo) :
  all_chars (fun a => negb (markup a)) (video_id live) = true ->
  all_chars (fun a => negb (markup a)) (message channel live) = true.
Proof.
  intros Hv. unfold message, video_url.
  repeat (apply all_chars_append; [try apply all_chars_inert_escape; try reflexivity|]).
  change (all_chars (fun a => negb (markup a))
            ("010" +:+ ("https://www.youtube.com/watch?v=" +:+ video_id live)) = true).
  repeat (apply all_chars_append; [reflexivity|]). exact Hv.
Qed.

Lemma message_has_no_markup_witness :
  all_chars (fun a => negb (markup a))
    (message "UCa" {| channel_id := "UCa"; channel_title := Some "<b>A</b>";
                      video_id := "v1"; video_title := Some "it's <live>";
                      scheduled_start_time := None |}) = true.
Proof. apply message_has_no_markup. reflexivity. Defined.

End Escaping.

(** * Further properties: the credentials read at start-up *)

Section Credentials.
Import YouTubeClient ClientSpec Main MainSpec.

Lemma all_chars_lstrip_from p codes fuel : forall s,
  all_chars p s = true -> all_chars p (PyStr.lstrip_from codes fuel s) = true.
Proof.
  induction fuel as [|fuel IH]; intros s H; cbn [PyStr.lstrip_from]; [exact H|].
  destruct (List.find _ codes) as [w|]; [|exact H]. by apply IH, all_chars_drop.
Qed.

Lemma all_chars_strip p s : all_chars p s = true -> all_chars p (PyStr.strip s) = true.
Proof.
  intros H. unfold PyStr.strip, PyStr.rstrip, PyStr.lstrip, String.rev.
  apply all_chars_rev_app; [|reflexivity]. apply all_chars_lstrip_from.
  apply all_chars_rev_app; [|reflexivity]. by apply all_chars_lstrip_from.
Qed.

Lemma replaced_separators s :
  all_chars (fun a => negb (Ascii.eqb a ";" || Ascii.eqb a "010"))
    (PyStr.replace "010" "," (PyStr.replace ";" "," s)) = true.
Proof.
  induction s as [|a s IH]; [reflexivity|]. cbn [PyStr.replace all_chars]. rewrite IH.
  destruct (Ascii.eqb_spec a ";") as [->|?]; [reflexivity|].
  destruct (Ascii.eqb_spec a "010") as [->|?]; [reflexivity|].
  rewrite andb_true_r.
  destruct (Ascii.eqb_spec a ";"); [done|]. by destruct (Ascii.eqb_spec a "010").
Qed.

Lemma split_pieces sep p s :
  all_chars p s = true ->
  Forall (fun k => all_chars (fun a => p a && negb (Ascii.eqb a sep)) k = true)
    (PyStr.split sep s).
Proof.
  induction s as [|a s IH]; intros H; cbn [PyStr.split].
  - by repeat constructor.
  - cbn in H. apply andb_true_iff in H as [Ha H]. specialize (IH H).
    destruct (Ascii.eqb a sep) eqn:Hsep.
    + constructor; [reflexivity|exact IH].
    + destruct (PyStr.split sep s) as [|piece pieces].
      * repeat constructor. cbn. by rewrite Ha, Hsep.
      * inversion IH as [|? ? Hpiece Hpieces]; subst. constructor; [|exact Hpieces].
        cbn. by rewrite Ha, Hsep, Hpiece.
Qed.

Lemma stripped_pieces (P : string -> Prop) pieces :
  Forall (fun k => P (PyStr.strip k)) pieces ->
  Forall (fun k => k <> "" /\ P k)
    (List.filter (fun k => negb (String.eqb k "")) (List.map PyStr.strip pieces)).
Proof.
  induction 1 as [|k pieces Hk _ IH]; [constructor|]. cbn [List.map List.filter].
  destruct (String.eqb_spec (PyStr.strip k) ""); cbn [negb]; [exact IH|].
  by constructor.
Qed.

Lemma filter_nonempty_id keys :
  Forall (fun k : string => k <> "") keys ->
  List.filter (fun k => negb (String.eqb k "")) keys = keys.
Proof.
  induction 1 as [|k keys Hk _ IH]; [reflexivity|]. cbn.
  destruct (String.eqb_spec k ""); [done|]. cbn. by rewrite IH.
Qed.

(** X19. The credentials [main] hands to the client, when it gets that far, are
    at least one and none of them is empty, so that the client is built with
    exactly these, its cursor on the first: the [ValueError] of the
    constructor cannot happen. Those read from [YT_API_KEYS] hold no comma,
    semicolon or line break. *)
Theorem api_keys_usable (yt_key yt_keys : option string) (keys : list string) :
  api_keys yt_key yt_keys = Ret keys ->
  keys <> []
  /\ Forall (fun k => k <> "") keys
  /\ (PyStr.strip (default "" yt_keys) <> "" ->
      Forall (fun k => all_chars (fun a => negb (separator a)) k = true) keys)
  /\ YouTubeClient.init keys
     = Ret {| _keys := keys; _key_index := 0; sent := 0; log := [] |}
  /\ forall c, YouTubeClient.init keys = Ret c -> well_formed c.
Proof.
  unfold api_keys. intros H.
  assert (Hkeys : keys <> [] /\ Forall (fun k => k <> "") keys
    /\ (PyStr.strip (default "" yt_keys) <> "" ->
        Forall (fun k => all_chars (fun a => negb (separator a)) k = true) keys)).
  { destruct (String.eqb_spec (PyStr.strip (default "" yt_keys)) "") as [He|Hne];
      cbn [negb] in H.
    - destruct yt_key as [k|]; [|discriminate].
      destruct (String.eqb_spec k ""); [discriminate|].
      injection H as <-. split_and!; [done|by repeat constructor|done].
    - set (temp := PyStr.replace "010" "," (PyStr.replace ";" "," _)) in H.
      assert (Hall : Forall (fun k => k <> ""
                      /\ all_chars (fun a => negb (separator a)) k = true)
                (List.filter (fun k => negb (String.eqb k ""))
                   (List.map PyStr.strip (PyStr.split "," temp)))).
      { apply stripped_pieces.
        pose proof (split_pieces "," _ temp (replaced_separators _)) as Hp.
        eapply Forall_impl; [exact Hp|]. cbn beta. intros k Hk.
        apply all_chars_strip. revert Hk. apply all_chars_impl. intros a.
        unfold separator.
        destruct (Ascii.eqb a ","), (Ascii.eqb a ";"), (Ascii.eqb a "010"); done. }
      destruct (List.filter _ _) as [|k rest]; [discriminate|].
      injection H as <-. split_and!; [done| |].
      + eapply Forall_impl; [exact Hall|]. by intros ? [? ?].
      + intros _. eapply Forall_impl; [exact Hall|]. by intros ? [? ?]. }
  destruct Hkeys as (Hne & Hall & Hsep).
  assert (Hinit : YouTubeClient.init keys
                  = Ret {| _keys := keys; _key_index := 0; sent := 0; log := [] |}).
  { unfold init. rewrite (filter_nonempty_id keys Hall). by destruct keys. }
  split_and!; try done.
  intros c Hc. rewrite Hinit in Hc. injection Hc as <-.
  unfold well_formed. cbn. destruct keys; [done|cbn; lia].
Qed.

Lemma api_keys_usable_witness :
  api_keys (Some "k0") (Some " k1; k2,,k3 ") = Ret ["k1"; "k2"; "k3"]
  /\ YouTubeClient.init ["k1"; "k2"; "k3"]
     = Ret {| _keys := ["k1"; "k2"; "k3"]; _key_index := 0; sent := 0; log := [] |}.
Proof.
  assert (H : api_keys (Some "k0") (Some " k1; k2,,k3 ") = Ret ["k1"; "k2"; "k3"])
    by (vm_compute; reflexivity).
  split; [exact H|].
  exact (proj1 (proj2 (proj2 (proj2 (api_keys_usable _ _ _ H))))).
Defined.

Lemma lstrip_from_head p codes fuel a s :
  foreign_to p codes = true -> p a = true ->
  PyStr.lstrip_from codes fuel (String a s) = String a s.
Proof.
  intros Hcodes Ha. destruct fuel as [|fuel]; [reflexivity|]. cbn [PyStr.lstrip_from].
  assert (List.find (fun w => PyStr.startswith w (String a s)) codes = None) as ->;
    [|reflexivity].
  unfold foreign_to in Hcodes.
  induction codes as [|w codes IH]; [reflexivity|]. cbn [forallb List.find] in *.
  apply andb_true_iff in Hcodes as [Hw Hcodes].
  destruct w as [|b w]; [discriminate|].
  destruct (PyStr.startswith (String b w) (String a s)) eqn:Hp; [|by apply IH].
  apply prefix_head in Hp as ->. by rewrite Ha in Hw.
Qed.

(** Text that starts and ends with a visible character has nothing to
    strip. *)
Lemma strip_ends s : visible_ends s = true -> PyStr.strip s = s.
Proof.
  unfold visible_ends. destruct s as [|a s]; [discriminate|].
  destruct (String.rev (String a s)) as [|b t] eqn:Hr; [discriminate|].
  intros H. apply andb_true_iff in H as [Ha Hb].
  unfold PyStr.strip, PyStr.lstrip, PyStr.rstrip.
  rewrite (lstrip_from_head visible) by done. rewrite Hr.
  rewrite (lstrip_from_head visible) by done. rewrite <- Hr. apply rev_rev.
Qed.

Lemma replace_none old new s :
  all_chars (fun a => negb (Ascii.eqb a old)) s = true -> PyStr.replace old new s = s.
Proof.
  induction s as [|a s IH]; [reflexivity|]. cbn. intros H.
  apply andb_true_iff in H as [Ha H]. rewrite (IH H).
  by destruct (Ascii.eqb a old).
Qed.

Lemma split_none sep s :
  all_chars (fun a => negb (Ascii.eqb a sep)) s = true -> PyStr.split sep s = [s].
Proof.
  induction s as [|a s IH]; [reflexivity|]. cbn. intros H.
  apply andb_true_iff in H as [Ha H]. rewrite (IH H).
  by destruct (Ascii.eqb a sep).
Qed.

(** X20. A value of [YT_API_KEYS] that starts and ends with a visible character
    and holds no comma, semicolon or line break is one credential, blanks
    inside it included: white space does not separate credentials. *)
Theorem api_keys_single (yt_key : option string) (s : string) :
  visible_ends s = true ->
  all_chars (fun a => negb (separator a)) s = true ->
  api_keys yt_key (Some s) = Ret [s].
Proof.
  intros Hends Hsep. unfold api_keys. change (default "" (Some s)) with s.
  rewrite (strip_ends s Hends).
  assert (Hne : s <> "") by (intros ->; discriminate Hends).
  destruct (String.eqb_spec s ""); [done|]. cbn [negb].
  assert (Hpart : forall sep, (forall a, separator a = false -> Ascii.eqb a sep = false) ->
            all_chars (fun a => negb (Ascii.eqb a sep)) s = true).
  { intros sep Hs. revert Hsep. apply all_chars_impl. intros a Ha.
    apply negb_true_iff in Ha. by rewrite (Hs a Ha). }
  rewrite (replace_none ";"), (replace_none "010"), (split_none ",").
  - cbn [List.map List.filter]. rewrite (strip_ends s Hends).
    destruct (String.eqb_spec s ""); [done|]. reflexivity.
  - apply Hpart. intros a. unfold separator. by destruct (Ascii.eqb a ",").
  - apply Hpart. intros a. unfold separator.
    destruct (Ascii.eqb a ","), (Ascii.eqb a ";"), (Ascii.eqb a "010"); done.
  - apply Hpart. intros a. unfold separator.
    destruct (Ascii.eqb a ","), (Ascii.eqb a ";"); done.
Qed.

Lemma api_keys_single_witness :
  api_keys None (Some "k1 k2") = Ret ["k1 k2"].
Proof. apply api_keys_single; reflexivity. Defined.

Lemma separators_split s :
  all_chars separator s = true ->
  List.filter (fun k => negb (String.eqb k ""))
    (List.map PyStr.strip
       (PyStr.split "," (PyStr.replace "010" "," (PyStr.replace ";" "," s)))) = [].
Proof.
  induction s as [|a s IH]; [reflexivity|]. cbn [all_chars]. intros H.
  apply andb_true_iff in H as [Ha H]. specialize (IH H).
  assert (Hcomma : (if Ascii.eqb (if Ascii.eqb a ";" then ","%char else a) "010"
                    then ","%char else (if Ascii.eqb a ";" then ","%char else a))
                   = ","%char).
  { unfold separator in Ha.
    destruct (Ascii.eqb_spec a ";") as [->|?]; [reflexivity|].
    destruct (Ascii.eqb_spec a "010") as [->|?]; [reflexivity|].
    destruct (Ascii.eqb_spec a ",") as [->|?]; [reflexivity|discriminate]. }
  cbn [PyStr.replace PyStr.split]. rewrite Hcomma. cbn [Ascii.eqb Bool.eqb].
  cbn [List.map List.filter]. exact IH.
Qed.

(** X21. When [YT_API_KEYS] is set to more than white space, [YT_API_KEY] is
    not looked at; if the value holds separators only, there is no
    credential and the start-up fails with a [RuntimeError], a usable
    [YT_API_KEY] notwithstanding. *)
Theorem api_keys_precedence (yt_keys : string) :
  PyStr.strip yt_keys <> "" ->
  (forall yt_key, api_keys yt_key (Some yt_keys) = api_keys None (Some yt_keys))
  /\ (all_chars separator (PyStr.strip yt_keys) = true ->
      forall yt_key, api_keys yt_key (Some yt_keys) = Raise (OtherError "RuntimeError")).
Proof.
  intros Hne. split.
  - intros yt_key. unfold api_keys. change (default "" (Some yt_keys)) with yt_keys.
    destruct (String.eqb_spec (PyStr.strip yt_keys) ""); [done|]. reflexivity.
  - intros Hsep yt_key. unfold api_keys. change (default "" (Some yt_keys)) with yt_keys.
    destruct (String.eqb_spec (PyStr.strip yt_keys) ""); [done|]. cbn [negb].
    by rewrite (separators_split _ Hsep).
Qed.

Lemma api_keys_precedence_witness :
  api_keys (Some "k0") (Some " ;, ") = Raise (OtherError "RuntimeError").
Proof.
  apply api_keys_precedence.
  - vm_compute. discriminate.
  - vm_compute. reflexivity.
Defined.

End Credentials.

(** * Further properties: the loop and the store *)

Section LoopFrame.
Import YouTubeClient Main MainSpec LoopSamples.

Variable E : Env.
Variable cooldown_seconds : Z.

(** The loop keeps the channels it is given to visit. *)
Hypothesis visits_members : forall (X : gset string) c, c ∈ channel_order E X -> c ∈ X.

Lemma about_other c c0 e : c0 <> c -> about c0 e = true -> channel_of e <> Some c.
Proof. unfold about. intros Hne He%bool_decide_eq_true. rewrite He. congruence. Qed.

Lemma process_channel_frame c w :
  let w' := (process_channel E cooldown_seconds c w).2 in
  Storage.subscriptions (store w') = Storage.subscriptions (store w)
  /\ Storage.destinations (store w') = Storage.destinations (store w)
  /\ forall c0, c0 <> c ->
       entry (store w') c0 = entry (store w) c0
       /\ List.filter (about c0) (trace w') = List.filter (about c0) (trace w).
Proof.
  cbn zeta.
  destruct (processed_frame E cooldown_seconds c w _
              (process_channel_cases E cooldown_seconds c w))
    as ((evs & Ht & Hevs) & Hs & Hd & He).
  split_and!; try done. intros c0 Hne. split; [by apply He|].
  rewrite Ht, List.filter_app.
  rewrite (filter_other_channel (about c0) c evs); [by rewrite app_nil_r| |exact Hevs].
  intros e. by apply about_other.
Qed.

Lemma for_channels_frame channels : forall w,
  let w' := (for_channels E cooldown_seconds channels w).2 in
  Storage.subscriptions (store w') = Storage.subscriptions (store w)
  /\ Storage.destinations (store w') = Storage.destinations (store w)
  /\ forall c0, c0 ∉ channels ->
       entry (store w') c0 = entry (store w) c0
       /\ List.filter (about c0) (trace w') = List.filter (about c0) (trace w).
Proof.
  induction channels as [|c rest IH]; intros w; cbn zeta; cbn [for_channels].
  - by split_and!.
  - destruct (process_channel_frame c w) as (Hs & Hd & He).
    destruct (process_channel E cooldown_seconds c w) as [[e|] w1]; cbn [snd] in *.
    + split_and!; try done. intros c0 Hc0. apply He. intros ->. apply Hc0. left.
    + destruct (IH w1) as (Hs' & Hd' & He'). split_and!; [congruence..|].
      intros c0 Hc0.
      assert (Hne : c0 <> c) by (intros ->; apply Hc0; left).
      assert (Hrest : c0 ∉ rest) by (intros H; apply Hc0; by right).
      destruct (He c0 Hne) as [H1 H2]. destruct (He' c0 Hrest) as [H3 H4].
      split; congruence.
Qed.

Lemma all_channels_same d d' :
  Storage.subscriptions d' = Storage.subscriptions d ->
  Storage.destinations d' = Storage.destinations d ->
  Storage.all_channels d' = Storage.all_channels d
  /\ forall c, targets d' c = targets d c.
Proof.
  intros Hs Hd. unfold Storage.all_channels, targets, Storage.all_subscribers_for,
    Storage.list_destinations. by rewrite Hs, Hd.
Qed.

Lemma sweep_frame interval w :
  let w' := (sweep E interval cooldown_seconds w).2 in
  Storage.subscriptions (store w') = Storage.subscriptions (store w)
  /\ Storage.destinations (store w') = Storage.destinations (store w)
  /\ forall c0, c0 ∉ Storage.all_channels (store w) ->
       entry (store w') c0 = entry (store w) c0
       /\ List.filter (about c0) (trace w') = List.filter (about c0) (trace w).
Proof.
  cbn zeta. unfold sweep.
  destruct (for_channels_frame (channel_order E (Storage.all_channels (store w))) w)
    as (Hs & Hd & He).
  destruct (for_channels E cooldown_seconds _ w) as [r w1]. cbn [snd] in *.
  assert (Hmember : forall c0, c0 ∉ Storage.all_channels (store w) ->
            c0 ∉ channel_order E (Storage.all_channels (store w))).
  { intros c0 Hc0 H. by apply Hc0, visits_members. }
  destruct (uncaught r); cbn [snd sleep store trace].
  - split_and!; try done. intros c0 Hc0. by apply He, Hmember.
  - split_and!; try done.
    intros c0 Hc0. destruct (He c0 (Hmember c0 Hc0)) as [H1 H2].
    split; [exact H1|]. rewrite List.filter_app, H2. cbn. by rewrite app_nil_r.
Qed.

Lemma notifier_loop_frame interval n : forall w,
  let w' := (notifier_loop E interval cooldown_seconds n w).2 in
  Storage.subscriptions (store w') = Storage.subscriptions (store w)
  /\ Storage.destinations (store w') = Storage.destinations (store w)
  /\ forall c0, c0 ∉ Storage.all_channels (store w) ->
       entry (store w') c0 = entry (store w) c0
       /\ List.filter (about c0) (trace w') = List.filter (about c0) (trace w).
Proof.
  induction n as [|n IH]; intros w; cbn zeta; cbn [notifier_loop]; [by split_and!|].
  destruct (sweep_frame interval w) as (Hs & Hd & He).
  destruct (sweep E interval cooldown_seconds w) as [[e|] w1]; cbn [snd] in *;
    [by split_and!|].
  destruct (IH w1) as (Hs' & Hd' & He').
  destruct (all_channels_same _ _ Hs Hd) as [Hall _].
  split_and!; [congruence..|]. intros c0 Hc0.
  destruct (He c0 Hc0) as [H1 H2].
  destruct (He' c0) as [H3 H4]; [by rewrite Hall|]. split; congruence.
Qed.

End LoopFrame.

Section LoopExtras.
Import YouTubeClient Main MainSpec LoopSamples.

(** X22. The loop writes per-channel state only. However long it runs, the
    subscriptions and the destinations are as they were, hence so are the
    tracked channels and the chats each channel is announced to; and for a
    channel that is not tracked nothing is stored and nothing is done. *)
Theorem loop_frame (E : Env) (interval cooldown_seconds : Z) (n : nat) (w : World) :
  (forall (X : gset string) c, c ∈ channel_order E X -> c ∈ X) ->
  let w' := (notifier_loop E interval cooldown_seconds n w).2 in
  Storage.subscriptions (store w') = Storage.subscriptions (store w)
  /\ Storage.destinations (store w') = Storage.destinations (store w)
  /\ Storage.all_channels (store w') = Storage.all_channels (store w)
  /\ (forall c, targets (store w') c = targets (store w) c)
  /\ (forall c, c ∉ Storage.all_channels (store w) ->
        entry (store w') c = entry (store w) c
        /\ List.filter (about c) (trace w') = List.filter (about c) (trace w)).
Proof.
  intros Hvisit. cbn zeta.
  destruct (notifier_loop_frame E cooldown_seconds Hvisit interval n w) as (Hs & Hd & He).
  destruct (all_channels_same _ _ Hs Hd) as [Hall Htargets].
  by split_and!.
Qed.

Lemma loop_frame_witness :
  Storage.subscriptions
    (store (notifier_loop always_v1 120 3600 2 (fresh (subscribed ["UCa"]))).2)
  = Storage.subscriptions (subscribed ["UCa"])
  /\ targets (store (notifier_loop always_v1 120 3600 2 (fresh (subscribed ["UCa"]))).2)
       "UCa"
     = targets (subscribed ["UCa"]) "UCa".
Proof.
  assert (Hvisit : forall (X : gset string) c, c ∈ channel_order always_v1 X -> c ∈ X).
  { intros X c H. by apply elem_of_elements. }
  destruct (loop_frame always_v1 120 3600 2 (fresh (subscribed ["UCa"])) Hvisit)
    as (H1 & _ & _ & H4 & _).
  split; [exact H1|apply H4].
Defined.

(** X23. A cooldown that is over no longer holds the channel back: when the
    stored time stamp has a time zone and is not later than the clock
    reading of the check, the instant of the time stamp itself included, the
    resolver is asked about the channel. *)
Theorem cooldown_expired (E : Env) (cooldown_seconds : Z) (c : string) (w : World)
    (s : string) (d : datetime) :
  Storage.get_cooldown_until (store w) c = Some s -> s <> "" ->
  fromisoformat E s = Some d -> tzaware d = true ->
  instant d <= clock E (ticks w) ->
  let out := process_channel E cooldown_seconds c w in
  in_cooldown E c w = (false, ticked w)
  /\ out = detect E cooldown_seconds c (ticked w)
  /\ polls out.2 = S (polls w)
  /\ exists evs, trace out.2 = trace w ++ EvGetLiveNow c :: evs.
Proof.
  intros Hcd Hne Hd Ha Hle. cbn zeta.
  assert (Hgate : in_cooldown E c w = (false, ticked w)).
  { unfold in_cooldown, now. rewrite Hcd.
    destruct (String.eqb_spec s ""); [done|]. cbn. rewrite Hd.
    unfold before. cbn. rewrite Ha. cbn.
    destruct (Z.ltb_spec (clock E (ticks w)) (instant d)); [lia|reflexivity]. }
  assert (Hout : process_channel E cooldown_seconds c w
                 = detect E cooldown_seconds c (ticked w)).
  { unfold process_channel. by rewrite Hgate. }
  rewrite Hout. split_and!; try done.
  - by destruct (detect_counts E cooldown_seconds c (ticked w)) as (_ & -> & _).
  - apply (detect_polls E cooldown_seconds c (ticked w)).
Qed.

Lemma cooldown_expired_witness :
  let w := fresh (Storage.set_cooldown_until "UCa"
                    (write_stamp {| instant := 0; tzaware := true |})
                    (subscribed ["UCa"])) in
  polls (process_channel always_v1 3600 "UCa" w).2 = 1%nat.
Proof.
  cbn zeta.
  destruct (cooldown_expired always_v1 3600 "UCa"
              (fresh (Storage.set_cooldown_until "UCa"
                        (write_stamp {| instant := 0; tzaware := true |})
                        (subscribed ["UCa"])))
              (write_stamp {| instant := 0; tzaware := true |})
              {| instant := 0; tzaware := true |}) as (_ & _ & H & _).
  - reflexivity.
  - discriminate.
  - reflexivity.
  - reflexivity.
  - cbn. lia.
  - exact H.
Defined.

Lemma process_channel_poll_count E cooldown_seconds c w :
  (polls w <= polls (process_channel E cooldown_seconds c w).2 <= S (polls w))%nat.
Proof.
  unfold process_channel. pose proof (in_cooldown_world E c w) as Hw.
  destruct (in_cooldown E c w) as [skip w1]. cbn [snd] in Hw.
  assert (Hp : polls w1 = polls w) by (by destruct Hw as [->| ->]).
  destruct skip; cbn [snd]; [lia|].
  destruct (detect_counts E cooldown_seconds c w1) as (_ & -> & _). lia.
Qed.

Lemma for_channels_poll_count E cooldown_seconds channels : forall w,
  (polls w <= polls (for_channels E cooldown_seconds channels w).2
   <= polls w + length channels)%nat.
Proof.
  induction channels as [|c rest IH]; intros w; cbn [for_channels length snd]; [lia|].
  pose proof (process_channel_poll_count E cooldown_seconds c w) as Hc.
  destruct (process_channel E cooldown_seconds c w) as [[e|] w1]; cbn [snd] in *; [lia|].
  specialize (IH w1). lia.
Qed.

(** X24. What the loop costs: a sweep asks the resolver at most once for each
    tracked channel, so after [n] sweeps it has been asked at most [n]
    times the number of tracked channels. *)
Theorem loop_cost (E : Env) (interval cooldown_seconds : Z) (n : nat) (w : World) :
  (forall X : gset string, channel_order E X ≡ₚ elements X) ->
  let w' := (notifier_loop E interval cooldown_seconds n w).2 in
  (polls w <= polls w' <= polls w + n * size (Storage.all_channels (store w)))%nat.
Proof.
  intros Hvisit. cbn zeta.
  assert (Hmember : forall (X : gset string) c, c ∈ channel_order E X -> c ∈ X).
  { intros X c. rewrite (Hvisit X). apply elem_of_elements. }
  revert w. induction n as [|n IH]; intros w; cbn [notifier_loop snd]; [lia|].
  destruct (sweep_frame E cooldown_seconds Hmember interval w) as (Hs & Hd & _).
  destruct (all_channels_same _ _ Hs Hd) as [Hall _].
  assert (Hsweep : (polls w <= polls (sweep E interval cooldown_seconds w).2
                    <= polls w + size (Storage.all_channels (store w)))%nat).
  { unfold sweep.
    pose proof (for_channels_poll_count E cooldown_seconds
                  (channel_order E (Storage.all_channels (store w))) w) as Hc.
    destruct (for_channels E cooldown_seconds _ w) as [r w1].
    rewrite (Hvisit _) in Hc.
    destruct (uncaught r); cbn [snd sleep polls] in *; exact Hc. }
  destruct (sweep E interval cooldown_seconds w) as [[e|] w1]; cbn [snd] in *; [nia|].
  specialize (IH w1). rewrite Hall in IH. nia.
Qed.

Lemma loop_cost_witness :
  (polls (notifier_loop always_v1 120 3600 3 (fresh (subscribed ["UCa"; "UCb"]))).2
   <= 0 + 3 * size (Storage.all_channels (subscribed ["UCa"; "UCb"])))%nat.
Proof.
  assert (Hvisit : forall X : gset string, channel_order always_v1 X ≡ₚ elements X)
    by done.
  exact (proj2 (loop_cost always_v1 120 3600 3 (fresh (subscribed ["UCa"; "UCb"])) Hvisit)).
Defined.

Lemma process_channel_cooldown_kept E cooldown_seconds c w :
  cooldown_seconds <= 0 ->
  Storage.cooldown_until (store (process_channel E cooldown_seconds c w).2)
  = Storage.cooldown_until (store w).
Proof.
  intros Hcd.
  assert (Hoff : (0 <? cooldown_seconds) = false) by (apply Z.ltb_ge; lia).
  destruct (process_channel_cases E cooldown_seconds c w) as [|w1 r Hw Hd]; [done|].
  assert (Hw1 : store w1 = store w) by (by destruct Hw as [->| ->]).
  destruct Hd as [e w' _ Hs _|w' _ Hs _|live w' _ _ Hs _|live w' _ _ Hs _];
    cbn [snd]; rewrite Hs; try (by rewrite Hw1).
  unfold committed. rewrite Hoff, Hw1. reflexivity.
Qed.

(** X25. With a cooldown that is not positive the loop never writes a cooldown:
    however long it runs the stored cooldowns are as they were, and if none
    was stored no channel is ever held back, the check not even reading the
    clock. *)
Theorem without_cooldown (E : Env) (interval cooldown_seconds : Z) (n : nat) (w : World) :
  cooldown_seconds <= 0 ->
  let w' := (notifier_loop E interval cooldown_seconds n w).2 in
  Storage.cooldown_until (store w') = Storage.cooldown_until (store w)
  /\ (Storage.cooldown_until (store w) = ∅ ->
      forall c, in_cooldown E c w' = (false, w')).
Proof.
  intros Hcd. cbn zeta.
  assert (Hkept : Storage.cooldown_until
                    (store (notifier_loop E interval cooldown_seconds n w).2)
                  = Storage.cooldown_until (store w)).
  { apply (reaches_invariant E cooldown_seconds
             (fun w' => Storage.cooldown_until (store w')
                        = Storage.cooldown_until (store w))
             ) with (w := w); [| |apply reaches_notifier_loop|reflexivity].
    - intros c w0 H0. by rewrite process_channel_cooldown_kept.
    - intros i w0 H0. exact H0. }
  split; [exact Hkept|]. intros Hnone c. apply in_cooldown_absent.
  unfold Storage.get_cooldown_until. by rewrite Hkept, Hnone, lookup_empty.
Qed.

Lemma without_cooldown_witness :
  Storage.cooldown_until
    (store (notifier_loop always_v1 120 0 2 (fresh (subscribed ["UCa"]))).2) = ∅.
Proof.
  destruct (without_cooldown always_v1 120 0 2 (fresh (subscribed ["UCa"])) ltac:(lia))
    as [H _].
  exact H.
Defined.

End LoopExtras.

(** * Further properties: removing a channel *)

Section Removal.
Import Storage StorageSpec Main Bot.

Lemma list_subscriptions_after_remove chat c d chat' x :
  x ∈ list_subscriptions (remove_subscription chat c d).2 chat'
  <-> x ∈ list_subscriptions d chat' /\ (chat' = chat -> x <> c).
Proof.
  destruct (decide (c ∈ list_subscriptions d chat)) as [Hin|Hout].
  - rewrite (list_subscriptions_remove chat c d chat' Hin).
    destruct (decide (chat = chat')) as [<-|Hne].
    + rewrite (sorted_set_elem String.le), elem_of_filter_neq.
      split; intros [H1 H2]; (split; [done|auto]).
    + split; [intros H; split; [done|congruence]|by intros [H _]].
  - unfold remove_subscription.
    destruct (decide (c ∈ list_subscriptions d chat)); [done|]. cbn [snd].
    split; [|tauto]. intros Hx. split; [done|]. intros -> ->. done.
Qed.

(** X26. Removing a channel in the dialogue takes the channel off the list of
    the chat that asks and empties the channel's destinations, whoever
    registered them; the other chats keep their subscriptions, the other
    channels their destinations, and the per-channel state stays. From then
    on the channel is announced to the other subscribers only, and it stays
    tracked, hence polled, when another chat subscribes to it or when it
    had an entry among the destinations. *)
Theorem remove_picking_spec (chat : Z) (subs : list string) (idx : Z) (d : data)
    (c : string) :
  1 <= idx -> subs !! Z.to_nat (idx - 1) = Some c ->
  let d' := remove_picking chat subs idx d in
  (c ∉ list_subscriptions d' chat)
  /\ list_destinations d' c = []
  /\ (forall chat', chat' <> chat ->
        list_subscriptions d' chat' = list_subscriptions d chat')
  /\ (forall c', c' <> c -> list_destinations d' c' = list_destinations d c')
  /\ same_state d d'
  /\ (targets d' c = all_subscribers_for d c ∖ {[chat]})
  /\ (c ∈ all_channels d'
      <-> (exists chat', chat' <> chat /\ c ∈ list_subscriptions d chat')
          \/ is_Some (destinations d !! c)).
Proof.
  intros Hidx Hc. cbn zeta.
  assert (Hlt : (Z.to_nat (idx - 1) < length subs)%nat) by (by eapply lookup_lt_Some).
  assert (Hd' : remove_picking chat subs idx d
                = clear_destinations c (remove_subscription chat c d).2).
  { unfold remove_picking. rewrite Hc.
    destruct (Z.ltb_spec idx 1); [lia|].
    destruct (Z.ltb_spec (Z.of_nat (length subs)) idx); [lia|]. reflexivity. }
  rewrite Hd'. set (d1 := (remove_subscription chat c d).2).
  assert (Hsubs : forall chat' x,
            x ∈ list_subscriptions (clear_destinations c d1) chat'
            <-> x ∈ list_subscriptions d chat' /\ (chat' = chat -> x <> c)).
  { intros chat' x. rewrite <- list_subscriptions_after_remove. fold d1.
    unfold list_subscriptions, clear_destinations.
    by destruct (destinations d1 !! c). }
  assert (Hdest1 : destinations d1 = destinations d).
  { unfold d1, remove_subscription. by destruct (decide _). }
  assert (Hclear : list_destinations (clear_destinations c d1) c = []).
  { unfold clear_destinations, list_destinations.
    destruct (destinations d1 !! c) as [l|] eqn:Hl; cbn [destinations].
    - by rewrite lookup_insert_eq.
    - by rewrite Hl. }
  assert (Hkey : is_Some (destinations (clear_destinations c d1) !! c)
                 <-> is_Some (destinations d !! c)).
  { unfold clear_destinations.
    destruct (destinations d1 !! c) as [l|] eqn:Hl; cbn [destinations].
    - rewrite lookup_insert_eq, <- Hdest1, Hl. by split.
    - by rewrite <- Hdest1. }
  split_and!.
  - rewrite Hsubs. intros [_ H]. by apply H.
  - exact Hclear.
  - intros chat' Hne. unfold clear_destinations.
    assert (list_subscriptions d1 chat' = list_subscriptions d chat') as <-.
    { unfold d1, remove_subscription. destruct (decide _); [|done]. cbn [snd].
      unfold list_subscriptions. cbn [subscriptions]. by rewrite lookup_insert_ne. }
    unfold list_subscriptions. by destruct (destinations d1 !! c).
  - intros c' Hne. unfold clear_destinations, list_destinations.
    destruct (destinations d1 !! c); cbn [destinations]; rewrite <- Hdest1; [|done].
    by rewrite lookup_insert_ne.
  - assert (Hst1 : same_state d d1).
    { unfold d1, remove_subscription. destruct (decide _); by split_and!. }
    unfold same_state, clear_destinations in *.
    by destruct (destinations d1 !! c).
  - unfold targets. rewrite Hclear. apply set_eq. intros k.
    rewrite elem_of_union, elem_of_difference, elem_of_singleton,
      !elem_of_all_subscribers_for, Hsubs, elem_of_list_to_set, elem_of_nil.
    split.
    + intros [[H1 H2]|[]]. split; [done|]. intros ->. by apply H2.
    + intros [H1 H2]. left. split; [done|]. intros ->. done.
  - rewrite elem_of_all_channels, Hkey. split.
    + intros [[chat' H]|H]; [left|by right]. apply Hsubs in H as [H1 H2].
      exists chat'. split; [|done]. intros ->. by apply H2.
    + intros [(chat' & Hne & H)|H]; [left|by right]. exists chat'. apply Hsubs.
      split; [done|]. intros ->. done.
Qed.

Lemma remove_picking_spec_witness :
  let d := add_destination "UCa" (-100) (add_subscription 7 "UCa" empty) in
  list_destinations (remove_picking 7 ["UCa"] 1 d) "UCa" = []
  /\ ("UCa" ∈ all_channels (remove_picking 7 ["UCa"] 1 d)
      <-> (exists chat', chat' <> 7 /\ "UCa" ∈ list_subscriptions d chat')
          \/ is_Some (destinations d !! "UCa")).
Proof.
  cbn zeta.
  destruct (remove_picking_spec 7 ["UCa"] 1
              (add_destination "UCa" (-100) (add_subscription 7 "UCa" empty)) "UCa")
    as (_ & H2 & _ & _ & _ & _ & H7).
  - lia.
  - reflexivity.
  - split; [exact H2|exact H7].
Defined.

End Removal.
